(** * LIORA identity coherence sentinel (liora_observer.py)

    A shallow embedding of [src/liora/liora_observer.py]: the helpers
    [normalize] and [stable_vector_hash], and the class [LioraSentinel]
    with its constructor, [observe] and [export_report], the
    demonstration loop [simulate_semantic_entropy] and the command line
    [main].

    Numbers.  The program computes on numpy [float64] values.  They are
    modelled by Rocq's primitive binary64 floats, so every definition runs
    ([vm_compute]) and returns the double the program returns.  The numeric
    kernel ([normalize], the dot product, the norm, the cosine distance) is
    written once over an interface [Arith] of the arithmetic operations it
    uses, and read at two instances: [binary64] (what the program executes)
    and [exact] (the real numbers, the arithmetic the distance formulas are
    stated in).

    Library functions.  numpy, scipy, hashlib, json, [collections.deque],
    [open] and the builtins [round] and [format] are not part of the
    repository; they are modelled from their documented behaviour, each at
    its definition below.

    Not embedded: what the [logging] handlers write, and the text of the
    report file (the report is a JSON document, not its characters). *)

From Stdlib Require Import ZArith List Bool String Ascii Floats Lia.
From Stdlib Require Import Reals Lra.
Import ListNotations.

Set Warnings "-inexact-float,-register-all".

(* ------------------------------------------------------------------ *)
(** * Exceptions *)
(* ------------------------------------------------------------------ *)

(** The exceptions the modelled code can raise. *)
Inductive exn : Type :=
| ValueError (msg : string)
| TypeError (msg : string)
| OverflowError (msg : string)
| OSError (msg : string)
| Exception (msg : string).

(** A call either returns a value or raises. *)
Inductive result (A : Type) : Type :=
| Ok (a : A)
| Raise (e : exn).

Arguments Ok {A} a.
Arguments Raise {A} e.

Definition is_ok {A} (r : result A) : bool :=
  match r with Ok _ => true | Raise _ => false end.

Definition result_bind {A B} (r : result A) (f : A -> result B) : result B :=
  match r with
  | Ok a => f a
  | Raise e => Raise e
  end.

Definition result_map {A B} (f : A -> B) (r : result A) : result B :=
  result_bind r (fun a => Ok (f a)).

Section ResultAll.

Context {A B : Type} (f : A -> result B).

(** [f] on every element, left to right; the first exception ends it. *)
Fixpoint result_all (l : list A) : result (list B) :=
  match l with
  | [] => Ok []
  | x :: l' =>
      match f x with
      | Raise e => Raise e
      | Ok y =>
          match result_all l' with
          | Raise e => Raise e
          | Ok ys => Ok (y :: ys)
          end
      end
  end.

End ResultAll.

(* ------------------------------------------------------------------ *)
(** * Methods: computations on an object's state that may raise *)
(* ------------------------------------------------------------------ *)

(** A method body runs on the object's state, may update it, and returns or
    raises.  As in Python, an exception does not roll anything back: the
    state after a raise is the state the body had reached. *)
Module Method.

Definition t (S A : Type) : Type := S -> result A * S.

Definition ret {S A} (a : A) : t S A := fun s => (Ok a, s).

Definition bind {S A B} (m : t S A) (f : A -> t S B) : t S B :=
  fun s =>
    match m s with
    | (Ok a, s') => f a s'
    | (Raise e, s') => (Raise e, s')
    end.

(** A call of a function that may raise. *)
Definition call {S A} (r : result A) : t S A := fun s => (r, s).

(** Reading an attribute of [self]. *)
Definition attr {S A} (f : S -> A) : t S A := fun s => (Ok (f s), s).

(** Updating [self] in place. *)
Definition update {S} (f : S -> S) : t S unit := fun s => (Ok tt, f s).

End Method.

Declare Scope method_scope.
Delimit Scope method_scope with method.
Notation "x <- m ;; k" := (Method.bind m (fun x => k))
  (at level 61, m at next level, right associativity) : method_scope.
Notation "m ;; k" := (Method.bind m (fun _ => k))
  (at level 61, right associativity) : method_scope.

(* ------------------------------------------------------------------ *)
(** * The arithmetic the numeric kernel uses *)
(* ------------------------------------------------------------------ *)

Class Arith (F : Type) : Type := {
  fzero : F;
  fone : F;
  ftwo : F;
  fadd : F -> F -> F;
  fsub : F -> F -> F;
  fmul : F -> F -> F;
  fdiv : F -> F -> F;
  fsqrt : F -> F;
  (** [==], [<] as the language evaluates them (false on NaN) *)
  feqb : F -> F -> bool;
  fltb : F -> F -> bool;
  fisnan : F -> bool
}.

(** What runs: IEEE 754 binary64, round to nearest even. *)
#[export] Instance binary64 : Arith float := {
  fzero := 0%float;
  fone := 1%float;
  ftwo := 2%float;
  fadd := PrimFloat.add;
  fsub := PrimFloat.sub;
  fmul := PrimFloat.mul;
  fdiv := PrimFloat.div;
  fsqrt := PrimFloat.sqrt;
  feqb := PrimFloat.eqb;
  fltb := PrimFloat.ltb;
  fisnan := PrimFloat.is_nan
}.

(** The same operations in exact real arithmetic (no rounding, no NaN). *)
#[export] Instance exact : Arith R := {
  fzero := 0%R;
  fone := 1%R;
  ftwo := 2%R;
  fadd := Rplus;
  fsub := Rminus;
  fmul := Rmult;
  fdiv := Rdiv;
  fsqrt := R_sqrt.sqrt;
  feqb := fun x y => if Req_dec_T x y then true else false;
  fltb := fun x y => if Rlt_dec x y then true else false;
  fisnan := fun _ => false
}.

Section Kernel.

Context {F : Type} {A : Arith F}.

(** [np.dot] of two one-dimensional arrays of equal length: the sum of the
    products.  numpy hands it to the BLAS routine [ddot], whose rounding
    depends on the build: neither the order of the sum nor whether a
    product is rounded before it is added (or fused with the addition) is
    fixed.  Modelled is the reference routine: each product rounded, and
    added left to right from 0.  A fused build can differ from it in the
    last bits of a result. *)
Fixpoint sum_products (acc : F) (u v : list F) : F :=
  match u, v with
  | x :: u', y :: v' => sum_products (fadd acc (fmul x y)) u' v'
  | _, _ => acc
  end.

(** [np.dot(u, v)]: arrays of different lengths are rejected. *)
Definition np_dot (u v : list F) : result F :=
  if Nat.eqb (List.length u) (List.length v)
  then Ok (sum_products fzero u v)
  else Raise (ValueError "shapes not aligned").

(** [np.linalg.norm(v)] of a one-dimensional real array:
    [sqrt(v.dot(v))]. *)
Definition np_linalg_norm (v : list F) : F :=
  fsqrt (sum_products fzero v v).

(** <<
    def normalize(v):
        v = np.asarray(v, dtype=np.float64)
        n = np.linalg.norm(v)
        if n == 0.0:
            raise ValueError("Zero vector detected during normalization.")
        return v / n
    >> *)
Definition normalize (v : list F) : result (list F) :=
  let n := np_linalg_norm v in
  if feqb n fzero
  then Raise (ValueError "Zero vector detected during normalization.")
  else Ok (map (fun x => fdiv x n) v).

(** numpy's scalar maximum and minimum inside [np.clip]: a NaN first
    argument is returned as it is. *)
Definition clip_max (a b : F) : F :=
  if fisnan a then a else if fltb b a then a else b.

Definition clip_min (a b : F) : F :=
  if fisnan a then a else if fltb a b then a else b.

(** [np.clip(x, lo, hi)] *)
Definition np_clip (x lo hi : F) : F := clip_min (clip_max x lo) hi.

(** [scipy.spatial.distance.cosine(u, v)], the uncentred correlation
    distance:
    <<
        uv = np.dot(u, v); uu = np.dot(u, u); vv = np.dot(v, v)
        dist = 1.0 - uv / math.sqrt(uu * vv)
        return np.clip(dist, 0.0, 2.0)
    >> *)
Definition cosine (u v : list F) : result F :=
  result_bind (np_dot u v) (fun uv =>
  result_bind (np_dot u u) (fun uu =>
  result_bind (np_dot v v) (fun vv =>
  let dist := fsub fone (fdiv uv (fsqrt (fmul uu vv))) in
  Ok (np_clip dist fzero ftwo)))).

End Kernel.

(** The program's vectors. *)
Definition vec : Type := list float.

(* ------------------------------------------------------------------ *)
(** * Builtins on Python floats *)
(* ------------------------------------------------------------------ *)

Definition float_of_nat (n : nat) : float :=
  PrimFloat.of_uint63 (Uint63.of_Z (Z.of_nat n)).

(** The sum [np.add.reduce] computes over a contiguous float64 array is
    numpy's pairwise summation.  Fewer than 8 values are added left to
    right, from -0.0.  Up to 128 values are added in eight running sums, the
    value at index [i] into sum [i mod 8], as long as whole groups of 8
    last; the eight are then combined as
    [((r0 + r1) + (r2 + r3)) + ((r4 + r5) + (r6 + r7))] and the values
    left over added one by one.  A longer array is cut in two, the first
    part of [n / 2] values rounded down to a multiple of 8, and the sums
    of the parts added. *)
Fixpoint add_groups (r xs : list float) (groups : nat)
  : list float * list float :=
  match groups with
  | O => (r, xs)
  | S g =>
      add_groups
        (map (fun ab => (fst ab + snd ab)%float) (combine r (firstn 8 xs)))
        (skipn 8 xs) g
  end.

Definition unrolled_sum (xs : list float) : float :=
  let (r, rest) :=
    add_groups (firstn 8 xs) (skipn 8 xs) (List.length xs / 8 - 1) in
  let r_ i := nth i r 0%float in
  fold_left PrimFloat.add rest
    (((r_ 0%nat + r_ 1%nat) + (r_ 2%nat + r_ 3%nat))
     + ((r_ 4%nat + r_ 5%nat) + (r_ 6%nat + r_ 7%nat)))%float.

Fixpoint pairwise_sum (depth : nat) (xs : list float) : float :=
  let n := List.length xs in
  if (n <? 8)%nat then fold_left PrimFloat.add xs neg_zero
  else
    match depth with
    | O => unrolled_sum xs
    | S depth' =>
        if (n <=? 128)%nat then unrolled_sum xs
        else
          let n2 := (n / 2 - (n / 2) mod 8)%nat in
          (pairwise_sum depth' (firstn n2 xs)
           + pairwise_sum depth' (skipn n2 xs))%float
    end.

(** [np.sum] of a one-dimensional array: 0.0 when it is empty, otherwise
    the pairwise sum added to the initial -0.0.  (An array of [n] values
    is halved fewer than [n] times.  numpy before 1.25 starts from 0.0
    where -0.0 stands here: the sums differ, by the sign of a zero, only
    when every value is -0.0.) *)
Definition np_sum (xs : list float) : float :=
  match xs with
  | [] => 0%float
  | _ => (neg_zero + pairwise_sum (List.length xs) xs)%float
  end.

(** [np.mean] of a one-dimensional array: the sum divided by the number of
    elements.  The mean of no element is the NaN that [0.0 / 0] is. *)
Definition np_mean (xs : list float) : float :=
  (np_sum xs / float_of_nat (List.length xs))%float.

(** Nearest integer to [num / den], ties to the even one
    ([0 <= num], [0 < den]). *)
Definition round_half_even (num den : Z) : Z :=
  let q := (num / den)%Z in
  let r := (num mod den)%Z in
  match (2 * r ?= den)%Z with
  | Lt => q
  | Gt => (q + 1)%Z
  | Eq => if Z.even q then q else (q + 1)%Z
  end.

(** The builtin [round(x, ndigits)] on a float, [0 <= ndigits]: the exact
    value of [x] is rounded half-even to [ndigits] decimals, and the double
    nearest that decimal is returned.  NaN, the infinities and the zeros
    round to themselves; so does every float that is an integer. *)
Definition py_round (x : float) (ndigits : N) : float :=
  match Prim2SF x with
  | S754_finite s m e =>
      if (0 <=? e)%Z then x
      else
        let scale := (10 ^ Z.of_N ndigits)%Z in
        match round_half_even (Zpos m * scale) (2 ^ (- e)) with
        | Zpos p =>
            SF2Prim (SFdiv prec emax (S754_finite s p 0)
                       (S754_finite false (Z.to_pos scale) 0))
        | _ => if s then neg_zero else zero
        end
  | _ => x
  end.

(* ------------------------------------------------------------------ *)
(** * Bytes of a float64 array *)
(* ------------------------------------------------------------------ *)

Definition byte_of_Z (z : Z) : Byte.byte :=
  match Byte.of_N (Z.to_N (z mod 256)) with
  | Some b => b
  | None => Byte.x00
  end.

Definition Z_of_byte (b : Byte.byte) : Z := Z.of_N (Byte.to_N b).

(** The 64 bits of a double, from its description: sign, 11 bits of biased
    exponent, 52 bits of fraction. *)
Definition spec_bits (f : spec_float) : Z :=
  let sign (s : bool) := if s then 0x8000000000000000%Z else 0%Z in
  match f with
  | S754_zero s => sign s
  | S754_infinity s => (sign s + 0x7FF0000000000000)%Z
  | S754_nan => 0x7FF8000000000000%Z
  | S754_finite s m e =>
      if (Zpos m <? 2 ^ 52)%Z
      then (sign s + Zpos m)%Z
      else (sign s + (e + 1075) * 2 ^ 52 + (Zpos m - 2 ^ 52))%Z
  end.

(** The 64 bits of a float.  Primitive floats have one NaN; it is given the
    bits of [np.nan].  (A NaN the program computes, [inf / inf] for one,
    can carry another sign bit: the bytes and the digest of a vector that
    holds a NaN are those of [np.nan] in its place.) *)
Definition float64_bits (x : float) : Z := spec_bits (Prim2SF x).

(** [n] bytes of [z], least significant first. *)
Fixpoint le_bytes (n : nat) (z : Z) : list Byte.byte :=
  match n with
  | O => []
  | S n' => byte_of_Z z :: le_bytes n' (z / 256)
  end.

(** [n] bytes of [z], most significant first. *)
Definition be_bytes (n : nat) (z : Z) : list Byte.byte := rev (le_bytes n z).

(** [v.tobytes()] of a contiguous float64 array, in the byte order of the
    machine (little-endian). *)
Definition tobytes (v : vec) : list Byte.byte :=
  flat_map (fun x => le_bytes 8 (float64_bits x)) v.

(* ------------------------------------------------------------------ *)
(** * SHA-256 (FIPS 180-4), as [hashlib.sha256] computes it *)
(* ------------------------------------------------------------------ *)

Module SHA256.

Local Open Scope Z_scope.

Definition add32 (x y : Z) : Z := (x + y) mod 2 ^ 32.

Definition rotr (n x : Z) : Z :=
  (Z.lor (Z.shiftr x n) (Z.shiftl x (32 - n))) mod 2 ^ 32.

Definition Ch (x y z : Z) : Z :=
  Z.lxor (Z.land x y) (Z.land (Z.lxor x 0xFFFFFFFF) z).

Definition Maj (x y z : Z) : Z :=
  Z.lxor (Z.lxor (Z.land x y) (Z.land x z)) (Z.land y z).

Definition Sigma0 (x : Z) : Z := Z.lxor (Z.lxor (rotr 2 x) (rotr 13 x)) (rotr 22 x).
Definition Sigma1 (x : Z) : Z := Z.lxor (Z.lxor (rotr 6 x) (rotr 11 x)) (rotr 25 x).
Definition sigma0 (x : Z) : Z := Z.lxor (Z.lxor (rotr 7 x) (rotr 18 x)) (Z.shiftr x 3).
Definition sigma1 (x : Z) : Z := Z.lxor (Z.lxor (rotr 17 x) (rotr 19 x)) (Z.shiftr x 10).

(** The first [count] primes. *)
Definition is_prime (n : Z) : bool :=
  (1 <? n) && forallb (fun d => negb (n mod Z.of_nat d =? 0))
                      (seq 2 (Z.to_nat n - 2)).

Definition first_primes (count : nat) : list Z :=
  firstn count (filter is_prime (map Z.of_nat (seq 2 400))).

(** The largest [r' >= r] below [r + 2 ^ bits] with [r' ^ k <= n]. *)
Fixpoint root_search (k n : Z) (bits : nat) (r : Z) : Z :=
  match bits with
  | O => r
  | S b =>
      let c := r + 2 ^ Z.of_nat b in
      root_search k n b (if c ^ k <=? n then c else r)
  end.

(** The first 32 bits of the fractional part of the [k]-th root of [p]. *)
Definition root_fraction (k p : Z) : Z :=
  root_search k (p * 2 ^ (32 * k)) 40 0 mod 2 ^ 32.

(** The round constants: from the cube roots of the first 64 primes. *)
Definition K : list Z :=
  Eval vm_compute in map (root_fraction 3) (first_primes 64).

(** The eight working words. *)
Record words : Type := Words {
  wa : Z; wb : Z; wc : Z; wd : Z; we : Z; wf : Z; wg : Z; wh : Z
}.

(** The initial hash value: from the square roots of the first 8 primes. *)
Definition H0 : words :=
  Eval vm_compute in
    match map (root_fraction 2) (first_primes 8) with
    | [a; b; c; d; e; f; g; h] => Words a b c d e f g h
    | _ => Words 0 0 0 0 0 0 0 0
    end.

(** The message padded to a multiple of 64 bytes: a 1 bit, zeros, and the
    length in bits as a 64-bit big-endian number. *)
Definition pad (msg : list Byte.byte) : list Byte.byte :=
  let len := Z.of_nat (List.length msg) in
  let zeros := Z.to_nat ((55 - len) mod 64) in
  msg ++ [Byte.x80] ++ repeat Byte.x00 zeros ++ be_bytes 8 (8 * len).

(** A big-endian number from its bytes. *)
Definition be_word (bs : list Byte.byte) : Z :=
  fold_left (fun acc b => acc * 256 + Z_of_byte b) bs 0.

(** [n] consecutive groups of [k] elements. *)
Fixpoint chunks {T} (k n : nat) (l : list T) : list (list T) :=
  match n with
  | O => []
  | S n' => firstn k l :: chunks k n' (skipn k l)
  end.

(** The message schedule, latest word first: [n] more words. *)
Fixpoint extend (n : nat) (w : list Z) : list Z :=
  match n with
  | O => w
  | S n' =>
      let wt :=
        add32 (add32 (sigma1 (nth 1 w 0)) (nth 6 w 0))
              (add32 (sigma0 (nth 14 w 0)) (nth 15 w 0)) in
      extend n' (wt :: w)
  end.

Definition schedule (block : list Byte.byte) : list Z :=
  rev (extend 48 (rev (map be_word (chunks 4 16 block)))).

Definition round (s : words) (kw : Z * Z) : words :=
  let t1 :=
    add32 (add32 (add32 (wh s) (Sigma1 (we s))) (Ch (we s) (wf s) (wg s)))
          (add32 (fst kw) (snd kw)) in
  let t2 := add32 (Sigma0 (wa s)) (Maj (wa s) (wb s) (wc s)) in
  Words (add32 t1 t2) (wa s) (wb s) (wc s) (add32 (wd s) t1) (we s) (wf s) (wg s).

Definition compress (h : words) (block : list Byte.byte) : words :=
  let s := fold_left round (combine K (schedule block)) h in
  Words (add32 (wa h) (wa s)) (add32 (wb h) (wb s)) (add32 (wc h) (wc s))
        (add32 (wd h) (wd s)) (add32 (we h) (we s)) (add32 (wf h) (wf s))
        (add32 (wg h) (wg s)) (add32 (wh h) (wh s)).

(** The 32 bytes of the digest. *)
Definition digest (msg : list Byte.byte) : list Byte.byte :=
  let padded := pad msg in
  let h := fold_left compress (chunks 64 (List.length padded / 64) padded) H0 in
  flat_map (be_bytes 4)
    [wa h; wb h; wc h; wd h; we h; wf h; wg h; wh h].

End SHA256.

Definition hex_digits : list ascii :=
  list_ascii_of_string "0123456789abcdef".

Definition hex_digit (d : Z) : ascii := nth (Z.to_nat d) hex_digits "0"%char.

(** [.hexdigest()]: two lower-case hexadecimal digits per byte. *)
Fixpoint hexdigest (bs : list Byte.byte) : string :=
  match bs with
  | [] => EmptyString
  | b :: bs' =>
      String (hex_digit (Z_of_byte b / 16))
        (String (hex_digit (Z_of_byte b mod 16)) (hexdigest bs'))
  end.

(** <<
    def stable_vector_hash(v):
        v = np.ascontiguousarray(np.asarray(v, dtype=np.float64))
        return hashlib.sha256(v.tobytes()).hexdigest()
    >> *)
Definition stable_vector_hash (v : vec) : string :=
  hexdigest (SHA256.digest (tobytes v)).

(* ------------------------------------------------------------------ *)
(** * Python values and JSON documents *)
(* ------------------------------------------------------------------ *)

(** The Python values a caller passes as a step identifier and the ones a
    report is made of.  [PyObject] stands for an object of any other type
    (a set, a class instance, ...): it is known by what [format(o, "")]
    and [repr(o)] do on it, return or raise, as its class defines them. *)
Inductive pyval : Type :=
| PyNone
| PyBool (b : bool)
| PyInt (z : Z)
| PyFloat (x : float)
| PyStr (s : string)
| PyList (l : list pyval)
| PyTuple (l : list pyval)
| PyDict (items : list (string * pyval))
| PyObject (id : nat) (on_format on_repr : result unit).

(** A JSON document. *)
Inductive json : Type :=
| JNull
| JBool (b : bool)
| JInt (z : Z)
| JReal (x : float)
| JString (s : string)
| JArray (l : list json)
| JObject (members : list (string * json)).

(** [sys.int_info.default_max_str_digits]: CPython (3.11, and the later
    releases of 3.7 to 3.10) refuses to write an int of more decimal
    digits than this as text. *)
Definition int_max_str_digits : Z := 4300.

Definition int_too_long : exn :=
  ValueError ("Exceeds the limit (4300 digits) for integer string "
              ++ "conversion; use sys.set_int_max_str_digits() to "
              ++ "increase the limit").

(** [int.__repr__(z)], the decimal text of an int, return or raise. *)
Definition int_repr (z : Z) : result unit :=
  if (10 ^ int_max_str_digits <=? Z.abs z)%Z then Raise int_too_long
  else Ok tt.

(** [repr(v)], return or raise: the text of a list, a tuple or a dict
    holds the [repr] of its elements, written left to right.  (The text
    itself is not needed: it goes to the log.) *)
Fixpoint py_repr (v : pyval) : result unit :=
  match v with
  | PyNone | PyBool _ | PyFloat _ | PyStr _ => Ok tt
  | PyInt z => int_repr z
  | PyList l | PyTuple l => result_map (fun _ => tt) (result_all py_repr l)
  | PyDict items =>
      result_map (fun _ => tt)
        (result_all (fun kv : string * pyval => py_repr (snd kv)) items)
  | PyObject _ _ on_repr => on_repr
  end.

(** [format(v, "")], what an f-string does with [{v}]: the builtin types
    answer their [str], which for an int, a list, a tuple and a dict is
    the [repr]. *)
Definition py_format (v : pyval) : result unit :=
  match v with
  | PyObject _ on_format _ => on_format
  | _ => py_repr v
  end.

(** The conversion table of [json.dump]: dict to object, list and tuple to
    array, str to string, int and float to number, [True], [False] and
    [None] to [true], [false] and [null]; any other object raises
    [TypeError].  An int is written by [int.__repr__].  The document is
    built left to right; the first exception ends it. *)
Fixpoint json_encode (v : pyval) : result json :=
  match v with
  | PyNone => Ok JNull
  | PyBool b => Ok (JBool b)
  | PyInt z => result_map (fun _ => JInt z) (int_repr z)
  | PyFloat x => Ok (JReal x)
  | PyStr s => Ok (JString s)
  | PyList l => result_map JArray (result_all json_encode l)
  | PyTuple l => result_map JArray (result_all json_encode l)
  | PyDict items =>
      result_map JObject
        (result_all
           (fun kv => match kv with
                      | (k, x) => result_map (pair k) (json_encode x)
                      end) items)
  | PyObject _ _ _ => Raise (TypeError "Object is not JSON serializable")
  end.

(** The conversion table of [json.load]: object to dict, array to list,
    string to str, a number without fraction or exponent to int, any other
    number (and [NaN], [Infinity]) to float, [true], [false] and [null] to
    [True], [False] and [None]. *)
Fixpoint json_decode (j : json) : pyval :=
  match j with
  | JNull => PyNone
  | JBool b => PyBool b
  | JInt z => PyInt z
  | JReal x => PyFloat x
  | JString s => PyStr s
  | JArray l => PyList (map json_decode l)
  | JObject members =>
      PyDict (map (fun kv => match kv with
                             | (k, x) => (k, json_decode x)
                             end) members)
  end.

(** [d[key]]: the value the dict [d] holds for [key]; nothing (the program
    would raise) when the key is missing or [d] is no dict. *)
Fixpoint assoc (key : string) (items : list (string * pyval)) : option pyval :=
  match items with
  | [] => None
  | (k, x) :: rest => if String.eqb k key then Some x else assoc key rest
  end.

Definition getitem (v : pyval) (key : string) : option pyval :=
  match v with
  | PyDict items => assoc key items
  | _ => None
  end.

(** [d[k1][k2]...] *)
Fixpoint getpath (v : pyval) (keys : list string) : option pyval :=
  match keys with
  | [] => Some v
  | k :: rest =>
      match getitem v k with
      | Some x => getpath x rest
      | None => None
      end
  end.

(** No string twice: the keys of a dict are distinct. *)
Fixpoint distinct (keys : list string) : bool :=
  match keys with
  | [] => true
  | k :: rest => negb (existsb (String.eqb k) rest) && distinct rest
  end.

(** The values whose type [json.load] gives back: no tuple (it comes back
    as a list), no other object (it is not written), no NaN (it comes back
    as a float that is not equal to itself), no int too long to be
    written. *)
Fixpoint json_native (v : pyval) : bool :=
  match v with
  | PyNone | PyBool _ | PyStr _ => true
  | PyInt z => (Z.abs z <? 10 ^ int_max_str_digits)%Z
  | PyFloat x => negb (PrimFloat.is_nan x)
  | PyList l => forallb json_native l
  | PyTuple _ => false
  | PyDict items =>
      forallb (fun kv => json_native (snd kv)) items
      && distinct (map fst items)
  | PyObject _ _ _ => false
  end.

(* ------------------------------------------------------------------ *)
(** * collections.deque *)
(* ------------------------------------------------------------------ *)

Record deque : Type := Deque {
  maxlen : nat;
  items : list float
}.

(** [deque(maxlen=n)]: [n] is first converted to the C type [Py_ssize_t]
    (64 bits), then checked. *)
Definition deque_new (n : Z) : result deque :=
  if ((n <? - 2 ^ 63) || (2 ^ 63 <=? n))%Z
  then Raise (OverflowError "Python int too large to convert to C ssize_t")
  else if (n <? 0)%Z
  then Raise (ValueError "maxlen must be non-negative")
  else Ok (Deque (Z.to_nat n) []).

(** [d.append(x)]: [x] is added on the right; a deque longer than its
    [maxlen] then drops its leftmost item. *)
Definition deque_append (x : float) (d : deque) : deque :=
  let l := items d ++ [x] in
  Deque (maxlen d) (if (maxlen d <? List.length l)%nat then tl l else l).

(* ------------------------------------------------------------------ *)
(** * Audit events *)
(* ------------------------------------------------------------------ *)

(** The dict [observe] appends to the history; its keys are the fields. *)
Module Event.

Record t : Type := Make {
  timestamp : string;
  step_id : pyval;
  drift_raw : float;
  drift_avg : float;
  threshold : float;
  status : string;
  origin_hash : string;
  action_required : bool
}.

(** The dict itself, keys in the order the program writes them. *)
Definition to_dict (e : t) : pyval :=
  PyDict
    [ ("timestamp"%string, PyStr (timestamp e));
      ("step_id"%string, step_id e);
      ("drift_raw"%string, PyFloat (drift_raw e));
      ("drift_avg"%string, PyFloat (drift_avg e));
      ("threshold"%string, PyFloat (threshold e));
      ("status"%string, PyStr (status e));
      ("origin_hash"%string, PyStr (origin_hash e));
      ("action_required"%string, PyBool (action_required e)) ].

End Event.

(* ------------------------------------------------------------------ *)
(** * LioraSentinel *)
(* ------------------------------------------------------------------ *)

(** Calls of [logging] write to the handlers of the process and touch
    nothing of the sentinel; what they write is left out, but not their
    argument: an f-string is evaluated before the call, and formatting a
    value can raise.  The f-strings of the constructor format a float and
    a str, which cannot.  The clock
    ([datetime.now(timezone.utc).isoformat()]) is an argument, [now]. *)
Module LioraSentinel.

Record t : Type := Make {
  origin_tii : vec;
  threshold : float;
  origin_hash : string;
  history : list Event.t;
  recent_drifts : deque
}.

Definition set_recent_drifts (f : deque -> deque) (self : t) : t :=
  Make (origin_tii self) (threshold self) (origin_hash self)
       (history self) (f (recent_drifts self)).

Definition set_history (f : list Event.t -> list Event.t) (self : t) : t :=
  Make (origin_tii self) (threshold self) (origin_hash self)
       (f (history self)) (recent_drifts self).

(** <<
    def __init__(self, origin_tii, threshold=0.15, window_size=5):
        self.origin_tii = normalize(origin_tii)
        self.threshold = float(threshold)
        self.origin_hash = stable_vector_hash(self.origin_tii)
        self.history = []
        self.recent_drifts = deque(maxlen=window_size)
    >> *)
Definition __init__ (origin_tii : vec) (threshold : float) (window_size : Z)
  : result t :=
  result_bind (normalize origin_tii) (fun origin =>
  let origin_hash := stable_vector_hash origin in
  result_bind (deque_new window_size) (fun recent =>
  Ok (Make origin threshold origin_hash [] recent))).

(** <<
    def observe(self, current_tii, timestep_id=None):
        current_tii = normalize(current_tii)
        drift = cosine(self.origin_tii, current_tii)
        self.recent_drifts.append(drift)
        avg_drift = float(np.mean(self.recent_drifts))
        is_safe = drift <= self.threshold
        status = "COHERENT" if is_safe else "DRIFT_ALERT"
        event = { "timestamp": ..., "step_id": timestep_id,
                  "drift_raw": round(float(drift), 6),
                  "drift_avg": round(avg_drift, 6),
                  "threshold": self.threshold, "status": status,
                  "origin_hash": self.origin_hash,
                  "action_required": not is_safe }
        self.history.append(event)
        if is_safe:
            logging.info(f"Step {timestep_id}: OK | drift=... avg=...")
            return True, drift, avg_drift
        else:
            logging.warning(f"Step {timestep_id}: *** DRIFT ALERT *** ...")
            return False, drift, avg_drift
    >> *)
Definition observe (current_tii : vec) (timestep_id : pyval) (now : string)
  : Method.t t (bool * float * float) :=
  (current_tii <- Method.call (normalize current_tii) ;;
   origin <- Method.attr origin_tii ;;
   drift <- Method.call (cosine origin current_tii) ;;
   Method.update (set_recent_drifts (deque_append drift)) ;;
   recent <- Method.attr recent_drifts ;;
   let avg_drift := np_mean (items recent) in
   thr <- Method.attr threshold ;;
   let is_safe := PrimFloat.leb drift thr in
   let status := if is_safe then "COHERENT"%string else "DRIFT_ALERT"%string in
   hash <- Method.attr origin_hash ;;
   let event :=
     Event.Make now timestep_id (py_round drift 6) (py_round avg_drift 6)
                thr status hash (negb is_safe) in
   Method.update (set_history (fun h => h ++ [event])) ;;
   if is_safe
   then (Method.call (py_format timestep_id) ;;
         Method.ret (true, drift, avg_drift))
   else (Method.call (py_format timestep_id) ;;
         Method.ret (false, drift, avg_drift)))%method.

(** The dict [export_report] builds. *)
Definition report (self : t) (now : string) : pyval :=
  PyDict
    [ ("meta"%string,
       PyDict
         [ ("module"%string, PyStr "Liora Identity Observer");
           ("version"%string, PyStr "1.2");
           ("generated_at"%string, PyStr now);
           ("origin_hash"%string, PyStr (origin_hash self));
           ("threshold"%string, PyFloat (threshold self)) ]);
      ("audit_trail"%string, PyList (map Event.to_dict (history self))) ].

(** <<
    def export_report(self, filename="liora_report.json"):
        report = { "meta": {...}, "audit_trail": self.history }
        with open(filename, "w", encoding="utf-8") as f:
            json.dump(report, f, indent=4)
    >>
    [open_w] is the file system: what [open(filename, "w")] does for a
    name, return or raise.  The result is the document the file holds
    when the call returns; the sentinel is not touched. *)
Definition export_report (self : t) (filename : string) (now : string)
    (open_w : string -> result unit)
  : result json :=
  result_bind (open_w filename) (fun _ => json_encode (report self now)).

(** A caller's successive calls of [observe], each with its vector, step
    identifier and clock reading; a call that raises is caught and the
    next one made. *)
Fixpoint observe_each (calls : list (vec * pyval * string)) (self : t)
  : list (result (bool * float * float)) * t :=
  match calls with
  | [] => ([], self)
  | (v, id, now) :: rest =>
      let (r, self') := observe v id now self in
      let (rs, self'') := observe_each rest self' in
      (r :: rs, self'')
  end.

End LioraSentinel.

(** Reading the file back: [json.load]. *)
Definition json_load (doc : json) : pyval := json_decode doc.

(* ------------------------------------------------------------------ *)
(** * Demo / Simulation and the command line *)
(* ------------------------------------------------------------------ *)

(** [np.random.default_rng(42)] is modelled by the sequence [g] of the
    values its [normal(0.0, 0.02)] returns, one after the other;
    [rng.normal(0.0, 0.02, size=n)] takes the next [n] of them.  [print]
    appends its argument to the lines written so far.  The clock is the
    sequence of its readings. *)
Definition rng_normal (g : nat -> float) (pos size : nat) : vec :=
  map g (seq pos size).

(** [current + factor * noise], on arrays of the same shape. *)
Definition perturb (current : vec) (factor : float) (noise : vec) : vec :=
  map (fun cn => (fst cn + factor * snd cn)%float) (combine current noise).

Definition newline : string := String (ascii_of_nat 10) EmptyString.

Definition start_banner : string :=
  (newline ++ "--- STARTING LIORA OBSERVATION LOOP ---" ++ newline)%string.

Definition end_banner : string :=
  (newline ++ "--- END OBSERVATION ---")%string.

Definition drift_notice : string :=
  ">>> [SYSTEM NOTICE] Identity drift detected".

(** <<
    for t in range(1, steps + 1):
        noise = rng.normal(0.0, 0.02, size=current.shape)
        factor = 0.3 if t < 6 else 0.9
        current = normalize(current + factor * noise)
        ok, drift, avg = sentinel.observe(current, timestep_id=t)
        if not ok:
            print(">>> [SYSTEM NOTICE] Identity drift detected")
    >>
    [n] iterations are left, the next one is iteration [step]; [pos] draws
    of the generator are used.  An exception ends the loop; the lines
    printed so far stay printed. *)
Fixpoint observation_loop (g : nat -> float) (clock : nat -> string)
    (n step pos : nat) (current : vec) (out : list string)
    (sentinel : LioraSentinel.t)
  : result LioraSentinel.t * list string :=
  match n with
  | O => (Ok sentinel, out)
  | S n' =>
      let noise := rng_normal g pos (List.length current) in
      let factor := if (step <? 6)%nat then 0.3%float else 0.9%float in
      match normalize (perturb current factor noise) with
      | Raise e => (Raise e, out)
      | Ok current' =>
          match LioraSentinel.observe current' (PyInt (Z.of_nat step))
                  (clock (step - 1)%nat) sentinel with
          | (Raise e, _) => (Raise e, out)
          | (Ok (ok, _, _), sentinel') =>
              observation_loop g clock n' (S step)
                (pos + List.length current)%nat current'
                (if ok then out else out ++ [drift_notice]) sentinel'
          end
      end
  end.

(** <<
    def simulate_semantic_entropy(tii_origin, steps=10):
        sentinel = LioraSentinel(origin_tii=tii_origin, threshold=0.15,
                                 window_size=5)
        current = normalize(tii_origin).copy()
        rng = np.random.default_rng(42)
        print("\n--- STARTING LIORA OBSERVATION LOOP ---\n")
        for t in range(1, steps + 1): ...
        sentinel.export_report()
        print("\n--- END OBSERVATION ---")
    >>
    The result is the report written to [liora_report.json], with the
    lines printed. *)
Definition simulate_semantic_entropy (tii_origin : vec) (steps : Z)
    (g : nat -> float) (clock : nat -> string)
    (open_w : string -> result unit)
  : result json * list string :=
  match LioraSentinel.__init__ tii_origin 0.15%float 5 with
  | Raise e => (Raise e, [])
  | Ok sentinel =>
      match normalize tii_origin with
      | Raise e => (Raise e, [])
      | Ok current =>
          match observation_loop g clock (Z.to_nat steps) 1 0 current
                  [start_banner] sentinel with
          | (Raise e, out) => (Raise e, out)
          | (Ok sentinel', out) =>
              match LioraSentinel.export_report sentinel' "liora_report.json"
                      (clock (Z.to_nat steps)) open_w with
              | Raise e => (Raise e, out)
              | Ok doc => (Ok doc, out ++ [end_banner])
              end
          end
      end
  end.

(** The example identity vector of [main]. *)
Definition TII_ORIGIN : vec := [0.85; 0.90; 0.40; 0.99]%float.

Definition guidance : string :=
  "Run with --demo to execute the LIORA simulation.".

(** <<
    def main():
        args = parser.parse_args()
        if args.demo:
            simulate_semantic_entropy(TII_ORIGIN, steps=12)
        else:
            print("Run with --demo to execute the LIORA simulation.")
    >>
    [demo] is the flag as parsed; the result is the report written, if
    any, with the lines printed. *)
Definition main (demo : bool) (g : nat -> float) (clock : nat -> string)
    (open_w : string -> result unit)
  : result (option json) * list string :=
  if demo
  then
    let (r, out) := simulate_semantic_entropy TII_ORIGIN 12 g clock open_w in
    (result_map Some r, out)
  else (Ok None, [guidance]).

(* ================================================================== *)
(** * Properties *)
(* ================================================================== *)

Import LioraSentinel.

(** ** Vocabulary of the statements *)

(** The event [observe] builds from a drift and a window. *)
Definition event_of (self : t) (timestep_id : pyval) (now : string)
    (drift avg_drift : float) : Event.t :=
  let is_safe := PrimFloat.leb drift (threshold self) in
  Event.Make now timestep_id (py_round drift 6) (py_round avg_drift 6)
    (threshold self)
    (if is_safe then "COHERENT"%string else "DRIFT_ALERT"%string)
    (origin_hash self) (negb is_safe).

(** The step identifier and the clock reading of a call. *)
Definition call_id (c : vec * pyval * string) : pyval := snd (fst c).
Definition call_now (c : vec * pyval * string) : string := snd c.

(** What a caller reads of a call when it ignores the average. *)
Definition decision (r : result (bool * float * float)) : result (bool * float) :=
  result_map (fun x => (fst (fst x), snd (fst x))) r.

(** The sentinel of the specification's scenario, as the constructor
    leaves it: origin [[1, 0]], threshold 0.01, window of 5. *)
Definition demo_sentinel : t :=
  Make [1; 0]%float 0.01%float (stable_vector_hash [1; 0]%float) []
       (Deque 5 []).

(** The three observations of the scenario of the specification. *)
Definition demo_calls : list (vec * pyval * string) :=
  [ ([1; 0]%float, PyInt 1, "t1"%string);
    ([0; 1]%float, PyInt 2, "t2"%string);
    ([-1; 0]%float, PyNone, "t3"%string) ].

(** A vector has zero magnitude when its computed norm equals [0.0]. *)
Definition zero_magnitude (v : vec) : bool :=
  PrimFloat.eqb (np_linalg_norm v) 0.

(** The exception [normalize] raises. *)
Definition zero_vector_message : exn :=
  ValueError "Zero vector detected during normalization.".

(** A vector with a non-zero component. *)
Definition nonzero_vector (v : list R) : Prop := exists x, In x v /\ x <> 0%R.

(** The JSON object of an event, given that of its step identifier. *)
Definition event_json (e : Event.t) (step : json) : json :=
  JObject
    [ ("timestamp"%string, JString (Event.timestamp e));
      ("step_id"%string, step);
      ("drift_raw"%string, JReal (Event.drift_raw e));
      ("drift_avg"%string, JReal (Event.drift_avg e));
      ("threshold"%string, JReal (Event.threshold e));
      ("status"%string, JString (Event.status e));
      ("origin_hash"%string, JString (Event.origin_hash e));
      ("action_required"%string, JBool (Event.action_required e)) ].

(** Every string of [n] hexadecimal digits. *)
Fixpoint hex_strings (n : nat) : list string :=
  match n with
  | O => [EmptyString]
  | S n' => flat_map (fun c => map (String c) (hex_strings n')) hex_digits
  end.

(** Every list of [n] booleans. *)
Fixpoint bit_lists (n : nat) : list (list bool) :=
  match n with
  | O => [[]]
  | S n' => map (cons false) (bit_lists n') ++ map (cons true) (bit_lists n')
  end.

(** The vector of 0.0 and 1.0 a list of booleans spells. *)
Definition vec_of_bits (bs : list bool) : vec :=
  map (fun b : bool => if b then 1%float else 0%float) bs.

(** The number a little-endian byte string spells. *)
Fixpoint le_value (bs : list Byte.byte) : Z :=
  match bs with
  | [] => 0
  | b :: bs' => Z_of_byte b + 256 * le_value bs'
  end.

(** The place of a float in the order of the floats: its class (the
    infinities outermost, zero in the middle), then exponent and mantissa,
    negated for a negative float.  NaN has no place. *)
Definition sf_key (f : spec_float) : option (Z * Z * Z) :=
  match f with
  | S754_nan => None
  | S754_infinity s => Some (if s then (-2)%Z else 2%Z, 0%Z, 0%Z)
  | S754_zero _ => Some (0%Z, 0%Z, 0%Z)
  | S754_finite s m e =>
      Some (if s then ((-1)%Z, (- e)%Z, (- Zpos m)%Z) else (1%Z, e, Zpos m))
  end.

(** Lexicographic comparison of two keys. *)
Definition lex_compare (a b : Z * Z * Z) : comparison :=
  match (fst (fst a) ?= fst (fst b))%Z with
  | Eq =>
      match (snd (fst a) ?= snd (fst b))%Z with
      | Eq => (snd a ?= snd b)%Z
      | c => c
      end
  | c => c
  end.

(** The drifts the calls that returned have returned, in order. *)
Definition returned_drifts (rs : list (result (bool * float * float)))
  : list float :=
  flat_map (fun r => match r with
                     | Ok (_, drift, _) => [drift]
                     | Raise _ => []
                     end) rs.

(** The drift a call computes, if [normalize] and the distance return: the
    value that enters the window. *)
Definition computed_drift (origin : vec) (c : vec * pyval * string)
  : list float :=
  match normalize (fst (fst c)) with
  | Ok cur =>
      match cosine origin cur with
      | Ok drift => [drift]
      | Raise _ => []
      end
  | Raise _ => []
  end.

(** The drifts computed by successive calls, in order. *)
Definition computed_drifts (origin : vec) (calls : list (vec * pyval * string))
  : list float :=
  flat_map (computed_drift origin) calls.

(** The last [n] elements of a list (all of it when it is shorter). *)
Definition lastn {X} (n : nat) (l : list X) : list X :=
  skipn (List.length l - n) l.

(** The values [json.dump] writes: no object of another type and no int
    too long inside. *)
Fixpoint serialisable (v : pyval) : bool :=
  match v with
  | PyInt z => (Z.abs z <? 10 ^ int_max_str_digits)%Z
  | PyList l | PyTuple l => forallb serialisable l
  | PyDict items => forallb (fun kv => serialisable (snd kv)) items
  | PyObject _ _ _ => false
  | _ => true
  end.

(** A value with every tuple inside it, and itself, turned into a list. *)
Fixpoint tuples_to_lists (v : pyval) : pyval :=
  match v with
  | PyList l | PyTuple l => PyList (map tuples_to_lists l)
  | PyDict items =>
      PyDict (map (fun kv => match kv with
                             | (k, x) => (k, tuples_to_lists x)
                             end) items)
  | _ => v
  end.

(** The keys of a JSON object, in order. *)
Definition json_keys (j : json) : list string :=
  match j with
  | JObject members => map fst members
  | _ => []
  end.

(** The step identifiers of [n] iterations starting at [step]. *)
Definition step_ids (step n : nat) : list pyval :=
  map (fun t => PyInt (Z.of_nat t)) (seq step n).

(** What an event of the history of [self] carries. *)
Definition event_consistent (self : t) (e : Event.t) : Prop :=
  Event.threshold e = threshold self /\
  Event.origin_hash e = origin_hash self /\
  ((Event.status e = "COHERENT"%string /\ Event.action_required e = false) \/
   (Event.status e = "DRIFT_ALERT"%string /\ Event.action_required e = true)).

(** The exception [json.dump] raises. *)
Definition not_serializable : exn :=
  TypeError "Object is not JSON serializable".

(** The keys of an event, in the order written. *)
Definition event_keys : list string :=
  [ "timestamp"; "step_id"; "drift_raw"; "drift_avg"; "threshold"; "status";
    "origin_hash"; "action_required" ]%string.

(** The number of events of a report read back that ask for action. *)
Definition alert_flag (x : option pyval) : bool :=
  match x with
  | Some (PyBool true) => true
  | _ => false
  end.

Definition alert_events (evs : list pyval) : nat :=
  List.length
    (filter (fun ev => alert_flag (getitem ev "action_required")) evs).

(** The step identifiers of everyday use: [None], a bool, a float, a str,
    or an int short enough to be written as text. *)
Definition plain_id (v : pyval) : bool :=
  match v with
  | PyNone | PyBool _ | PyFloat _ | PyStr _ => true
  | PyInt z => (Z.abs z <? 10 ^ int_max_str_digits)%Z
  | _ => false
  end.

(** A file system where every file can be opened for writing, and one
    where none can. *)
Definition writable (filename : string) : result unit := Ok tt.

Definition read_only (filename : string) : result unit :=
  Raise (OSError "Read-only file system").

(** An object whose [__str__] raises; its [repr] is the default one. *)
Definition unprintable : pyval :=
  PyObject 0 (Raise (Exception "no text")) (Ok tt).

(** What a call of [observe] that has computed [drift] leaves in the
    sentinel [self']: origin, threshold and hash as they were in [self],
    one more event, with the step identifier of the call, and the drift
    after the values the window held, less the oldest one when the window
    was full. *)
Definition recorded (self self' : t) (id : pyval) (drift : float) : Prop :=
  origin_tii self' = origin_tii self /\
  threshold self' = threshold self /\
  origin_hash self' = origin_hash self /\
  (exists e, history self' = history self ++ [e] /\
             Event.step_id e = id) /\
  maxlen (recent_drifts self') = maxlen (recent_drifts self) /\
  ((List.length (items (recent_drifts self))
      < maxlen (recent_drifts self))%nat /\
     items (recent_drifts self')
       = items (recent_drifts self) ++ [drift] \/
   (maxlen (recent_drifts self)
      <= List.length (items (recent_drifts self)))%nat /\
     items (recent_drifts self')
       = tl (items (recent_drifts self) ++ [drift])).

(** The sentinel of the scenario with a window of capacity [n]. *)
Definition demo_window (n : nat) : t :=
  set_recent_drifts (fun _ => Deque n []) demo_sentinel.

(** A generator that always draws 0.01, and a clock that always reads
    ["t"]. *)
Definition demo_generator (k : nat) : float := 0.01%float.
Definition demo_clock (k : nat) : string := "t"%string.

(** The sentinel of the scenario with another threshold. *)
Definition demo_threshold (thr : float) : t :=
  Make [1; 0]%float thr (stable_vector_hash [1; 0]%float) [] (Deque 5 []).

(** *** The real value of a double *)

Section RealValue.

Local Open Scope R_scope.

(** Powers of two with an integer exponent. *)
Definition bpow (e : Z) : R := powerRZ 2 e.

(** The real number a finite float stands for (0 for the others). *)
Definition SF2R (x : spec_float) : R :=
  match x with
  | S754_finite s m e => (if s then -1 else 1) * (IZR (Zpos m) * bpow e)
  | _ => 0
  end.

(** The real number a float stands for (0 for NaN and the infinities). *)
Definition float_value (x : float) : R := SF2R (Prim2SF x).

(** One unit in the last place of a normal double, relative to it. *)
Definition eta : R := bpow (-52).

(** A mantissa of exactly 53 binary digits. *)
Definition normal_mantissa (m : positive) : Prop :=
  (2 ^ 52 <= Zpos m < 2 ^ 53)%Z.

(** A non-negative finite double of value [A]: +0.0, or a positive double
    that is not subnormal. *)
Definition nonneg_double (a : float) (A : R) : Prop :=
  (Prim2SF a = S754_zero false /\ A = 0) \/
  (exists m e, Prim2SF a = S754_finite false m e /\
               A = IZR (Zpos m) * bpow e /\ bpow (-1021) <= A).

(** A double whose square neither overflows nor underflows: a zero, or a
    finite double of magnitude between [2 ^ -510] and [2 ^ 510]. *)
Definition squarable (x : float) : Prop :=
  (exists s, Prim2SF x = S754_zero s) \/
  (exists s m e, Prim2SF x = S754_finite s m e /\
                 bpow (-510) <= IZR (Zpos m) * bpow e <= bpow 510).

(** The sum of the squares of the components, in exact arithmetic. *)
Fixpoint sum_squares (v : vec) : R :=
  match v with
  | [] => 0
  | x :: v' => float_value x * float_value x + sum_squares v'
  end.

(** A zero, or a finite double of magnitude in [[2 ^ -200, 2 ^ 200)]. *)
Definition in_range (x : float) : Prop :=
  (exists s, Prim2SF x = S754_zero s) \/
  (exists s m e, Prim2SF x = S754_finite s m e /\
                 bpow (-200) <= IZR (Zpos m) * bpow e < bpow 200).

End RealValue.

(** The same as a test on the sign, mantissa and exponent of the double:
    a finite double that is not subnormal has a mantissa of 53 digits, and
    magnitude in [[2 ^ (e + 52), 2 ^ (e + 53))] when its exponent is [e]. *)
Definition moderate (x : float) : bool :=
  match Prim2SF x with
  | S754_zero _ => true
  | S754_finite _ _ e => (-252 <=? e)%Z && (e <=? 147)%Z
  | _ => false
  end.

(** ** The library models on known values *)

(** The digests [hashlib.sha256] gives for [b""] and [b"abc"], and
    [stable_vector_hash] for [np.array([1.0, 0.0])]. *)
Example sha256_known_digests :
  hexdigest (SHA256.digest [])
    = "e3b0c44298fc1c149afbf4c8996fb92427ae41e4649b934ca495991b7852b855"%string /\
  hexdigest (SHA256.digest [Byte.x61; Byte.x62; Byte.x63])
    = "ba7816bf8f01cfea414140de5dae2223b00361a396177a9cb410ff61f20015ad"%string /\
  stable_vector_hash [1; 0]%float
    = "3239b05c38b825ebb79f103172438292a22a0951351a6b81be1df5d44776cc65"%string.
Proof. repeat split; vm_compute; reflexivity. Qed.

(** [round(x, 6)] as Python answers: a tie goes to the even digit, the
    sign of a negative number rounded to zero stays. *)
Example py_round_known_values :
  py_round 0.0078125 6 = 0.007812%float /\
  py_round 0.1234565 6 = 0.123456%float /\
  py_round 0.9999995 6 = 1%float /\
  py_round 1.00000001 6 = 1%float /\
  py_round (-2.5e-7) 6 = (-0)%float /\
  py_round 123456789.1234565 6 = 123456789.123456%float /\
  py_round nan 6 = nan.
Proof. repeat split; vm_compute; reflexivity. Qed.

(** [np.mean] of a window, and of an empty one.  Eight values are not
    added left to right: that sum of 0.1, ..., 0.8 divided by 8 is
    0.44999999999999996, and numpy answers 0.45. *)
Example np_mean_known_values :
  np_mean [0; 1; 2]%float = 1%float /\
  np_mean [0.25; 0.5]%float = 0.375%float /\
  np_mean [0]%float = 0%float /\
  PrimFloat.is_nan (np_mean []) = true /\
  np_mean [0.1; 0.2; 0.3; 0.4; 0.5; 0.6; 0.7; 0.8]%float = 0.45%float /\
  (fold_left PrimFloat.add [0.1; 0.2; 0.3; 0.4; 0.5; 0.6; 0.7; 0.8] 0 / 8
   = 0.44999999999999996)%float.
Proof. repeat split; vm_compute; reflexivity. Qed.

(** [deque(maxlen=2)] keeps the two newest values; [deque(maxlen=0)] keeps
    none. *)
Example deque_append_known_values :
  items (deque_append 3 (deque_append 2 (deque_append 1 (Deque 2 []))))
    = [2; 3]%float /\
  items (deque_append 1 (Deque 0 [])) = [].
Proof. split; reflexivity. Qed.

(** ** One call of [observe], step by step *)

(** [observe] raises what [normalize] or [cosine] raises, before it has
    touched the sentinel; otherwise the window and the history are given
    their new value, and the call returns unless formatting the step
    identifier for the log raises. *)
Lemma observe_unfold (v : vec) (id : pyval) (now : string) (self : t) :
  observe v id now self =
  match normalize v with
  | Raise e => (Raise e, self)
  | Ok cur =>
      match cosine (origin_tii self) cur with
      | Raise e => (Raise e, self)
      | Ok drift =>
          let recent := deque_append drift (recent_drifts self) in
          let avg := np_mean (items recent) in
          (result_map
             (fun _ => (PrimFloat.leb drift (threshold self), drift, avg))
             (py_format id),
           Make (origin_tii self) (threshold self) (origin_hash self)
                (history self ++ [event_of self id now drift avg]) recent)
      end
  end.
Proof.
  unfold observe, Method.bind, Method.call, Method.attr, Method.update,
    Method.ret, event_of.
  destruct (normalize v) as [cur|e]; [|reflexivity].
  destruct (cosine (origin_tii self) cur) as [drift|e]; [|reflexivity].
  cbn [set_recent_drifts set_history origin_tii threshold origin_hash
       history recent_drifts].
  destruct (PrimFloat.leb drift (threshold self));
    destruct (py_format id) as [[]|e]; reflexivity.
Qed.

(** What a returning call of [observe] did. *)
Lemma observe_ok_inv (v : vec) (id : pyval) (now : string) (self self' : t)
    (is_safe : bool) (drift avg : float) :
  observe v id now self = (Ok (is_safe, drift, avg), self') ->
  exists cur,
    normalize v = Ok cur /\
    cosine (origin_tii self) cur = Ok drift /\
    is_safe = PrimFloat.leb drift (threshold self) /\
    avg = np_mean (items (deque_append drift (recent_drifts self))) /\
    self' = Make (origin_tii self) (threshold self) (origin_hash self)
              (history self ++ [event_of self id now drift avg])
              (deque_append drift (recent_drifts self)).
Proof.
  rewrite observe_unfold.
  destruct (normalize v) as [cur|e]; [|discriminate].
  destruct (cosine (origin_tii self) cur) as [d|e] eqn:Hc; [|discriminate].
  cbv zeta. destruct (py_format id) as [[]|e]; [|discriminate].
  intros H. injection H as <- <- <- <-.
  exists cur. repeat split; solve [reflexivity | exact Hc].
Qed.

(** A returning call has formatted its step identifier. *)
Lemma observe_ok_format (v : vec) (id : pyval) (now : string)
    (self self' : t) (r : bool * float * float) :
  observe v id now self = (Ok r, self') -> py_format id = Ok tt.
Proof.
  rewrite observe_unfold.
  destruct (normalize v) as [cur|e]; [|discriminate].
  destruct (cosine (origin_tii self) cur) as [d|e]; [|discriminate].
  cbv zeta. destruct (py_format id) as [[]|e]; [reflexivity|discriminate].
Qed.

(** A call that raises has raised in [normalize] or in [cosine] and left
    the sentinel as it was, or has raised while formatting the step
    identifier, after it gave the window and the history their new
    value. *)
Lemma observe_raise_inv (v : vec) (id : pyval) (now : string) (self self' : t)
    (e : exn) :
  observe v id now self = (Raise e, self') ->
  (self' = self /\
   (normalize v = Raise e \/
    exists cur, normalize v = Ok cur /\
                cosine (origin_tii self) cur = Raise e)) \/
  (exists cur drift,
      normalize v = Ok cur /\
      cosine (origin_tii self) cur = Ok drift /\
      py_format id = Raise e /\
      self' = Make (origin_tii self) (threshold self) (origin_hash self)
                (history self
                 ++ [event_of self id now drift
                       (np_mean (items (deque_append drift
                                          (recent_drifts self))))])
                (deque_append drift (recent_drifts self))).
Proof.
  rewrite observe_unfold.
  destruct (normalize v) as [cur|e1] eqn:Hn.
  - destruct (cosine (origin_tii self) cur) as [d|e2] eqn:Hc; cbv zeta;
      intros H.
    + destruct (py_format id) as [[]|e3] eqn:Hf; [discriminate|].
      cbn [result_map result_bind] in H. injection H as He Hs.
      right. exists cur, d. rewrite <- He, <- Hs. auto.
    + injection H as He Hs. left. split; [now symmetry|].
      right. exists cur. rewrite <- He. auto.
  - intros H. injection H as He Hs. left. split; [now symmetry|].
    left. now rewrite He.
Qed.

(** ** C1: the decision rule *)

(** C1.  For every call of [observe] that returns, the returned [is_safe]
    is the comparison [drift <= threshold] of the returned drift with the
    sentinel's threshold; the event appended has status ["COHERENT"] when
    [is_safe] and ["DRIFT_ALERT"] otherwise, and its [action_required] is
    [not is_safe].  The window takes no part: on a sentinel whose window
    holds any other values [w], the same call returns the same [is_safe] and
    drift, and records the same status and flag. *)
Theorem observe_decision_rule :
  forall (v : vec) (id : pyval) (now : string) (self self' : t)
         (is_safe : bool) (drift avg : float),
    observe v id now self = (Ok (is_safe, drift, avg), self') ->
    is_safe = PrimFloat.leb drift (threshold self) /\
    (exists e,
        history self' = history self ++ [e] /\
        Event.status e =
          (if is_safe then "COHERENT"%string else "DRIFT_ALERT"%string) /\
        Event.action_required e = negb is_safe) /\
    (forall w : deque,
        exists avg' self'' e',
          observe v id now (set_recent_drifts (fun _ => w) self)
            = (Ok (is_safe, drift, avg'), self'') /\
          history self'' = history self ++ [e'] /\
          Event.status e' =
            (if is_safe then "COHERENT"%string else "DRIFT_ALERT"%string) /\
          Event.action_required e' = negb is_safe).
Proof.
  intros v id now self self' is_safe drift avg H.
  pose proof (observe_ok_format _ _ _ _ _ _ H) as Hf.
  apply observe_ok_inv in H as (cur & Hn & Hc & Hs & Ha & ->).
  split; [exact Hs|]. split.
  - eexists. split; [reflexivity|].
    unfold event_of. cbn. rewrite <- Hs. split; reflexivity.
  - intros w. rewrite observe_unfold. rewrite Hn.
    cbn [set_recent_drifts origin_tii threshold origin_hash history
         recent_drifts].
    rewrite Hc. cbv zeta. rewrite <- Hs, Hf. cbn [result_map result_bind].
    do 3 eexists. split; [reflexivity|].
    cbn [history]. split; [reflexivity|].
    unfold event_of. cbn. rewrite <- Hs. split; reflexivity.
Qed.

Lemma demo_sentinel_init :
  __init__ [1; 0]%float 0.01%float 5 = Ok demo_sentinel.
Proof. vm_compute. reflexivity. Qed.

Lemma observe_decision_rule_witness :
  observe [0; 1]%float (PyInt 2) "t2" demo_sentinel
    = (Ok (false, 1%float, 1%float),
       snd (observe [0; 1]%float (PyInt 2) "t2" demo_sentinel)) /\
  false = PrimFloat.leb 1 (threshold demo_sentinel) /\
  (exists e,
      history (snd (observe [0; 1]%float (PyInt 2) "t2" demo_sentinel))
        = history demo_sentinel ++ [e] /\
      Event.status e = "DRIFT_ALERT"%string /\
      Event.action_required e = negb false).
Proof.
  assert (H : observe [0; 1]%float (PyInt 2) "t2" demo_sentinel
              = (Ok (false, 1%float, 1%float),
                 snd (observe [0; 1]%float (PyInt 2) "t2" demo_sentinel)))
    by (vm_compute; reflexivity).
  split; [exact H|].
  destruct (observe_decision_rule _ _ _ _ _ _ _ _ H) as (H1 & H2 & _).
  split; [exact H1 | exact H2].
Defined.

(** ** The constructor *)

Lemma init_ok_inv (origin : vec) (thr : float) (w : Z) (self : t) :
  __init__ origin thr w = Ok self ->
  exists unit_origin,
    normalize origin = Ok unit_origin /\
    (0 <= w)%Z /\
    self = Make unit_origin thr (stable_vector_hash unit_origin) []
             (Deque (Z.to_nat w) []).
Proof.
  unfold __init__, result_bind, deque_new.
  destruct (normalize origin) as [o|e]; [|discriminate].
  destruct ((w <? - 2 ^ 63) || (2 ^ 63 <=? w))%Z; [discriminate|].
  destruct (Z.ltb_spec w 0) as [Hneg|Hpos]; [discriminate|].
  intros H. injection H as <-. exists o. repeat split. assumption.
Qed.

(** ** Successive calls *)

(** [observe] never changes the origin, the threshold or the hash, and
    only ever extends the history. *)
Lemma observe_frame (v : vec) (id : pyval) (now : string) (self : t) :
  let self' := snd (observe v id now self) in
  origin_tii self' = origin_tii self /\
  threshold self' = threshold self /\
  origin_hash self' = origin_hash self /\
  maxlen (recent_drifts self') = maxlen (recent_drifts self) /\
  exists es, history self' = history self ++ es.
Proof.
  cbv zeta. rewrite observe_unfold.
  destruct (normalize v) as [cur|e].
  - destruct (cosine (origin_tii self) cur) as [d|e]; cbn.
    + repeat split. eexists. reflexivity.
    + repeat split. exists []. now rewrite app_nil_r.
  - cbn. repeat split. exists []. now rewrite app_nil_r.
Qed.

Lemma observe_each_frame (calls : list (vec * pyval * string)) :
  forall self,
    let self' := snd (observe_each calls self) in
    origin_tii self' = origin_tii self /\
    threshold self' = threshold self /\
    origin_hash self' = origin_hash self /\
    maxlen (recent_drifts self') = maxlen (recent_drifts self) /\
    exists es, history self' = history self ++ es.
Proof.
  induction calls as [|[[v id] now] rest IH]; intros self; cbv zeta.
  - cbn. repeat split. exists []. now rewrite app_nil_r.
  - cbn [observe_each].
    pose proof (observe_frame v id now self) as Hf. cbv zeta in Hf.
    destruct (observe v id now self) as [r s1].
    specialize (IH s1). cbv zeta in IH.
    destruct (observe_each rest s1) as [rs s2].
    cbn [snd] in *.
    destruct Hf as (Ho & Ht & Hh & Hm & es1 & He1).
    destruct IH as (Ho' & Ht' & Hh' & Hm' & es2 & He2).
    repeat split; try congruence.
    exists (es1 ++ es2). rewrite He2, He1. now rewrite app_assoc.
Qed.

(** When every call returned, the events added are one per call, with the
    step identifiers and clock readings of the calls, in their order. *)
Lemma observe_each_all_ok (calls : list (vec * pyval * string)) :
  forall self rs self',
    observe_each calls self = (rs, self') ->
    forallb is_ok rs = true ->
    exists es,
      history self' = history self ++ es /\
      List.length es = List.length calls /\
      map Event.step_id es = map call_id calls /\
      map Event.timestamp es = map call_now calls.
Proof.
  induction calls as [|[[v id] now] rest IH]; intros self rs self' Hrun Hok.
  - cbn in Hrun. injection Hrun as <- <-.
    exists []. rewrite app_nil_r. repeat split.
  - cbn [observe_each] in Hrun.
    destruct (observe v id now self) as [r s1] eqn:Hobs.
    destruct (observe_each rest s1) as [rs1 s2] eqn:Hrest.
    injection Hrun as <- <-.
    cbn [forallb] in Hok. apply andb_true_iff in Hok as [Hr Hrs].
    destruct r as [[[safe drift] avg]|e]; [|discriminate].
    apply observe_ok_inv in Hobs as (cur & _ & _ & _ & _ & ->).
    destruct (IH _ _ _ Hrest Hrs) as (es & He & Hlen & Hids & Hnows).
    cbn [history] in He.
    exists (event_of self id now drift avg :: es).
    split; [rewrite He, <- app_assoc; reflexivity|].
    cbn [map List.length]. rewrite Hlen, Hids, Hnows.
    repeat split.
Qed.

(** ** C8: the audit trail *)

(** C8.  On a sentinel fresh from its constructor, after [N] calls of
    [observe] that all returned, the history holds exactly [N] events, and
    they carry the step identifiers and the clock readings of the calls in
    the order of the calls.  Whatever calls follow, returning or raising,
    the history they leave starts with the history as it was: no event is
    changed or removed.  ([export_report] returns a document and no
    sentinel: it has nothing to change.) *)
Theorem audit_trail_one_event_per_call :
  forall (origin : vec) (thr : float) (w : Z) (fresh self : t)
         (calls : list (vec * pyval * string))
         (rs : list (result (bool * float * float))),
    __init__ origin thr w = Ok fresh ->
    observe_each calls fresh = (rs, self) ->
    forallb is_ok rs = true ->
    List.length (history self) = List.length calls /\
    map Event.step_id (history self) = map call_id calls /\
    map Event.timestamp (history self) = map call_now calls /\
    (forall more,
        exists es, history (snd (observe_each more self)) = history self ++ es).
Proof.
  intros origin thr w fresh self calls rs Hinit Hrun Hok.
  apply init_ok_inv in Hinit as (o & _ & _ & ->).
  destruct (observe_each_all_ok calls _ _ _ Hrun Hok)
    as (es & He & Hlen & Hids & Hnows).
  cbn [history app] in He. rewrite He.
  repeat split; try assumption.
  intros more. rewrite <- He.
  apply (observe_each_frame more self).
Qed.

Lemma audit_trail_one_event_per_call_witness :
  (__init__ [1; 0]%float 0.01%float 5 = Ok demo_sentinel /\
   observe_each demo_calls demo_sentinel
     = ([Ok (true, 0%float, 0%float); Ok (false, 1%float, 0.5%float);
         Ok (false, 2%float, 1%float)],
        snd (observe_each demo_calls demo_sentinel))) /\
  List.length (history (snd (observe_each demo_calls demo_sentinel))) = 3%nat /\
  map Event.step_id (history (snd (observe_each demo_calls demo_sentinel)))
    = [PyInt 1; PyInt 2; PyNone].
Proof.
  assert (Hrun : observe_each demo_calls demo_sentinel
     = ([Ok (true, 0%float, 0%float); Ok (false, 1%float, 0.5%float);
         Ok (false, 2%float, 1%float)],
        snd (observe_each demo_calls demo_sentinel)))
    by (vm_compute; reflexivity).
  split; [split; [exact demo_sentinel_init | exact Hrun]|].
  destruct (audit_trail_one_event_per_call _ _ _ _ _ _ _
              demo_sentinel_init Hrun eq_refl) as (Hlen & Hids & _).
  split; [exact Hlen | exact Hids].
Defined.

(** ** C6: all or nothing *)

Lemma plain_id_format (id : pyval) : plain_id id = true -> py_format id = Ok tt.
Proof.
  destruct id; try discriminate; try reflexivity.
  cbn [plain_id py_format py_repr]. unfold int_repr. intros H.
  apply Z.ltb_lt in H.
  destruct (Z.leb_spec (10 ^ int_max_str_digits) (Z.abs z)) as [Hle|Hlt];
    [|reflexivity].
  exfalso. apply (Z.lt_irrefl (Z.abs z)).
  exact (Z.lt_le_trans _ _ _ H Hle).
Qed.

(** What [deque_append] leaves in the window. *)
Lemma deque_append_items (x : float) (d : deque) :
  (List.length (items d) < maxlen d)%nat /\
    items (deque_append x d) = items d ++ [x] \/
  (maxlen d <= List.length (items d))%nat /\
    items (deque_append x d) = tl (items d ++ [x]).
Proof.
  unfold deque_append. cbn [items].
  rewrite length_app. cbn [List.length].
  destruct (Nat.ltb_spec (maxlen d) (List.length (items d) + 1)) as [H|H].
  - right. split; [lia | reflexivity].
  - left. split; [lia | reflexivity].
Qed.

(** C6, as stated, fails: [observe] formats the step identifier for the
    log after it has appended to the window and to the history.  With an
    identifier whose [__str__] raises, the call raises and leaves one
    more event in the history and one more value in the window. *)
Lemma observe_atomic_counterexample :
  ~ (forall (v : vec) (id : pyval) (now : string) (self self' : t)
            (e : exn),
        observe v id now self = (Raise e, self') -> self' = self).
Proof.
  intros Hatomic.
  specialize (Hatomic [0; 1]%float unprintable "t"%string demo_sentinel
                (snd (observe [0; 1]%float unprintable "t" demo_sentinel))
                (Exception "no text") ltac:(vm_compute; reflexivity)).
  apply (f_equal (fun s => List.length (history s))) in Hatomic.
  vm_compute in Hatomic. discriminate.
Qed.

(** C6.  A call of [observe] that returns leaves origin, threshold and
    hash as they were, the history longer by exactly one event, and the
    window with the drift added after the values it held, less the oldest
    one when the window was full (so a window of size 0 stays empty).  A
    call that raises in [normalize] or in the distance leaves the sentinel
    exactly as it was.  A call that raises otherwise raises what
    formatting the step identifier raises, and has made the changes of a
    returning call.  With a step identifier that is [None], a bool, a
    float, a str or an int short enough to be written, a call that raises
    leaves the sentinel exactly as it was. *)
Theorem observe_all_or_nothing :
  forall (v : vec) (id : pyval) (now : string) (self self' : t)
         (r : result (bool * float * float)),
    observe v id now self = (r, self') ->
    match r with
    | Ok (_, drift, _) => recorded self self' id drift
    | Raise e =>
        (self' = self /\
         (normalize v = Raise e \/
          exists cur, normalize v = Ok cur /\
                      cosine (origin_tii self) cur = Raise e)) \/
        (py_format id = Raise e /\ exists drift, recorded self self' id drift)
    end /\
    (plain_id id = true -> is_ok r = false -> self' = self).
Proof.
  intros v id now self self' r H.
  assert (Hrecorded : forall drift avg,
    self' = Make (origin_tii self) (threshold self) (origin_hash self)
              (history self ++ [event_of self id now drift avg])
              (deque_append drift (recent_drifts self)) ->
    recorded self self' id drift).
  { intros drift avg ->. unfold recorded.
    cbn [origin_tii threshold origin_hash history recent_drifts].
    repeat (split; [reflexivity|]).
    split; [eexists; split; reflexivity|].
    split; [reflexivity|]. apply deque_append_items. }
  destruct r as [[[safe drift] avg]|e].
  - split; [|discriminate].
    apply observe_ok_inv in H as (cur & _ & _ & _ & _ & Hs).
    exact (Hrecorded _ _ Hs).
  - apply observe_raise_inv in H
      as [[Hs Hwhere] | (cur & drift & Hn & Hc & Hf & Hs)].
    + split; [left; split; assumption | intros _ _; exact Hs].
    + split.
      * right. split; [exact Hf|]. exists drift. exact (Hrecorded _ _ Hs).
      * intros Hplain _. apply plain_id_format in Hplain.
        rewrite Hplain in Hf. discriminate.
Qed.

Lemma observe_all_or_nothing_witness :
  (plain_id PyNone = true /\
   is_ok (fst (observe [0; 0]%float PyNone "t" demo_sentinel)) = false) /\
  snd (observe [0; 0]%float PyNone "t" demo_sentinel) = demo_sentinel.
Proof.
  split; [split; reflexivity|].
  exact (proj2 (observe_all_or_nothing [0; 0]%float PyNone "t" demo_sentinel
                  (snd (observe [0; 0]%float PyNone "t" demo_sentinel))
                  (fst (observe [0; 0]%float PyNone "t" demo_sentinel))
                  (surjective_pairing _))
           eq_refl eq_refl).
Defined.

(** ** C5: the window size does not reach the decision *)

Lemma observe_each_decisions (calls : list (vec * pyval * string)) :
  forall s1 s2,
    origin_tii s1 = origin_tii s2 ->
    threshold s1 = threshold s2 ->
    map decision (fst (observe_each calls s1))
      = map decision (fst (observe_each calls s2)).
Proof.
  induction calls as [|[[v id] now] rest IH]; intros s1 s2 Ho Ht.
  - reflexivity.
  - cbn [observe_each].
    pose proof (observe_frame v id now s1) as F1.
    pose proof (observe_frame v id now s2) as F2.
    cbv zeta in F1, F2.
    assert (Hd : decision (fst (observe v id now s1))
                 = decision (fst (observe v id now s2))).
    { rewrite !observe_unfold, <- Ho, <- Ht.
      destruct (normalize v) as [cur|e]; [|reflexivity].
      destruct (cosine (origin_tii s1) cur) as [d|e]; [|reflexivity].
      cbv zeta. cbn [fst].
      destruct (py_format id) as [[]|e]; reflexivity. }
    destruct (observe v id now s1) as [r1 s1'].
    destruct (observe v id now s2) as [r2 s2'].
    cbn [fst snd] in *.
    destruct F1 as (Ho1 & Ht1 & _). destruct F2 as (Ho2 & Ht2 & _).
    assert (IH' := IH s1' s2' ltac:(congruence) ltac:(congruence)).
    destruct (observe_each rest s1') as [rs1 t1].
    destruct (observe_each rest s2') as [rs2 t2].
    cbn [fst map] in *. now rewrite Hd, IH'.
Qed.

(** C5.  Two sentinels constructed from the same origin and threshold with
    window sizes [w1] and [w2], given the same calls of [observe], return at
    every call the same [is_safe] and the same drift, or raise the same
    exception.  The averages they return can differ: with windows of 1 and
    of 2 the second call of [demo_calls] returns 1 and 0.5. *)
Theorem window_size_never_reaches_decision :
  (forall (origin : vec) (thr : float) (w1 w2 : Z) (s1 s2 : t)
          (calls : list (vec * pyval * string)),
      __init__ origin thr w1 = Ok s1 ->
      __init__ origin thr w2 = Ok s2 ->
      map decision (fst (observe_each calls s1))
        = map decision (fst (observe_each calls s2))) /\
  (exists s1 s2,
      __init__ [1; 0]%float 0.01%float 1 = Ok s1 /\
      __init__ [1; 0]%float 0.01%float 2 = Ok s2 /\
      nth 1 (fst (observe_each demo_calls s1)) (Raise (ValueError ""))
        = Ok (false, 1%float, 1%float) /\
      nth 1 (fst (observe_each demo_calls s2)) (Raise (ValueError ""))
        = Ok (false, 1%float, 0.5%float)).
Proof.
  split.
  - intros origin thr w1 w2 s1 s2 calls H1 H2.
    apply init_ok_inv in H1 as (o1 & Hn1 & _ & ->).
    apply init_ok_inv in H2 as (o2 & Hn2 & _ & ->).
    apply observe_each_decisions; cbn; congruence.
  - do 2 eexists. split; [vm_compute; reflexivity|].
    split; [vm_compute; reflexivity|].
    split; vm_compute; reflexivity.
Qed.

Lemma window_size_never_reaches_decision_witness :
  __init__ [1; 0]%float 0.01%float 5 = Ok demo_sentinel /\
  __init__ [1; 0]%float 0.01%float 1
    = Ok (set_recent_drifts (fun _ => Deque 1 []) demo_sentinel) /\
  map decision (fst (observe_each demo_calls demo_sentinel))
    = map decision
        (fst (observe_each demo_calls
                (set_recent_drifts (fun _ => Deque 1 []) demo_sentinel))).
Proof.
  assert (H1 : __init__ [1; 0]%float 0.01%float 1
    = Ok (set_recent_drifts (fun _ => Deque 1 []) demo_sentinel))
    by (vm_compute; reflexivity).
  split; [exact demo_sentinel_init|]. split; [exact H1|].
  exact (proj1 window_size_never_reaches_decision _ _ _ _ _ _ demo_calls
           demo_sentinel_init H1).
Defined.

(** ** Facts on binary64 comparisons *)

Lemma float_ltb_leb (x y : float) :
  PrimFloat.ltb x y = true -> PrimFloat.leb x y = true.
Proof.
  rewrite ltb_spec, leb_spec. unfold SFltb, SFleb.
  destruct (SFcompare (Prim2SF x) (Prim2SF y)) as [[]|]; congruence.
Qed.

(** The floats equal to [0.0] are the two zeros. *)
Lemma float_eqb_zero (x : float) :
  PrimFloat.eqb x 0 = true -> x = 0%float \/ x = (-0)%float.
Proof.
  rewrite eqb_spec.
  change (Prim2SF 0) with (S754_zero false).
  intros H. rewrite <- (SF2Prim_Prim2SF x).
  destruct (Prim2SF x) as [s| s | |s m e]; cbn in H.
  - destruct s; [right | left]; reflexivity.
  - destruct s; discriminate.
  - discriminate.
  - destruct s; discriminate.
Qed.

(** ** C3: the zero vector *)

Lemma sum_products_zeros (v : vec) :
  forallb (fun x => PrimFloat.eqb x 0) v = true ->
  sum_products 0%float v v = 0%float.
Proof.
  induction v as [|x v IH]; intros H; [reflexivity|].
  cbn [forallb] in H. apply andb_true_iff in H as [Hx Hv].
  cbn [sum_products].
  replace (fadd 0%float (fmul x x)) with 0%float; [exact (IH Hv)|].
  destruct (float_eqb_zero x Hx) as [-> | ->]; reflexivity.
Qed.

(** C3.  A vector whose components all equal [0.0] has zero magnitude, and
    normalizing a vector of zero magnitude raises the [ValueError] of
    [normalize] and returns nothing.  The constructor given such an origin
    raises the same exception, whatever the threshold and the window size;
    [observe] given such a vector raises it too, the sentinel untouched. *)
Theorem zero_vector_always_raises :
  (forall v : vec,
      forallb (fun x => PrimFloat.eqb x 0) v = true ->
      zero_magnitude v = true) /\
  (forall v : vec,
      zero_magnitude v = true ->
      normalize v = Raise zero_vector_message /\
      (forall thr w, __init__ v thr w = Raise zero_vector_message) /\
      (forall id now self,
          observe v id now self = (Raise zero_vector_message, self))).
Proof.
  split.
  - intros v Hz. unfold zero_magnitude, np_linalg_norm.
    cbn [fzero fsqrt binary64].
    rewrite (sum_products_zeros v Hz). reflexivity.
  - intros v Hz.
    assert (Hn : normalize v = Raise zero_vector_message).
    { unfold normalize. cbn [feqb fzero binary64].
      unfold zero_magnitude in Hz. rewrite Hz. reflexivity. }
    split; [exact Hn|]. split.
    + intros thr w. unfold __init__. rewrite Hn. reflexivity.
    + intros id now self. rewrite observe_unfold, Hn. reflexivity.
Qed.

Lemma zero_vector_always_raises_witness :
  zero_magnitude [0; 0]%float = true /\
  normalize [0; 0]%float = Raise zero_vector_message /\
  __init__ [0; 0]%float 0.15%float 5 = Raise zero_vector_message /\
  observe [0; 0]%float PyNone "t" demo_sentinel
    = (Raise zero_vector_message, demo_sentinel).
Proof.
  assert (Hz : zero_magnitude [0; 0]%float = true)
    by exact (proj1 zero_vector_always_raises [0; 0]%float eq_refl).
  destruct (proj2 zero_vector_always_raises [0; 0]%float Hz)
    as (Hn & Hi & Ho).
  split; [exact Hz|]. split; [exact Hn|].
  split; [apply Hi | apply Ho].
Defined.

(** ** C10: the recorded drift is the rounded one *)


(** ** The numeric kernel in exact arithmetic *)

Section ExactKernel.

Local Open Scope R_scope.

Lemma sum_products_acc (u v : list R) (acc : R) :
  sum_products acc u v = acc + sum_products 0 u v.
Proof.
  revert v acc. induction u as [|x u IH]; intros [|y v] acc;
    cbn [sum_products fadd fmul exact]; try lra.
  rewrite (IH v (acc + x * y)), (IH v (0 + x * y)). lra.
Qed.

Lemma sum_products_cons (x y : R) (u v : list R) :
  sum_products 0 (x :: u) (y :: v) = x * y + sum_products 0 u v.
Proof.
  cbn [sum_products fadd fmul exact]. rewrite sum_products_acc. lra.
Qed.

Lemma sum_squares_nonneg (v : list R) : 0 <= sum_products 0 v v.
Proof.
  induction v as [|x v IH]; [cbn; lra|].
  rewrite sum_products_cons. nra.
Qed.

Lemma sum_squares_pos (v : list R) :
  nonzero_vector v -> 0 < sum_products 0 v v.
Proof.
  intros (x & Hin & Hx). induction v as [|y v IH]; [destruct Hin|].
  rewrite sum_products_cons.
  pose proof (sum_squares_nonneg v) as Hv.
  destruct Hin as [-> | Hin].
  - assert (0 < x * x) by nra. lra.
  - specialize (IH Hin). nra.
Qed.

Lemma sum_products_scaled (a b : R) (u v : list R) :
  a <> 0 -> b <> 0 ->
  sum_products 0 (map (fun x => x / a) u) (map (fun x => x / b) v)
    = sum_products 0 u v / (a * b).
Proof.
  intros Ha Hb. revert v. induction u as [|x u IH]; intros [|y v];
    cbn [map]; try (cbn; field; split; assumption).
  rewrite !sum_products_cons, IH. field. split; assumption.
Qed.

(** Cauchy-Schwarz in the form the distance needs. *)
Lemma sum_products_bound (u v : list R) :
  List.length u = List.length v ->
  2 * sum_products 0 u v <= sum_products 0 u u + sum_products 0 v v /\
  - (sum_products 0 u u + sum_products 0 v v) <= 2 * sum_products 0 u v.
Proof.
  revert v. induction u as [|x u IH]; intros [|y v] Hlen;
    try discriminate; [cbn; lra|].
  injection Hlen as Hlen. destruct (IH v Hlen) as [IH1 IH2].
  rewrite !sum_products_cons.
  pose proof (Rle_0_sqr (x - y)) as Hm. pose proof (Rle_0_sqr (x + y)) as Hp.
  unfold Rsqr in Hm, Hp. split; lra.
Qed.

(** In exact arithmetic [normalize] accepts every vector with a non-zero
    component, divides it by its (positive) norm, and returns a vector of
    norm exactly 1. *)
Lemma normalize_exact (v : list R) :
  nonzero_vector v ->
  0 < np_linalg_norm v /\
  normalize v = Ok (map (fun x => x / np_linalg_norm v) v) /\
  sum_products 0 (map (fun x => x / np_linalg_norm v) v)
                 (map (fun x => x / np_linalg_norm v) v) = 1 /\
  np_linalg_norm (map (fun x => x / np_linalg_norm v) v) = 1.
Proof.
  intros Hnz. pose proof (sum_squares_pos v Hnz) as Hpos.
  assert (Hn : 0 < np_linalg_norm v).
  { unfold np_linalg_norm. cbn [fsqrt fzero exact]. now apply sqrt_lt_R0. }
  assert (Hsq : np_linalg_norm v * np_linalg_norm v = sum_products 0 v v).
  { unfold np_linalg_norm. cbn [fsqrt fzero exact]. apply sqrt_sqrt. lra. }
  assert (Hunit : sum_products 0 (map (fun x => x / np_linalg_norm v) v)
                    (map (fun x => x / np_linalg_norm v) v) = 1).
  { rewrite sum_products_scaled by lra. rewrite Hsq. field. lra. }
  split; [exact Hn|]. split; [|split; [exact Hunit|]].
  - unfold normalize. cbn [feqb fzero fdiv exact].
    destruct (Req_dec_T (np_linalg_norm v) 0) as [E|_]; [lra | reflexivity].
  - unfold np_linalg_norm at 1. cbn [fsqrt fzero exact].
    rewrite Hunit. apply sqrt_1.
Qed.

(** [np.clip] leaves a real number of the interval alone. *)
Lemma np_clip_exact (x lo hi : R) :
  lo <= x <= hi -> np_clip x lo hi = x.
Proof.
  intros [Hlo Hhi]. unfold np_clip, clip_min, clip_max.
  cbn [fisnan fltb exact].
  destruct (Rlt_dec lo x) as [H1|H1].
  - destruct (Rlt_dec x hi) as [H2|H2]; lra.
  - assert (x = lo) by lra. subst x.
    destruct (Rlt_dec lo hi) as [H2|H2]; lra.
Qed.

(** In exact arithmetic the cosine distance of two unit vectors of the same
    length is 1 minus their dot product, a number of [0, 2]. *)
Lemma cosine_exact_unit (u v : list R) :
  List.length u = List.length v ->
  sum_products 0 u u = 1 ->
  sum_products 0 v v = 1 ->
  cosine u v = Ok (1 - sum_products 0 u v) /\
  0 <= 1 - sum_products 0 u v <= 2.
Proof.
  intros Hlen Hu Hv.
  pose proof (sum_products_bound u v Hlen) as [Hle Hge].
  rewrite Hu, Hv in Hle, Hge.
  assert (Hrange : 0 <= 1 - sum_products 0 u v <= 2) by lra.
  split; [|exact Hrange].
  unfold cosine, np_dot. rewrite Hlen, !Nat.eqb_refl.
  cbn [result_bind fzero fone ftwo fsub fdiv fmul fsqrt exact].
  rewrite Hu, Hv. rewrite Rmult_1_r, sqrt_1.
  replace (sum_products 0 u v / 1) with (sum_products 0 u v) by field.
  now rewrite np_clip_exact.
Qed.

End ExactKernel.

(** ** C2: the drift *)

(** [np.clip(x, 0.0, 2.0)] in binary64 is NaN or a float of [0, 2]. *)
Lemma np_clip_range (x : float) :
  PrimFloat.is_nan (np_clip x 0%float 2%float) = true \/
  (PrimFloat.leb 0%float (np_clip x 0%float 2%float) = true /\
   PrimFloat.leb (np_clip x 0%float 2%float) 2%float = true).
Proof.
  unfold np_clip, clip_min, clip_max. cbn [fisnan fltb binary64].
  destruct (PrimFloat.is_nan x) eqn:Hnan.
  - rewrite Hnan. now left.
  - right. destruct (PrimFloat.ltb 0%float x) eqn:Hlo.
    + rewrite Hnan. destruct (PrimFloat.ltb x 2%float) eqn:Hhi.
      * split; now apply float_ltb_leb.
      * split; reflexivity.
    + split; reflexivity.
Qed.

(** What a returning call of [cosine] computed. *)
Lemma cosine_ok_inv (u v : vec) (d : float) :
  cosine u v = Ok d ->
  List.length u = List.length v /\
  d = np_clip
        (1 - sum_products 0%float u v
             / PrimFloat.sqrt (sum_products 0%float u u
                               * sum_products 0%float v v))%float
        0%float 2%float.
Proof.
  unfold cosine, np_dot. rewrite !Nat.eqb_refl.
  destruct (Nat.eqb_spec (List.length u) (List.length v)) as [Hlen|Hlen];
    [|discriminate].
  cbn [result_bind]. intros H. injection H as <-. split; [exact Hlen|].
  reflexivity.
Qed.

(** C2, as stated, fails in binary64.  On a sentinel of origin [[1.0]],
    observing the non-zero vector [[1e200]] returns: the square of 1e200
    overflows, the vector is normalized to [[0.0]], and the drift is NaN.
    It is not in [0, 2], and it is not 1 minus the dot product of the two
    normalized vectors, which is 1. *)
Lemma drift_range_counterexample :
  exists self,
    __init__ [1%float] 0.01%float 5 = Ok self /\
    origin_tii self = [1%float] /\
    normalize [1e200]%float = Ok [0%float] /\
    fst (observe [1e200]%float PyNone "t" self)
      = Ok (false, nan, nan) /\
    PrimFloat.leb 0%float nan = false /\
    PrimFloat.leb nan 2%float = false /\
    (1 - sum_products 0 [1] [0])%float = 1%float /\
    PrimFloat.eqb nan 1%float = false.
Proof.
  eexists. split; [vm_compute; reflexivity|].
  repeat split; vm_compute; reflexivity.
Qed.

(** C2, amended.  In binary64, the drift a call of [observe] returns is
    [clip(1 - uv / sqrt(uu * vv), 0, 2)], where [uv], [uu], [vv] are the
    dot products of the stored origin and the normalized observed vector
    (of the same length); it is NaN or lies in [0, 2].  In the scenario of
    origin [[1, 0]] and threshold 0.01, observing [[1, 0]], [[0, 1]] and
    [[-1, 0]] returns drifts exactly 0, 1 and 2 with safe true, false and
    false.  In exact arithmetic, for an origin and an observed vector of
    the same length, each with a non-zero component, the distance of the
    two normalized vectors is 1 minus their dot product and lies in
    [0, 2]. *)
Theorem drift_is_clipped_cosine_distance :
  (forall (v : vec) (id : pyval) (now : string) (self self' : t)
          (is_safe : bool) (drift avg : float),
      observe v id now self = (Ok (is_safe, drift, avg), self') ->
      exists cur,
        normalize v = Ok cur /\
        List.length (origin_tii self) = List.length cur /\
        drift = np_clip
                  (1 - sum_products 0%float (origin_tii self) cur
                       / PrimFloat.sqrt
                           (sum_products 0%float (origin_tii self)
                                         (origin_tii self)
                            * sum_products 0%float cur cur))%float
                  0%float 2%float /\
        (PrimFloat.is_nan drift = true \/
         (PrimFloat.leb 0%float drift = true /\ PrimFloat.leb drift 2%float = true))) /\
  (__init__ [1; 0]%float 0.01%float 5 = Ok demo_sentinel /\
   map decision (fst (observe_each demo_calls demo_sentinel))
     = [Ok (true, 0%float); Ok (false, 1%float); Ok (false, 2%float)]) /\
  (forall origin v : list R,
      List.length origin = List.length v ->
      nonzero_vector origin ->
      nonzero_vector v ->
      exists unit_origin cur,
        normalize origin = Ok unit_origin /\
        normalize v = Ok cur /\
        cosine unit_origin cur
          = Ok (1 - sum_products 0%R unit_origin cur)%R /\
        (0 <= 1 - sum_products 0%R unit_origin cur <= 2)%R).
Proof.
  split; [|split].
  - intros v id now self self' is_safe drift avg H.
    apply observe_ok_inv in H as (cur & Hn & Hc & _).
    apply cosine_ok_inv in Hc as [Hlen Hd].
    exists cur. repeat split; try assumption.
    rewrite Hd. apply np_clip_range.
  - split; vm_compute; reflexivity.
  - intros origin v Hlen Ho Hv.
    destruct (normalize_exact origin Ho) as (_ & Hno & Huo & _).
    destruct (normalize_exact v Hv) as (_ & Hnv & Huv & _).
    do 2 eexists. split; [exact Hno|]. split; [exact Hnv|].
    apply cosine_exact_unit; try assumption.
    now rewrite !length_map.
Qed.

Lemma drift_is_clipped_cosine_distance_witness :
  observe [0; 1]%float (PyInt 2) "t2" demo_sentinel
    = (Ok (false, 1%float, 1%float),
       snd (observe [0; 1]%float (PyInt 2) "t2" demo_sentinel)) /\
  exists cur,
    normalize [0; 1]%float = Ok cur /\
    List.length (origin_tii demo_sentinel) = List.length cur /\
    (PrimFloat.is_nan 1%float = true \/
     (PrimFloat.leb 0%float 1%float = true /\ PrimFloat.leb 1%float 2%float = true)).
Proof.
  assert (H : observe [0; 1]%float (PyInt 2) "t2" demo_sentinel
              = (Ok (false, 1%float, 1%float),
                 snd (observe [0; 1]%float (PyInt 2) "t2" demo_sentinel)))
    by (vm_compute; reflexivity).
  split; [exact H|].
  destruct (proj1 drift_is_clipped_cosine_distance _ _ _ _ _ _ _ _ H)
    as (cur & Hn & Hlen & _ & Hrange).
  exists cur. repeat split; assumption.
Defined.

(** ** C7: the report read back *)

(** Induction on Python values, through the lists they contain. *)
Lemma pyval_nested_ind (P : pyval -> Prop) :
  P PyNone ->
  (forall b, P (PyBool b)) ->
  (forall z, P (PyInt z)) ->
  (forall x, P (PyFloat x)) ->
  (forall s, P (PyStr s)) ->
  (forall l, Forall P l -> P (PyList l)) ->
  (forall l, Forall P l -> P (PyTuple l)) ->
  (forall items, Forall (fun kv => P (snd kv)) items -> P (PyDict items)) ->
  (forall id on_format on_repr, P (PyObject id on_format on_repr)) ->
  forall v, P v.
Proof.
  intros HNone HBool HInt HFloat HStr HList HTuple HDict HObject.
  fix IH 1. intros [ |b|z|x|s|l|l|items|id on_format on_repr].
  - exact HNone.
  - apply HBool.
  - apply HInt.
  - apply HFloat.
  - apply HStr.
  - apply HList. induction l as [|y l IHl]; constructor; [apply IH | exact IHl].
  - apply HTuple. induction l as [|y l IHl]; constructor; [apply IH | exact IHl].
  - apply HDict. induction items as [|[k y] items IHl]; constructor;
      [apply IH | exact IHl].
  - apply HObject.
Qed.

(** An int short enough is written. *)
Lemma int_repr_short (z : Z) :
  (Z.abs z <? 10 ^ int_max_str_digits)%Z = true -> int_repr z = Ok tt.
Proof.
  unfold int_repr. intros H. apply Z.ltb_lt in H.
  destruct (Z.leb_spec (10 ^ int_max_str_digits) (Z.abs z)) as [Hle|Hlt];
    [|reflexivity].
  exfalso. apply (Z.lt_irrefl (Z.abs z)).
  exact (Z.lt_le_trans _ _ _ H Hle).
Qed.

(** A value of the types JSON has is written, and read back as it was. *)
Lemma json_native_round_trip (v : pyval) :
  json_native v = true ->
  exists j, json_encode v = Ok j /\ json_decode j = v.
Proof.
  induction v as [ |b|z|x|s|l IHl|l IHl|items IHl|id on_format on_repr]
    using pyval_nested_ind;
    cbn [json_native]; intros Hnat; try discriminate;
    try (eexists; split; reflexivity).
  - exists (JInt z). cbn [json_encode]. rewrite (int_repr_short _ Hnat).
    split; reflexivity.
  - assert (Hl : exists js, result_all json_encode l = Ok js /\
                            map json_decode js = l).
    { induction l as [|y l IH]; [exists []; split; reflexivity|].
      cbn [forallb] in Hnat. apply andb_true_iff in Hnat as [Hy Hrest].
      inversion IHl as [|? ? Py Pl]; subst.
      destruct (Py Hy) as (j & Hj & Hdj).
      destruct (IH Pl Hrest) as (js & Hjs & Hdjs).
      exists (j :: js). cbn [result_all map]. rewrite Hj, Hjs, Hdj, Hdjs.
      split; reflexivity. }
    destruct Hl as (js & Hjs & Hd).
    exists (JArray js). cbn [json_encode]. rewrite Hjs. cbn. now rewrite Hd.
  - apply andb_true_iff in Hnat as [Hnat _].
    assert (Hl : exists ms,
               result_all
                 (fun kv : string * pyval =>
                    let (k, x) := kv in result_map (pair k) (json_encode x))
                 items = Ok ms /\
               map (fun kv : string * json =>
                      let (k, x) := kv in (k, json_decode x)) ms = items).
    { induction items as [|[k y] items IH]; [exists []; split; reflexivity|].
      cbn [forallb snd] in Hnat. apply andb_true_iff in Hnat as [Hy Hrest].
      inversion IHl as [|? ? Py Pl]; subst. cbn [snd] in Py.
      destruct (Py Hy) as (j & Hj & Hdj).
      destruct (IH Pl Hrest) as (ms & Hms & Hdms).
      exists ((k, j) :: ms). cbn [result_all map]. rewrite Hj. cbn.
      rewrite Hms, Hdj, Hdms. split; reflexivity. }
    destruct Hl as (ms & Hms & Hd).
    exists (JObject ms). cbn [json_encode]. rewrite Hms. cbn. now rewrite Hd.
Qed.

Lemma forallb_through_map {X Y} (f : Y -> bool) (g : X -> Y) (l : list X) :
  forallb f (map g l) = forallb (fun x => f (g x)) l.
Proof.
  induction l as [|x l IH]; [reflexivity|]. cbn. now rewrite IH.
Qed.

Lemma json_encode_event (e : Event.t) :
  json_encode (Event.to_dict e)
    = result_map (event_json e) (json_encode (Event.step_id e)).
Proof.
  unfold Event.to_dict. cbn [json_encode result_all result_map result_bind].
  destruct (json_encode (Event.step_id e)); reflexivity.
Qed.

(** The events of a written audit trail, read back. *)
Lemma audit_trail_round_trip (h : list Event.t) :
  forall js,
    result_all json_encode (map Event.to_dict h) = Ok js ->
    List.length js = List.length h /\
    map (fun j => getitem (json_decode j) "status") js
      = map (fun e => Some (PyStr (Event.status e))) h /\
    (forallb (fun e => json_native (Event.step_id e)) h = true ->
     map (fun j => getitem (json_decode j) "step_id") js
       = map (fun e => Some (Event.step_id e)) h).
Proof.
  induction h as [|e h IH]; intros js H.
  - cbn in H. injection H as <-. repeat split.
  - cbn [map result_all] in H. rewrite json_encode_event in H.
    destruct (json_encode (Event.step_id e)) as [sj|] eqn:Hs;
      [|discriminate].
    cbn [result_map result_bind] in H.
    destruct (result_all json_encode (map Event.to_dict h)) as [js'|] eqn:Hh;
      [|discriminate].
    injection H as <-. destruct (IH js' eq_refl) as (Hlen & Hst & Hid).
    cbn [map List.length]. rewrite Hlen, Hst. repeat split.
    intros Hnat. cbn [forallb] in Hnat.
    apply andb_true_iff in Hnat as [He Hrest].
    rewrite (Hid Hrest). f_equal.
    destruct (json_native_round_trip _ He) as (j & Hj & Hd).
    rewrite Hs in Hj. injection Hj as ->. cbn. now rewrite Hd.
Qed.

Lemma audit_trail_written (h : list Event.t) :
  forallb (fun e => json_native (Event.step_id e)) h = true ->
  exists js, result_all json_encode (map Event.to_dict h) = Ok js.
Proof.
  induction h as [|e h IH]; intros Hnat; [exists []; reflexivity|].
  cbn [forallb] in Hnat. apply andb_true_iff in Hnat as [He Hrest].
  destruct (json_native_round_trip _ He) as (j & Hj & _).
  destruct (IH Hrest) as (js & Hjs).
  exists (event_json e j :: js).
  cbn [map result_all]. rewrite json_encode_event, Hj, Hjs. reflexivity.
Qed.

(** The document [export_report] writes. *)
Lemma export_report_unfold (self : t) (filename now : string)
    (open_w : string -> result unit) :
  export_report self filename now open_w =
  match open_w filename, 
        result_all json_encode (map Event.to_dict (history self)) with
  | Raise e, _ => Raise e
  | Ok _, Raise e => Raise e
  | Ok _, Ok js =>
      Ok (JObject
            [ ("meta"%string,
               JObject
                 [ ("module"%string, JString "Liora Identity Observer");
                   ("version"%string, JString "1.2");
                   ("generated_at"%string, JString now);
                   ("origin_hash"%string, JString (origin_hash self));
                   ("threshold"%string, JReal (threshold self)) ]);
              ("audit_trail"%string, JArray js) ])
  end.
Proof.
  unfold export_report, report.
  destruct (open_w filename) as [[]|e]; [|reflexivity].
  cbn [json_encode result_all result_map result_bind].
  destruct (result_all json_encode (map Event.to_dict (history self)));
    reflexivity.
Qed.

(** C7, as stated, fails.  A step identifier is any value of the caller; a
    tuple is written as a JSON array and read back as a list, which is not
    the identifier recorded. *)
Lemma export_round_trip_counterexample :
  exists self doc ev,
    observe [1; 0]%float (PyTuple [PyInt 1; PyInt 2]) "t1" demo_sentinel
      = (Ok (true, 0%float, 0%float), self) /\
    map Event.step_id (history self) = [PyTuple [PyInt 1; PyInt 2]] /\
    export_report self "liora_report.json" "t2" writable = Ok doc /\
    getitem (json_load doc) "audit_trail" = Some (PyList [ev]) /\
    getitem ev "step_id" = Some (PyList [PyInt 1; PyInt 2]) /\
    PyList [PyInt 1; PyInt 2] <> PyTuple [PyInt 1; PyInt 2].
Proof.
  do 3 eexists. split; [vm_compute; reflexivity|].
  split; [reflexivity|]. split; [vm_compute; reflexivity|].
  split; [vm_compute; reflexivity|]. split; [reflexivity|].
  discriminate.
Qed.

(** C7, amended.  After calls of [observe] that all returned on a fresh
    sentinel, whenever [export_report] returns, whatever the file, the
    document read back holds the sentinel's threshold and origin hash in
    its [meta], and an audit trail with as many events as calls, with the
    status labels of the history in order.  When the step identifiers of
    the calls are values of the types JSON has (None, booleans, integers,
    strings, floats other than NaN, lists and string-keyed dicts of such),
    the step identifiers read back are those of the calls, in order. *)
Theorem export_report_round_trip :
  forall (origin : vec) (thr : float) (w : Z) (fresh self : t)
         (calls : list (vec * pyval * string))
         (rs : list (result (bool * float * float)))
         (filename now : string) (open_w : string -> result unit)
         (doc : json),
    __init__ origin thr w = Ok fresh ->
    observe_each calls fresh = (rs, self) ->
    forallb is_ok rs = true ->
    export_report self filename now open_w = Ok doc ->
    getpath (json_load doc) ["meta"; "threshold"]%string
      = Some (PyFloat thr) /\
    getpath (json_load doc) ["meta"; "origin_hash"]%string
      = Some (PyStr (origin_hash self)) /\
    exists evs,
      getitem (json_load doc) "audit_trail" = Some (PyList evs) /\
      List.length evs = List.length calls /\
      map (fun ev => getitem ev "status") evs
        = map (fun e => Some (PyStr (Event.status e))) (history self) /\
      (forallb json_native (map call_id calls) = true ->
       map (fun ev => getitem ev "step_id") evs
         = map (fun id => Some id) (map call_id calls)).
Proof.
  intros origin thr w fresh self calls rs filename now open_w doc
         Hinit Hrun Hok Hdoc.
  pose proof (observe_each_frame calls fresh) as Hframe.
  cbv zeta in Hframe. rewrite Hrun in Hframe. cbn [snd] in Hframe.
  destruct Hframe as (_ & Hthr & _).
  apply init_ok_inv in Hinit as (o & _ & _ & ->).
  cbn [threshold] in Hthr.
  destruct (observe_each_all_ok calls _ _ _ Hrun Hok)
    as (es & He & Hlen & Hids & _).
  cbn [history app] in He.
  assert (Hnative : forallb json_native (map call_id calls) = true ->
            forallb (fun e => json_native (Event.step_id e)) (history self)
              = true).
  { rewrite <- Hids, He, forallb_through_map. exact (fun H => H). }
  rewrite export_report_unfold in Hdoc.
  destruct (open_w filename) as [[]|]; [|discriminate].
  destruct (result_all json_encode (map Event.to_dict (history self)))
    as [js|] eqn:Hjs; [|discriminate].
  injection Hdoc as <-.
  destruct (audit_trail_round_trip _ _ Hjs) as (Hl & Hst & Hid).
  split; [cbn; now rewrite Hthr|]. split; [reflexivity|].
  exists (map json_decode js). split; [reflexivity|].
  split; [now rewrite length_map, Hl, He, Hlen|].
  split; [rewrite map_map; exact Hst|].
  intros Hnat. rewrite <- Hids, !map_map, <- He.
  exact (Hid (Hnative Hnat)).
Qed.

Lemma export_report_round_trip_witness :
  (__init__ [1; 0]%float 0.01%float 5 = Ok demo_sentinel /\
   forallb is_ok (fst (observe_each demo_calls demo_sentinel)) = true /\
   forallb json_native (map call_id demo_calls) = true) /\
  exists doc,
    export_report (snd (observe_each demo_calls demo_sentinel))
      "liora_report.json" "t4" writable = Ok doc /\
    getpath (json_load doc) ["meta"; "threshold"]%string
      = Some (PyFloat 0.01) /\
    exists evs,
      getitem (json_load doc) "audit_trail" = Some (PyList evs) /\
      List.length evs = 3%nat /\
      map (fun ev => getitem ev "step_id") evs
        = [Some (PyInt 1); Some (PyInt 2); Some PyNone].
Proof.
  split; [split; [exact demo_sentinel_init | split; reflexivity]|].
  destruct (export_report (snd (observe_each demo_calls demo_sentinel))
              "liora_report.json" "t4" writable) as [doc|e] eqn:Hdoc;
    [|vm_compute in Hdoc; discriminate].
  exists doc. split; [reflexivity|].
  destruct (export_report_round_trip _ _ _ _
              (snd (observe_each demo_calls demo_sentinel)) demo_calls
              (fst (observe_each demo_calls demo_sentinel))
              "liora_report.json" "t4" writable doc demo_sentinel_init
              (surjective_pairing _) eq_refl Hdoc)
    as (Hthr & _ & evs & Hevs & Hlen & _ & Hids).
  split; [exact Hthr|]. exists evs.
  split; [exact Hevs|]. split; [exact Hlen | exact (Hids eq_refl)].
Defined.

(** ** C9: the hash of a vector *)

Lemma length_flat_map_const {X Y} (f : X -> list Y) (k : nat) (l : list X) :
  (forall x, List.length (f x) = k) ->
  List.length (flat_map f l) = (List.length l * k)%nat.
Proof.
  intros Hf. induction l as [|x l IH]; [reflexivity|].
  cbn [flat_map List.length]. rewrite length_app, Hf, IH. reflexivity.
Qed.

Lemma hex_strings_length (n : nat) :
  List.length (hex_strings n) = (16 ^ n)%nat.
Proof.
  induction n as [|n IH]; [reflexivity|].
  cbn [hex_strings].
  rewrite (length_flat_map_const _ (16 ^ n)%nat).
  - change (List.length hex_digits) with 16%nat. now rewrite Nat.pow_succ_r'.
  - intros c. now rewrite length_map.
Qed.

Lemma hex_strings_complete (n : nat) (s : string) :
  String.length s = n ->
  Forall (fun c => In c hex_digits) (list_ascii_of_string s) ->
  In s (hex_strings n).
Proof.
  revert s. induction n as [|n IH]; intros [|c s] Hlen Hhex;
    try discriminate.
  - now left.
  - cbn [hex_strings]. apply in_flat_map. exists c.
    cbn [list_ascii_of_string] in Hhex. inversion Hhex as [|? ? Hc Hs]; subst.
    split; [exact Hc|]. apply in_map. apply IH; [|exact Hs].
    now injection Hlen.
Qed.

Lemma bit_lists_length (n : nat) : List.length (bit_lists n) = (2 ^ n)%nat.
Proof.
  induction n as [|n IH]; [reflexivity|].
  cbn [bit_lists]. rewrite length_app, !length_map, IH, Nat.pow_succ_r'. lia.
Qed.

Lemma bit_lists_sound (n : nat) (bs : list bool) :
  In bs (bit_lists n) -> List.length bs = n.
Proof.
  revert bs. induction n as [|n IH]; intros bs Hin.
  - destruct Hin as [<-|[]]. reflexivity.
  - cbn [bit_lists] in Hin. apply in_app_or in Hin.
    destruct Hin as [Hin|Hin]; apply in_map_iff in Hin as (bs' & <- & Hin');
      cbn; now rewrite (IH bs' Hin').
Qed.

Lemma bit_lists_NoDup (n : nat) : NoDup (bit_lists n).
Proof.
  induction n as [|n IH]; [repeat constructor; intros []|].
  cbn [bit_lists]. apply NoDup_app.
  - apply NoDup_map_NoDup_ForallPairs; [|exact IH].
    intros a b _ _ H. now injection H.
  - apply NoDup_map_NoDup_ForallPairs; [|exact IH].
    intros a b _ _ H. now injection H.
  - intros bs H0 H1.
    apply in_map_iff in H0 as (a & <- & _).
    apply in_map_iff in H1 as (b & Hb & _). discriminate.
Qed.

Lemma float_one_not_zero : 1%float <> 0%float.
Proof.
  intros H. apply (f_equal (fun x => PrimFloat.eqb x 0)) in H.
  vm_compute in H. discriminate.
Qed.

Lemma vec_of_bits_injective (a b : list bool) :
  vec_of_bits a = vec_of_bits b -> a = b.
Proof.
  revert b. induction a as [|x a IH]; intros [|y b] H; try discriminate.
  - reflexivity.
  - cbn in H. injection H as Hxy Hab. f_equal; [|now apply IH].
    destruct x, y; try reflexivity.
    + now destruct (float_one_not_zero Hxy).
    + now destruct (float_one_not_zero (eq_sym Hxy)).
Qed.

Lemma hex_digit_in (d : Z) : In (hex_digit d) hex_digits.
Proof.
  unfold hex_digit.
  destruct (Nat.lt_ge_cases (Z.to_nat d) (List.length hex_digits)) as [H|H].
  - now apply nth_In.
  - rewrite nth_overflow by exact H. now left.
Qed.

Lemma hexdigest_shape (bs : list Byte.byte) :
  String.length (hexdigest bs) = (2 * List.length bs)%nat /\
  Forall (fun c => In c hex_digits) (list_ascii_of_string (hexdigest bs)).
Proof.
  induction bs as [|b bs [IHlen IHhex]]; [split; [reflexivity | constructor]|].
  cbn [hexdigest String.length list_ascii_of_string List.length]. split.
  - rewrite IHlen. lia.
  - constructor; [apply hex_digit_in|].
    constructor; [apply hex_digit_in | exact IHhex].
Qed.

Lemma le_bytes_length (n : nat) (z : Z) : List.length (le_bytes n z) = n.
Proof.
  revert z. induction n as [|n IH]; intros z; [reflexivity|].
  cbn [le_bytes List.length]. now rewrite IH.
Qed.

Lemma digest_length (msg : list Byte.byte) :
  List.length (SHA256.digest msg) = 32%nat.
Proof.
  unfold SHA256.digest. cbv zeta.
  set (h := fold_left _ _ _). clearbody h.
  cbn [flat_map]. rewrite !length_app. unfold be_bytes.
  rewrite !length_rev, !le_bytes_length. reflexivity.
Qed.

(** A digest is one of the [16 ^ 64] strings of 64 hexadecimal digits. *)
Lemma stable_vector_hash_shape (v : vec) :
  In (stable_vector_hash v) (hex_strings 64).
Proof.
  unfold stable_vector_hash.
  destruct (hexdigest_shape (SHA256.digest (tobytes v))) as [Hlen Hhex].
  apply hex_strings_complete; [|exact Hhex].
  rewrite Hlen, digest_length. reflexivity.
Qed.

Lemma more_bit_lists_than_digests (n m : nat) :
  (4 * m < n)%nat -> ~ (2 ^ n <= 16 ^ m)%nat.
Proof.
  intros Hlt Hle.
  change 16%nat with (2 ^ 4)%nat in Hle. rewrite <- Nat.pow_mul_r in Hle.
  pose proof (Nat.pow_lt_mono_r 2 (4 * m) n ltac:(lia) Hlt). lia.
Qed.

(** C9, as stated, fails: a digest is one of [16 ^ 64] strings, and there
    are [2 ^ 257] vectors of 257 components each 0.0 or 1.0, so two of them
    that differ in a component have the same digest.  Not every change of
    a component produces a different digest. *)
Lemma every_change_new_digest_counterexample :
  ~ (forall v w : vec,
        List.length v = List.length w ->
        v <> w ->
        stable_vector_hash v <> stable_vector_hash w).
Proof.
  intros Hclaim.
  apply (more_bit_lists_than_digests 257 64); [lia|].
  rewrite <- bit_lists_length, <- hex_strings_length.
  rewrite <- (length_map (fun bs => stable_vector_hash (vec_of_bits bs))).
  apply NoDup_incl_length.
  - apply NoDup_map_NoDup_ForallPairs; [|apply bit_lists_NoDup].
    intros a b Ha Hb Hsame.
    destruct (list_eq_dec Bool.bool_dec a b) as [Heq|Hne]; [exact Heq|].
    exfalso. apply (Hclaim (vec_of_bits a) (vec_of_bits b)).
    + unfold vec_of_bits. rewrite !length_map.
      now rewrite (bit_lists_sound _ _ Ha), (bit_lists_sound _ _ Hb).
    + intros H. apply Hne. now apply vec_of_bits_injective.
    + exact Hsame.
  - intros s Hin. apply in_map_iff in Hin as (bs & <- & _).
    apply stable_vector_hash_shape.
Qed.

(** *** The bytes hashed determine the vector *)

Lemma Z_of_byte_of_Z (z : Z) : Z_of_byte (byte_of_Z z) = (z mod 256)%Z.
Proof.
  unfold Z_of_byte, byte_of_Z.
  assert (Hm : (0 <= z mod 256 < 256)%Z) by (apply Z.mod_pos_bound; lia).
  destruct (Byte.of_N (Z.to_N (z mod 256))) as [b|] eqn:E.
  - apply Byte.to_of_N in E. rewrite E. apply Z2N.id. lia.
  - apply Byte.of_N_None_iff in E. lia.
Qed.

Lemma le_value_le_bytes (n : nat) (z : Z) :
  le_value (le_bytes n z) = (z mod 256 ^ Z.of_nat n)%Z.
Proof.
  revert z. induction n as [|n IH]; intros z.
  - cbn. now rewrite Z.mod_1_r.
  - cbn [le_bytes le_value]. rewrite Z_of_byte_of_Z, IH.
    rewrite Nat2Z.inj_succ, Z.pow_succ_r by lia.
    rewrite Z.rem_mul_r; [reflexivity | lia | ].
    apply Z.pow_pos_nonneg; lia.
Qed.

Lemma le_bytes_8_injective (z1 z2 : Z) :
  (0 <= z1 < 2 ^ 64)%Z -> (0 <= z2 < 2 ^ 64)%Z ->
  le_bytes 8 z1 = le_bytes 8 z2 -> z1 = z2.
Proof.
  intros H1 H2 H. apply (f_equal le_value) in H.
  rewrite !le_value_le_bytes in H.
  change (256 ^ Z.of_nat 8)%Z with (2 ^ 64)%Z in H.
  now rewrite !Z.mod_small in H by assumption.
Qed.

Lemma digits2_pos_bounds (m : positive) :
  (2 ^ (Zpos (digits2_pos m) - 1) <= Zpos m < 2 ^ Zpos (digits2_pos m))%Z.
Proof.
  induction m as [m IH|m IH|]; cbn [digits2_pos].
  - rewrite Pos2Z.inj_succ.
    replace (Z.succ (Zpos (digits2_pos m)) - 1)%Z
      with (Z.succ (Zpos (digits2_pos m) - 1))%Z by lia.
    rewrite !Z.pow_succ_r by lia. lia.
  - rewrite Pos2Z.inj_succ.
    replace (Z.succ (Zpos (digits2_pos m)) - 1)%Z
      with (Z.succ (Zpos (digits2_pos m) - 1))%Z by lia.
    rewrite !Z.pow_succ_r by lia. lia.
  - cbn. lia.
Qed.

(** The finite doubles: subnormal, with exponent -1074, or normal, with a
    53-bit mantissa. *)
Lemma valid_finite (s : bool) (m : positive) (e : Z) :
  valid_binary (S754_finite s m e) = true ->
  ((Zpos m < 2 ^ 52)%Z /\ e = (-1074)%Z) \/
  ((2 ^ 52 <= Zpos m < 2 ^ 53)%Z /\ (-1074 <= e <= 971)%Z).
Proof.
  cbn [SpecFloat.valid_binary]. unfold bounded, canonical_mantissa, fexp.
  change (SpecFloat.emin prec emax) with (-1074)%Z.
  change (emax - prec)%Z with 971%Z. change prec with 53%Z.
  intros H. apply andb_true_iff in H as [Hc He].
  apply Z.eqb_eq in Hc. apply Z.leb_le in He.
  change (Z.max (Zpos (digits2_pos m) + e - 53) (-1074) = e) in Hc.
  change (e <= 971)%Z in He.
  pose proof (digits2_pos_bounds m) as [Hlo Hhi].
  remember (Zpos (digits2_pos m)) as d eqn:Ed.
  assert (Hd : (0 < d)%Z) by lia.
  destruct (Z_lt_le_dec (Zpos m) (2 ^ 52)) as [Hsub|Hnorm].
  - left. split; [exact Hsub|].
    assert (d - 1 < 52)%Z
      by (apply (Z.pow_lt_mono_r_iff 2); lia).
    lia.
  - right.
    assert (Hgt : (52 < d)%Z) by (apply (Z.pow_lt_mono_r_iff 2); lia).
    assert (Hd53 : d = 53%Z) by lia.
    clear Ed Hlo. subst d. split; lia.
Qed.

Lemma spec_bits_range (f : spec_float) :
  valid_binary f = true -> (0 <= spec_bits f < 2 ^ 64)%Z.
Proof.
  destruct f as [s|s| |s m e]; intros Hv; unfold spec_bits.
  - destruct s; lia.
  - destruct s; lia.
  - lia.
  - destruct (valid_finite s m e Hv) as [[Hm He]|[Hm He]];
      destruct (Z.ltb_spec (Zpos m) (2 ^ 52)); destruct s; lia.
Qed.

Lemma spec_bits_injective (f g : spec_float) :
  valid_binary f = true -> valid_binary g = true ->
  spec_bits f = spec_bits g -> f = g.
Proof.
  intros Hf Hg.
  destruct f as [s|s| |s m e]; destruct g as [s'|s'| |s' m' e'];
    unfold spec_bits;
    try (destruct (valid_finite s m e Hf) as [[Hm He]|[Hm He]]);
    try (destruct (valid_finite s' m' e' Hg) as [[Hm' He']|[Hm' He']]);
    try destruct (Z.ltb_spec (Zpos m) (2 ^ 52)) as [Hlt|Hge];
    try destruct (Z.ltb_spec (Zpos m') (2 ^ 52)) as [Hlt'|Hge'];
    try destruct s; try destruct s'; intros Hbits;
    try lia; try reflexivity.
  all: try (assert (m = m') by lia; assert (e = e') by lia; subst;
            reflexivity).
Qed.

Lemma float64_bits_spec (x : float) : float64_bits x = spec_bits (Prim2SF x).
Proof. reflexivity. Qed.

Lemma float64_bits_range (x : float) : (0 <= float64_bits x < 2 ^ 64)%Z.
Proof.
  rewrite float64_bits_spec. apply spec_bits_range, Prim2SF_valid.
Qed.

(** Two doubles with the same 64 bits are the same double. *)
Lemma float64_bits_injective (x y : float) :
  float64_bits x = float64_bits y -> x = y.
Proof.
  rewrite !float64_bits_spec. intros H. apply Prim2SF_inj.
  apply spec_bits_injective; [apply Prim2SF_valid .. | exact H].
Qed.

Lemma app_same_length_injective {X} (a b c d : list X) :
  List.length a = List.length b -> a ++ c = b ++ d -> a = b /\ c = d.
Proof.
  revert b. induction a as [|x a IH]; intros [|y b] Hlen H;
    try discriminate.
  - now split.
  - injection Hlen as Hlen. injection H as -> H.
    destruct (IH b Hlen H) as [-> ->]. now split.
Qed.

(** Two vectors with the same bytes are the same vector. *)
Lemma tobytes_injective (v w : vec) : tobytes v = tobytes w -> v = w.
Proof.
  revert w. induction v as [|x v IH]; intros [|y w] H.
  - reflexivity.
  - apply (f_equal (@List.length _)) in H. cbn [tobytes flat_map] in H.
    rewrite length_app, le_bytes_length in H. discriminate.
  - apply (f_equal (@List.length _)) in H. cbn [tobytes flat_map] in H.
    rewrite length_app, le_bytes_length in H. discriminate.
  - cbn [tobytes flat_map] in H.
    apply app_same_length_injective in H as [Hx Hv];
      [|now rewrite !le_bytes_length].
    f_equal; [|now apply IH].
    apply float64_bits_injective.
    apply le_bytes_8_injective; try apply float64_bits_range. exact Hx.
Qed.

(** C9, amended.  [stable_vector_hash] is a function of the vector alone:
    the same vector always has the same digest, a string of 64 lower-case
    hexadecimal digits.  A change of any component, however small, changes
    the bytes that are hashed.  In the cases tried the digest changes too:
    the last bit of a component flipped (1.0 to the next double), and the
    sign of a zero flipped. *)
Theorem stable_vector_hash_deterministic :
  (forall v w : vec, v = w -> stable_vector_hash v = stable_vector_hash w) /\
  (forall v : vec,
      String.length (stable_vector_hash v) = 64%nat /\
      Forall (fun c => In c hex_digits)
             (list_ascii_of_string (stable_vector_hash v))) /\
  (forall v w : vec, v <> w -> tobytes v <> tobytes w) /\
  stable_vector_hash [1; 0]%float
    <> stable_vector_hash [PrimFloat.next_up 1; 0%float] /\
  stable_vector_hash [0%float] <> stable_vector_hash [(-0)%float].
Proof.
  split; [intros v w ->; reflexivity|].
  split.
  - intros v. unfold stable_vector_hash.
    destruct (hexdigest_shape (SHA256.digest (tobytes v))) as [Hlen Hhex].
    split; [|exact Hhex]. rewrite Hlen, digest_length. reflexivity.
  - split.
    + intros v w Hne H. apply Hne. now apply tobytes_injective.
    + split; intros H; vm_compute in H; discriminate.
Qed.

Lemma stable_vector_hash_deterministic_witness :
  stable_vector_hash (map PrimFloat.abs [(-1)%float; 0%float])
    = stable_vector_hash [1; 0]%float /\
  ([1; 0]%float <> [PrimFloat.next_up 1; 0%float] /\
   tobytes [1; 0]%float <> tobytes [PrimFloat.next_up 1; 0%float]).
Proof.
  destruct stable_vector_hash_deterministic as (Hdet & _ & Hbytes & _).
  assert (Hne : [1; 0]%float <> [PrimFloat.next_up 1; 0%float]).
  { intros H.
    apply (f_equal (fun l => PrimFloat.eqb 1 (hd 0%float l))) in H.
    vm_compute in H. discriminate. }
  split; [apply Hdet; reflexivity|].
  split; [exact Hne | exact (Hbytes _ _ Hne)].
Defined.

(** ** C4: what [normalize] returns *)

(** Each binary64 operation rounds the exact result, and as long as
    nothing overflows or underflows the error of one rounding is at most
    [2 ^ -52] of the exact result.  The sum of [n] squares rounds [2 n]
    times, the norm once more, each quotient once. *)

(** *** Powers of two and shifts of a mantissa *)

Section PowersOfTwo.

Local Open Scope R_scope.

Lemma bpow_pos (e : Z) : 0 < bpow e.
Proof. apply powerRZ_lt. lra. Qed.

Lemma bpow_add (a b : Z) : bpow (a + b) = bpow a * bpow b.
Proof. apply powerRZ_add. lra. Qed.

Lemma bpow_IZR (n : Z) : (0 <= n)%Z -> bpow n = IZR (2 ^ n).
Proof.
  intros Hn. unfold bpow.
  rewrite <- (Z2Nat.id n Hn) at 1. rewrite <- pow_powerRZ.
  rewrite pow_IZR. now rewrite Z2Nat.id.
Qed.

Lemma bpow_0 : bpow 0 = 1.
Proof. reflexivity. Qed.

Lemma bpow_opp (a : Z) : bpow (- a) = / bpow a.
Proof. apply powerRZ_neg'. Qed.

Lemma bpow_succ (a : Z) : bpow (a + 1) = 2 * bpow a.
Proof.
  rewrite bpow_add. replace (bpow 1) with 2; [lra|].
  unfold bpow. change 1%Z with (Z.of_nat 1).
  rewrite <- pow_powerRZ. simpl. lra.
Qed.

Lemma bpow_le (a b : Z) : (a <= b)%Z -> bpow a <= bpow b.
Proof.
  intros H. replace b with (a + (b - a))%Z by lia.
  rewrite bpow_add, (bpow_IZR (b - a)) by lia.
  assert (1 <= IZR (2 ^ (b - a))).
  { apply IZR_le. apply (Z.pow_le_mono_r 2 0); lia. }
  pose proof (bpow_pos a). nra.
Qed.

Lemma bpow_lt (a b : Z) : (a < b)%Z -> bpow a < bpow b.
Proof.
  intros H. replace b with (a + (b - a))%Z by lia.
  rewrite bpow_add, (bpow_IZR (b - a)) by lia.
  assert (2 <= IZR (2 ^ (b - a))).
  { apply IZR_le. apply (Z.pow_le_mono_r 2 1); lia. }
  pose proof (bpow_pos a). nra.
Qed.

Lemma bpow_lt_inv (a b : Z) : bpow a < bpow b -> (a < b)%Z.
Proof.
  intros H. destruct (Z_lt_le_dec a b) as [Hlt|Hge]; [exact Hlt|].
  apply bpow_le in Hge. lra.
Qed.

(** ** Shifting a mantissa to the right *)

Lemma shr_1_m (mrs : shr_record) :
  (0 <= shr_m mrs)%Z ->
  shr_m (shr_1 mrs) = (shr_m mrs / 2)%Z.
Proof.
  destruct mrs as [m r s]. cbn [shr_m shr_1]. intros Hm.
  destruct m as [|[p|p|]|p]; cbn [shr_m]; try reflexivity.
  - apply (Z.div_unique (Zpos p~1) 2 (Zpos p) 1); lia.
  - apply (Z.div_unique (Zpos p~0) 2 (Zpos p) 0); lia.
  - lia.
Qed.

Lemma pow2_xO (p : positive) :
  (2 ^ Zpos p~0 = 2 ^ Zpos p * 2 ^ Zpos p)%Z.
Proof. rewrite <- Z.pow_add_r by lia. f_equal. lia. Qed.

Lemma pow2_xI (p : positive) :
  (2 ^ Zpos p~1 = 2 * (2 ^ Zpos p * 2 ^ Zpos p))%Z.
Proof.
  rewrite <- Z.pow_add_r, <- Z.pow_succ_r by lia. f_equal. lia.
Qed.

Lemma iter_pos_shr_m (p : positive) :
  forall mrs : shr_record,
    (0 <= shr_m mrs)%Z ->
    shr_m (SpecFloat.iter_pos shr_1 p mrs) = (shr_m mrs / 2 ^ Zpos p)%Z.
Proof.
  induction p as [p IH|p IH|]; intros mrs Hm; cbn [SpecFloat.iter_pos].
  - assert (H1 : (0 <= shr_m (shr_1 mrs))%Z).
    { rewrite shr_1_m by exact Hm. apply Z.div_pos; lia. }
    assert (H2 : (0 <= shr_m (SpecFloat.iter_pos shr_1 p (shr_1 mrs)))%Z).
    { rewrite IH by exact H1. apply Z.div_pos; [exact H1|]. lia. }
    rewrite IH, IH, shr_1_m by assumption.
    rewrite !Z.div_div by lia. now rewrite pow2_xI.
  - assert (H2 : (0 <= shr_m (SpecFloat.iter_pos shr_1 p mrs))%Z).
    { rewrite IH by exact Hm. apply Z.div_pos; [exact Hm|]. lia. }
    rewrite IH, IH by assumption.
    rewrite !Z.div_div by lia. now rewrite pow2_xO.
  - rewrite shr_1_m by exact Hm. reflexivity.
Qed.

Lemma shr_m_spec (mrs : shr_record) (e n : Z) :
  (0 <= shr_m mrs)%Z ->
  shr mrs e n =
    (if (0 <? n)%Z then fst (shr mrs e n) else mrs,
     (e + Z.max n 0)%Z) /\
  ((0 < n)%Z -> shr_m (fst (shr mrs e n)) = (shr_m mrs / 2 ^ n)%Z).
Proof.
  intros Hm. destruct n as [|p|p]; cbn [shr fst Z.ltb Z.compare].
  - split; [now rewrite Z.add_0_r | lia].
  - split; [f_equal; lia|]. intros _. now apply iter_pos_shr_m.
  - split; [f_equal; lia | lia].
Qed.

Lemma round_nearest_even_range (m : Z) (l : location) :
  (m <= round_nearest_even m l <= m + 1)%Z /\
  (l = loc_Exact -> round_nearest_even m l = m).
Proof.
  destruct l as [|[| |]]; cbn [round_nearest_even];
    try destruct (Z.even m); split; try lia; try discriminate; reflexivity.
Qed.

End PowersOfTwo.

(** *** Rounding to 53 binary digits *)

Section RoundingAux.

Local Open Scope Z_scope.

(** The number of binary digits of a positive number. *)
Lemma Zdigits2_bounds (m : Z) :
  0 < m -> 0 < Zdigits2 m /\ 2 ^ (Zdigits2 m - 1) <= m < 2 ^ Zdigits2 m.
Proof.
  destruct m as [|p|p]; try lia. intros _. cbn [Zdigits2].
  split; [lia | apply digits2_pos_bounds].
Qed.

Lemma Zdigits2_le (m k : Z) : 0 < m -> m < 2 ^ k -> Zdigits2 m <= k.
Proof.
  intros Hm Hk. destruct (Zdigits2_bounds m Hm) as [Hd [Hlo _]].
  destruct (Z_lt_le_dec k 0) as [Hneg|Hpos].
  - rewrite Z.pow_neg_r in Hk by exact Hneg. lia.
  - assert (Zdigits2 m - 1 < k); [|lia].
    apply (Z.pow_lt_mono_r_iff 2); lia.
Qed.

Lemma Zdigits2_ge (m k : Z) : 0 <= k -> 2 ^ k <= m -> k < Zdigits2 m.
Proof.
  intros Hk Hm.
  assert (Hpos : 0 < m) by (pose proof (Z.pow_pos_nonneg 2 k); lia).
  destruct (Zdigits2_bounds m Hpos) as [Hd [_ Hhi]].
  apply (Z.pow_lt_mono_r_iff 2); lia.
Qed.

Lemma shr_m_of_loc (m : Z) (l : location) :
  shr_m (shr_record_of_loc m l) = m.
Proof. destruct l as [|[| |]]; reflexivity. Qed.

Lemma loc_of_loc (m : Z) (l : location) :
  loc_of_shr_record (shr_record_of_loc m l) = l.
Proof. destruct l as [|[| |]]; reflexivity. Qed.

(** The first step of rounding, on a number of the normal range: a
    mantissa of more than 53 digits is cut to 53. *)
Lemma shr_fexp_spec (m e : Z) (l : location) :
  0 < m ->
  -1074 <= Zdigits2 m + e - 53 ->
  (53 < Zdigits2 m ->
   shr_m (fst (shr_fexp prec emax m e l)) = m / 2 ^ (Zdigits2 m - 53) /\
   snd (shr_fexp prec emax m e l) = e + (Zdigits2 m - 53)) /\
  (Zdigits2 m <= 53 ->
   shr_fexp prec emax m e l = (shr_record_of_loc m l, e)).
Proof.
  intros Hm Hnorm. unfold shr_fexp, fexp.
  change (SpecFloat.emin prec emax) with (-1074).
  change prec with 53.
  replace (Z.max (Zdigits2 m + e - 53) (-1074) - e)
    with (Zdigits2 m - 53) by lia.
  pose proof (shr_m_spec (shr_record_of_loc m l) e (Zdigits2 m - 53)) as Hs.
  rewrite shr_m_of_loc in Hs.
  assert (H0 : 0 <= m) by lia. destruct (Hs H0) as [Hpair Hdiv].
  split.
  - intros Hd. split; [apply Hdiv; lia|].
    rewrite Hpair. cbn [snd]. lia.
  - intros Hd. rewrite Hpair.
    destruct (Z.ltb_spec 0 (Zdigits2 m - 53)); [lia|].
    f_equal. lia.
Qed.

(** Dividing a number of [d] digits by [2 ^ (d - 53)] leaves 53 digits. *)
Lemma cut_to_53 (m : Z) :
  0 < m -> 53 < Zdigits2 m ->
  2 ^ 52 <= m / 2 ^ (Zdigits2 m - 53) < 2 ^ 53.
Proof.
  intros Hm Hd. destruct (Zdigits2_bounds m Hm) as [_ [Hlo Hhi]].
  set (n := Zdigits2 m - 53) in *.
  assert (Hn : 0 < n) by (unfold n; lia).
  assert (Hp : 0 < 2 ^ n) by (apply Z.pow_pos_nonneg; lia).
  replace (Zdigits2 m - 1) with (52 + n) in Hlo by (unfold n; lia).
  replace (Zdigits2 m) with (53 + n) in Hhi by (unfold n; lia).
  rewrite Z.pow_add_r in Hlo, Hhi by lia.
  split.
  - apply Z.div_le_lower_bound; lia.
  - apply Z.div_lt_upper_bound; lia.
Qed.

(** Rounding a positive number of the normal range that does not
    overflow: the result is finite, its mantissa is the mantissa cut to 53
    digits or the next one, and its value is that one's at the exponent of
    the cut. *)
Lemma binary_round_aux_spec (s : bool) (m e : Z) (l : location) :
  0 < m ->
  -1074 <= Zdigits2 m + e - 53 ->
  Zdigits2 m + e - 53 <= 970 ->
  e <= 970 ->
  53 <= Zdigits2 m \/ l = loc_Exact ->
  exists (m3 : positive) (e3 m2 : Z),
    binary_round_aux prec emax s m e l = S754_finite s m3 e3 /\
    m / 2 ^ Z.max 0 (Zdigits2 m - 53) <= m2
      <= m / 2 ^ Z.max 0 (Zdigits2 m - 53) + 1 /\
    (l = loc_Exact -> Zdigits2 m <= 53 -> m2 = m) /\
    e + Z.max 0 (Zdigits2 m - 53) <= e3 /\
    Zpos m3 * 2 ^ (e3 - (e + Z.max 0 (Zdigits2 m - 53))) = m2 /\
    0 < m2.
Proof.
  intros Hm Hnorm Hover He Hdl.
  destruct (shr_fexp_spec m e l Hm Hnorm) as [Hcut Hkeep].
  unfold binary_round_aux.
  destruct (shr_fexp prec emax m e l) as [mrs1 e1] eqn:H1.
  cbn [fst snd] in Hcut.
  (* the mantissa after the cut, and its exponent *)
  assert (Hstage1 :
            shr_m mrs1 = m / 2 ^ Z.max 0 (Zdigits2 m - 53) /\
            e1 = e + Z.max 0 (Zdigits2 m - 53) /\
            (Zdigits2 m <= 53 -> loc_of_shr_record mrs1 = l) /\
            0 < shr_m mrs1 < 2 ^ 53 /\
            (53 <= Zdigits2 m -> 2 ^ 52 <= shr_m mrs1)).
  { destruct (Z_lt_le_dec 53 (Zdigits2 m)) as [Hbig|Hsmall].
    - destruct (Hcut Hbig) as [Hm1 He1].
      pose proof (cut_to_53 m Hm Hbig) as Hrange.
      replace (Z.max 0 (Zdigits2 m - 53)) with (Zdigits2 m - 53) by lia.
      repeat split; try assumption; try lia.
    - specialize (Hkeep Hsmall). injection Hkeep as -> ->.
      replace (Z.max 0 (Zdigits2 m - 53)) with 0 by lia.
      rewrite shr_m_of_loc, loc_of_loc, Z.pow_0_r, Z.div_1_r.
      destruct (Zdigits2_bounds m Hm) as [_ [Hlo Hhi]].
      repeat split; try lia.
      + eapply Z.lt_le_trans; [exact Hhi|].
        apply Z.pow_le_mono_r; lia.
      + intros Hd. replace (Zdigits2 m - 1) with 52 in Hlo by lia.
        exact Hlo. }
  destruct Hstage1 as (Hm1 & He1 & Hloc & Hrange1 & Hlow1).
  set (m2 := round_nearest_even (shr_m mrs1) (loc_of_shr_record mrs1)).
  destruct (round_nearest_even_range (shr_m mrs1) (loc_of_shr_record mrs1))
    as [Hm2 Hexact]. fold m2 in Hm2, Hexact.
  assert (Hm2pos : 0 < m2) by lia.
  assert (He1min : -1074 <= e1) by lia.
  (* the second step only acts when rounding up reached 2 ^ 53 *)
  destruct (Z_lt_le_dec m2 (2 ^ 53)) as [Hlt|Hge].
  - assert (Hd2 : Zdigits2 m2 <= 53) by (apply Zdigits2_le; assumption).
    destruct (shr_fexp_spec m2 e1 loc_Exact Hm2pos) as [_ Hkeep2].
    { destruct (Zdigits2_bounds m2 Hm2pos) as [Hd _].
      destruct Hdl as [Hd53 | Hl].
      - assert (52 < Zdigits2 m2); [|lia].
        apply Zdigits2_ge; [lia|]. specialize (Hlow1 Hd53). lia.
      - destruct (Z_lt_le_dec 53 (Zdigits2 m)) as [Hbig|Hsmall].
        + assert (52 < Zdigits2 m2); [|lia].
          apply Zdigits2_ge; [lia|]. specialize (Hlow1 ltac:(lia)). lia.
        + assert (m2 = m).
          { unfold m2. rewrite (Hloc Hsmall). subst l.
            cbn [round_nearest_even].
            replace (Z.max 0 (Zdigits2 m - 53)) with 0 in Hm1 by lia.
            now rewrite Z.pow_0_r, Z.div_1_r in Hm1. }
          replace (Z.max 0 (Zdigits2 m - 53)) with 0 in He1 by lia.
          rewrite H. lia. }
    rewrite (Hkeep2 Hd2). cbn [shr_record_of_loc shr_m].
    destruct m2 as [|p2|p2] eqn:Ep; try lia.
    assert (He1max : e1 <= 971) by lia.
    apply Z.leb_le in He1max.
    change (emax - prec) with 971. rewrite He1max.
    exists p2, e1, (Zpos p2).
    split; [reflexivity|]. rewrite <- Hm1.
    split; [exact Hm2|]. split.
    + intros Hl Hsmall. rewrite <- Ep. unfold m2.
      rewrite (Hloc Hsmall), Hl. cbn [round_nearest_even].
      rewrite Hm1. replace (Z.max 0 (Zdigits2 m - 53)) with 0 by lia.
      now rewrite Z.pow_0_r, Z.div_1_r.
    + split; [lia|]. split; [|lia].
      rewrite He1, Z.sub_diag. cbn. lia.
  - assert (Hm253 : m2 = 2 ^ 53) by lia.
    assert (Hd2 : Zdigits2 m2 = 54) by (rewrite Hm253; reflexivity).
    destruct (shr_fexp_spec m2 e1 loc_Exact Hm2pos) as [Hcut2 _]; [lia|].
    destruct (Hcut2 ltac:(lia)) as [Hm3 He3].
    destruct (shr_fexp prec emax m2 e1 loc_Exact) as [mrs3 e3] eqn:H3.
    cbn [fst snd] in Hm3, He3.
    rewrite Hd2, Hm253 in Hm3. change (2 ^ 53 / 2 ^ (54 - 53)) with (2 ^ 52)
      in Hm3.
    rewrite Hm3. change (2 ^ 52) with (Zpos (2 ^ 52)).
    assert (He3max : e3 <= 971) by (rewrite He3, Hd2; lia).
    generalize He3max. intros He3max'. apply Z.leb_le in He3max'.
    change (emax - prec) with 971. rewrite He3max'.
    exists (2 ^ 52)%positive, e3, m2.
    split; [reflexivity|]. rewrite <- Hm1.
    split; [exact Hm2|]. split.
    + intros Hl Hsmall. unfold m2. rewrite (Hloc Hsmall), Hl.
      cbn [round_nearest_even]. rewrite Hm1.
      replace (Z.max 0 (Zdigits2 m - 53)) with 0 by lia.
      now rewrite Z.pow_0_r, Z.div_1_r.
    + split; [lia|]. split; [|lia].
      rewrite He3, Hd2, He1.
      replace (e + Z.max 0 (Zdigits2 m - 53) + (54 - 53)
               - (e + Z.max 0 (Zdigits2 m - 53))) with 1 by lia.
      rewrite Hm253. reflexivity.
Qed.

End RoundingAux.

(** *** The error of one rounding *)

Section RoundingError.

Local Open Scope R_scope.

Lemma eta_pos : 0 < eta.
Proof. apply bpow_pos. Qed.

Lemma IZR_pow2 (n : Z) : (0 <= n)%Z -> IZR (2 ^ n) = bpow n.
Proof. intros H. now rewrite bpow_IZR. Qed.

(** A positive integer against the powers of two around it. *)
Lemma Zdigits2_real (m : Z) (e : Z) :
  (0 < m)%Z ->
  bpow (Zdigits2 m - 1 + e) <= IZR m * bpow e < bpow (Zdigits2 m + e).
Proof.
  intros Hm. destruct (Zdigits2_bounds m Hm) as [Hd [Hlo Hhi]].
  rewrite !bpow_add.
  rewrite <- (IZR_pow2 (Zdigits2 m - 1)), <- (IZR_pow2 (Zdigits2 m)) by lia.
  apply IZR_le in Hlo. apply IZR_lt in Hhi.
  pose proof (bpow_pos e). split; nra.
Qed.

(** Rounding a real number of the normal range, given by a mantissa, an
    exponent and a location: the result is finite and within one unit in
    the last place. *)
Lemma binary_round_aux_error (s : bool) (m e : Z) (l : location) (X : R) :
  (0 < m)%Z ->
  (-1074 <= Zdigits2 m + e - 53)%Z ->
  (Zdigits2 m + e - 53 <= 970)%Z ->
  (e <= 970)%Z ->
  (53 <= Zdigits2 m)%Z \/ l = loc_Exact ->
  IZR m * bpow e <= X < (IZR m + 1) * bpow e ->
  (l = loc_Exact -> X = IZR m * bpow e) ->
  exists (m3 : positive) (e3 : Z),
    binary_round_aux prec emax s m e l = S754_finite s m3 e3 /\
    Rabs (IZR (Zpos m3) * bpow e3 - X) <= eta * X.
Proof.
  intros Hm Hnorm Hover He Hdl HX Hexact.
  destruct (binary_round_aux_spec s m e l Hm Hnorm Hover He Hdl)
    as (m3 & e3 & m2 & Hr & Hm2 & Hsame & He3 & Hval & Hm2pos).
  exists m3, e3. split; [exact Hr|].
  set (n := Z.max 0 (Zdigits2 m - 53)) in *.
  assert (Hn : (0 <= n)%Z) by (unfold n; lia).
  (* the value of the result *)
  assert (HV : IZR (Zpos m3) * bpow e3 = IZR m2 * bpow (e + n)).
  { rewrite <- Hval, mult_IZR, IZR_pow2 by lia.
    replace e3 with ((e3 - (e + n)) + (e + n))%Z at 1 by lia.
    rewrite bpow_add. ring. }
  rewrite HV.
  pose proof (bpow_pos e) as Hpe. pose proof (bpow_pos (e + n)) as Hpen.
  assert (HXpos : 0 < X).
  { apply Rlt_le_trans with (IZR m * bpow e); [|lra].
    apply Rmult_lt_0_compat; [|exact Hpe]. now apply IZR_lt. }
  destruct (Z_lt_le_dec (Zdigits2 m) 53) as [Hsmall|Hbig].
  - (* fewer than 53 digits: the location is exact and nothing is lost *)
    destruct Hdl as [Hd | Hl]; [lia|].
    rewrite (Hsame Hl ltac:(lia)), (Hexact Hl).
    replace n with 0%Z by (unfold n; lia). rewrite Z.add_0_r.
    replace (IZR m * bpow e - IZR m * bpow e) with 0 by ring.
    rewrite Rabs_R0. pose proof eta_pos. rewrite <- (Hexact Hl). nra.
  - (* at least 53 digits: the real number lies between the mantissa cut
       and the next one *)
    set (q := (m / 2 ^ n)%Z) in *.
    assert (Hp2 : (0 < 2 ^ n)%Z) by (apply Z.pow_pos_nonneg; lia).
    assert (Hq1 : (q * 2 ^ n <= m)%Z).
    { unfold q. rewrite Z.mul_comm. apply Z.mul_div_le. exact Hp2. }
    assert (Hq2 : (m + 1 <= (q + 1) * 2 ^ n)%Z).
    { unfold q. pose proof (Z.mul_succ_div_gt m (2 ^ n) Hp2). lia. }
    assert (Hq1r : IZR q * bpow n <= IZR m).
    { rewrite <- IZR_pow2, <- mult_IZR by lia. now apply IZR_le. }
    assert (Hq2r : IZR m + 1 <= (IZR q + 1) * bpow n).
    { rewrite <- IZR_pow2 by lia.
      change 1 with (IZR 1). rewrite <- !plus_IZR, <- mult_IZR.
      now apply IZR_le. }
    assert (Hlo : IZR q * bpow (e + n) <= X).
    { rewrite bpow_add.
      apply Rle_trans with (IZR m * bpow e); [|lra].
      replace (IZR q * (bpow e * bpow n)) with (IZR q * bpow n * bpow e)
        by ring.
      apply Rmult_le_compat_r; lra. }
    assert (Hhi : X < (IZR q + 1) * bpow (e + n)).
    { rewrite bpow_add.
      apply Rlt_le_trans with ((IZR m + 1) * bpow e); [lra|].
      replace ((IZR q + 1) * (bpow e * bpow n))
        with ((IZR q + 1) * bpow n * bpow e) by ring.
      apply Rmult_le_compat_r; lra. }
    destruct Hm2 as [Hm2lo Hm2hi].
    apply IZR_le in Hm2lo, Hm2hi. rewrite plus_IZR in Hm2hi.
    assert (Herr : Rabs (IZR m2 * bpow (e + n) - X) <= bpow (e + n)).
    { apply Rabs_le. split; nra. }
    eapply Rle_trans; [exact Herr|].
    (* one unit in the last place against the number itself *)
    pose proof (Zdigits2_real m e Hm) as [Hdig _].
    replace (Zdigits2 m - 1 + e)%Z with (52 + (e + n))%Z in Hdig
      by (unfold n; lia).
    rewrite bpow_add in Hdig.
    unfold eta.
    assert (H52 : bpow (-52) * bpow 52 = 1).
    { rewrite <- bpow_add. reflexivity. }
    assert (bpow (e + n) = bpow (-52) * (bpow 52 * bpow (e + n))).
    { rewrite <- Rmult_assoc, H52. ring. }
    pose proof (bpow_pos (-52)). nra.
Qed.

End RoundingError.

(** *** The operations: product and sum *)

Section ProductAndSum.

Local Open Scope R_scope.

Lemma Zdigits2_unique (m k : Z) :
  (2 ^ (k - 1) <= m < 2 ^ k)%Z -> (0 < k)%Z -> Zdigits2 m = k.
Proof.
  intros [Hlo Hhi] Hk.
  assert (Hm : (0 < m)%Z).
  { pose proof (Z.pow_pos_nonneg 2 (k - 1)). lia. }
  pose proof (Zdigits2_le m k Hm Hhi).
  pose proof (Zdigits2_ge m (k - 1) ltac:(lia) Hlo). lia.
Qed.

Lemma Zdigits2_shift (m k : Z) :
  (0 < m)%Z -> (0 <= k)%Z -> Zdigits2 (m * 2 ^ k) = (Zdigits2 m + k)%Z.
Proof.
  intros Hm Hk. destruct (Zdigits2_bounds m Hm) as [Hd [Hlo Hhi]].
  assert (Hp : (0 < 2 ^ k)%Z) by (apply Z.pow_pos_nonneg; lia).
  apply Zdigits2_unique; [|lia].
  replace (Zdigits2 m + k - 1)%Z with (Zdigits2 m - 1 + k)%Z by lia.
  rewrite !Z.pow_add_r by lia. split; nia.
Qed.

Lemma normal_mantissa_real (m : positive) :
  normal_mantissa m -> bpow 52 <= IZR (Zpos m) < bpow 53.
Proof.
  intros [Hlo Hhi]. rewrite <- !IZR_pow2 by lia.
  split; [now apply IZR_le | now apply IZR_lt].
Qed.

(** The range of an exponent from the range of the number. *)
Lemma exponent_range (m e : Z) (lo hi : Z) :
  (0 < m)%Z ->
  bpow lo <= IZR m * bpow e < bpow hi ->
  (lo < Zdigits2 m + e <= hi)%Z.
Proof.
  intros Hm [Hlo Hhi]. pose proof (Zdigits2_real m e Hm) as [H1 H2].
  split.
  - apply bpow_lt_inv. lra.
  - assert (Zdigits2 m - 1 + e < hi)%Z; [|lia].
    apply bpow_lt_inv. lra.
Qed.

(** ** Multiplication *)

Lemma SFmul_error (sx sy : bool) (mx my : positive) (ex ey : Z) :
  normal_mantissa mx -> normal_mantissa my ->
  bpow (-1021) <= IZR (Zpos mx) * bpow ex * (IZR (Zpos my) * bpow ey)
    < bpow 1023 ->
  exists (m3 : positive) (e3 : Z),
    SFmul prec emax (S754_finite sx mx ex) (S754_finite sy my ey)
      = S754_finite (xorb sx sy) m3 e3 /\
    Rabs (IZR (Zpos m3) * bpow e3
          - IZR (Zpos mx) * bpow ex * (IZR (Zpos my) * bpow ey))
      <= eta * (IZR (Zpos mx) * bpow ex * (IZR (Zpos my) * bpow ey)).
Proof.
  intros Hmx Hmy HX. cbn [SFmul].
  set (X := IZR (Zpos mx) * bpow ex * (IZR (Zpos my) * bpow ey)) in *.
  assert (HXm : X = IZR (Zpos (mx * my)) * bpow (ex + ey)).
  { unfold X. rewrite Pos2Z.inj_mul, mult_IZR, bpow_add. ring. }
  assert (Hm : (0 < Zpos (mx * my))%Z) by lia.
  assert (Hd : (105 <= Zdigits2 (Zpos (mx * my)))%Z).
  { assert (104 < Zdigits2 (Zpos (mx * my)))%Z; [|lia].
    apply Zdigits2_ge; [lia|]. rewrite Pos2Z.inj_mul.
    destruct Hmx as [Hx _], Hmy as [Hy _].
    change (2 ^ 104)%Z with (2 ^ 52 * 2 ^ 52)%Z. nia. }
  rewrite HXm in HX.
  pose proof (exponent_range _ _ _ _ Hm HX) as Hrange.
  rewrite HXm.
  apply binary_round_aux_error; try lia.
  - pose proof (bpow_pos (ex + ey)). lra.
  - reflexivity.
Qed.

(** ** Addition of two positive numbers *)

Lemma iter_xO (m d : positive) :
  Zpos (Pos.iter xO m d) = (Zpos m * 2 ^ Zpos d)%Z.
Proof.
  induction d as [|d IH] using Pos.peano_ind.
  - cbn [Pos.iter]. rewrite Pos2Z.inj_xO. change (2 ^ 1)%Z with 2%Z. lia.
  - rewrite Pos.iter_succ, Pos2Z.inj_xO, IH, Pos2Z.inj_succ.
    rewrite Z.pow_succ_r by lia. ring.
Qed.

Lemma shl_align_spec (mx : positive) (ex ex' : Z) :
  snd (shl_align mx ex ex') = Z.min ex ex' /\
  Zpos (fst (shl_align mx ex ex'))
    = (Zpos mx * 2 ^ (ex - Z.min ex ex'))%Z.
Proof.
  unfold shl_align. destruct (ex' - ex)%Z as [|d|d] eqn:Hd; cbn [fst snd].
  - replace (Z.min ex ex') with ex by lia.
    rewrite Z.sub_diag. cbn. lia.
  - replace (Z.min ex ex') with ex by lia.
    rewrite Z.sub_diag. cbn. lia.
  - replace (Z.min ex ex') with ex' by lia.
    rewrite iter_xO. split; [reflexivity|]. f_equal. f_equal. lia.
Qed.

(** Rounding an integer multiple of a power of two in the normal range. *)
Lemma binary_round_error (s : bool) (m : positive) (e : Z) :
  bpow (-1021) <= IZR (Zpos m) * bpow e < bpow 1023 ->
  exists (m3 : positive) (e3 : Z),
    binary_round prec emax s m e = S754_finite s m3 e3 /\
    Rabs (IZR (Zpos m3) * bpow e3 - IZR (Zpos m) * bpow e)
      <= eta * (IZR (Zpos m) * bpow e).
Proof.
  intros HX.
  pose proof (exponent_range (Zpos m) e _ _ ltac:(lia) HX) as Hrange.
  unfold binary_round.
  change (Zpos (digits2_pos m)) with (Zdigits2 (Zpos m)).
  set (d := Zdigits2 (Zpos m)) in *.
  unfold fexp. change (SpecFloat.emin prec emax) with (-1074)%Z.
  change prec with 53%Z.
  replace (Z.max (d + e - 53) (-1074)) with (d + e - 53)%Z by lia.
  destruct (shl_align_spec m e (d + e - 53)) as [He' Hm'].
  destruct (shl_align m e (d + e - 53)) as [m' e'].
  cbn [fst snd] in He', Hm'.
  assert (Hk : (0 <= e - Z.min e (d + e - 53))%Z) by lia.
  assert (Hval : IZR (Zpos m') * bpow e' = IZR (Zpos m) * bpow e).
  { rewrite Hm', mult_IZR, IZR_pow2 by exact Hk.
    rewrite He', Rmult_assoc, <- bpow_add. f_equal. f_equal. lia. }
  assert (Hd' : Zdigits2 (Zpos m') = (d + (e - Z.min e (d + e - 53)))%Z).
  { rewrite Hm'. apply Zdigits2_shift; lia. }
  rewrite <- Hval.
  apply binary_round_aux_error; try lia.
  - pose proof (bpow_pos e'). lra.
  - reflexivity.
Qed.

Lemma SFadd_error (mx my : positive) (ex ey : Z) :
  bpow (-1021) <= IZR (Zpos mx) * bpow ex + IZR (Zpos my) * bpow ey
    < bpow 1023 ->
  exists (m3 : positive) (e3 : Z),
    SFadd prec emax (S754_finite false mx ex) (S754_finite false my ey)
      = S754_finite false m3 e3 /\
    Rabs (IZR (Zpos m3) * bpow e3
          - (IZR (Zpos mx) * bpow ex + IZR (Zpos my) * bpow ey))
      <= eta * (IZR (Zpos mx) * bpow ex + IZR (Zpos my) * bpow ey).
Proof.
  intros HX. cbn [SFadd cond_Zopp].
  destruct (shl_align_spec mx ex (Z.min ex ey)) as [_ Hx].
  destruct (shl_align_spec my ey (Z.min ex ey)) as [_ Hy].
  replace (Z.min ex (Z.min ex ey)) with (Z.min ex ey) in Hx by lia.
  replace (Z.min ey (Z.min ex ey)) with (Z.min ex ey) in Hy by lia.
  set (ax := fst (shl_align mx ex (Z.min ex ey))) in *.
  set (ay := fst (shl_align my ey (Z.min ex ey))) in *.
  change (Zpos ax + Zpos ay)%Z with (Zpos (ax + ay)).
  cbn [binary_normalize].
  assert (Hval : IZR (Zpos (ax + ay)) * bpow (Z.min ex ey)
                 = IZR (Zpos mx) * bpow ex + IZR (Zpos my) * bpow ey).
  { rewrite Pos2Z.inj_add, plus_IZR, Hx, Hy, !mult_IZR.
    rewrite !IZR_pow2 by lia.
    rewrite Rmult_plus_distr_r, !Rmult_assoc, <- !bpow_add.
    f_equal; f_equal; f_equal; lia. }
  rewrite <- Hval in *.
  now apply binary_round_error.
Qed.

End ProductAndSum.

(** *** The operations: quotient and square root *)

Section QuotientAndRoot.

Local Open Scope R_scope.

(** ** Division *)

Lemma new_location_exact (n k : Z) :
  new_location n k = loc_Exact -> k = 0%Z.
Proof.
  unfold new_location, new_location_even, new_location_odd.
  destruct (Z.even n); destruct (Z.eqb_spec k 0) as [H|H];
    try (intros _; exact H); discriminate.
Qed.

Lemma SFdiv_error (sx : bool) (mx my : positive) (ex ey : Z) :
  normal_mantissa mx -> normal_mantissa my ->
  bpow (-1021) <= IZR (Zpos mx) * bpow ex / (IZR (Zpos my) * bpow ey)
    < bpow 1023 ->
  exists (m3 : positive) (e3 : Z),
    SFdiv prec emax (S754_finite sx mx ex) (S754_finite false my ey)
      = S754_finite sx m3 e3 /\
    Rabs (IZR (Zpos m3) * bpow e3
          - IZR (Zpos mx) * bpow ex / (IZR (Zpos my) * bpow ey))
      <= eta * (IZR (Zpos mx) * bpow ex / (IZR (Zpos my) * bpow ey)).
Proof.
  intros Hmx Hmy HX. cbn [SFdiv]. rewrite xorb_false_r.
  set (X := IZR (Zpos mx) * bpow ex / (IZR (Zpos my) * bpow ey)) in *.
  pose proof (normal_mantissa_real mx Hmx) as [Hx1 Hx2].
  pose proof (normal_mantissa_real my Hmy) as [Hy1 Hy2].
  pose proof (bpow_pos ex) as Hpex. pose proof (bpow_pos ey) as Hpey.
  pose proof (bpow_pos 52) as Hp52.
  assert (Hdx : Zdigits2 (Zpos mx) = 53%Z)
    by (apply Zdigits2_unique; [exact Hmx | lia]).
  assert (Hdy : Zdigits2 (Zpos my) = 53%Z)
    by (apply Zdigits2_unique; [exact Hmy | lia]).
  (* the quotient of the mantissas is between 1/2 and 2 *)
  assert (HXe : X = IZR (Zpos mx) / IZR (Zpos my) * bpow (ex - ey)).
  { unfold X. replace (ex - ey)%Z with (ex + - ey)%Z by lia.
    rewrite bpow_add, bpow_opp. field. split; lra. }
  assert (Hratio : / 2 < IZR (Zpos mx) / IZR (Zpos my) < 2).
  { replace (bpow 53) with (2 * bpow 52) in Hx2, Hy2
      by (rewrite <- bpow_succ; reflexivity).
    split.
    - apply Rmult_lt_reg_r with (IZR (Zpos my)); [lra|].
      unfold Rdiv. rewrite Rmult_assoc, Rinv_l by lra. lra.
    - apply Rmult_lt_reg_r with (IZR (Zpos my)); [lra|].
      unfold Rdiv. rewrite Rmult_assoc, Rinv_l by lra. lra. }
  pose proof (bpow_pos (ex - ey)) as Hpe.
  assert (Hediff : (-1021 <= ex - ey <= 1023)%Z).
  { split.
    - assert (-1021 < ex - ey + 1)%Z; [|lia]. apply bpow_lt_inv.
      rewrite bpow_succ. destruct HX as [HX1 _]. rewrite HXe in HX1. nra.
    - assert (ex - ey - 1 < 1023)%Z; [|lia]. apply bpow_lt_inv.
      destruct HX as [_ HX2]. rewrite HXe in HX2.
      replace (ex - ey)%Z with (ex - ey - 1 + 1)%Z in HX2 at 1 by lia.
      rewrite bpow_succ in HX2.
      pose proof (bpow_pos (ex - ey - 1)). nra. }
  unfold SFdiv_core_binary. rewrite Hdx, Hdy.
  unfold fexp. change (SpecFloat.emin prec emax) with (-1074)%Z.
  change prec with 53%Z.
  replace (Z.min (Z.max (53 + ex - (53 + ey) - 53) (-1074)) (ex - ey))
    with (ex - ey - 53)%Z by lia.
  replace (ex - ey - (ex - ey - 53))%Z with 53%Z by lia.
  rewrite Z.shiftl_mul_pow2 by lia.
  set (m' := (Zpos mx * 2 ^ 53)%Z).
  pose proof (Z.div_eucl_eq m' (Zpos my) ltac:(lia)) as Heq.
  pose proof (Z.mod_pos_bound m' (Zpos my) ltac:(lia)) as Hmod.
  unfold Z.modulo in Hmod.
  destruct (Z.div_eucl m' (Zpos my)) as [q r].
  (* the real quotient lies between [q] and [q + 1] *)
  assert (Hm'R : IZR m' = IZR (Zpos mx) * bpow 53).
  { unfold m'. now rewrite mult_IZR, IZR_pow2 by lia. }
  assert (HXq : X = IZR m' / IZR (Zpos my) * bpow (ex - ey - 53)).
  { rewrite HXe, Hm'R.
    replace (ex - ey)%Z with (53 + (ex - ey - 53))%Z at 1 by lia.
    rewrite bpow_add. field. lra. }
  assert (Hquot : IZR q <= IZR m' / IZR (Zpos my) < IZR q + 1).
  { assert (HmR : IZR m' = IZR (Zpos my) * IZR q + IZR r).
    { now rewrite Heq, plus_IZR, mult_IZR. }
    destruct Hmod as [Hr0 Hr1]. apply IZR_le in Hr0. apply IZR_lt in Hr1.
    rewrite HmR. split.
    - apply Rmult_le_reg_r with (IZR (Zpos my)); [lra|].
      unfold Rdiv. rewrite Rmult_assoc, Rinv_l by lra. nra.
    - apply Rmult_lt_reg_r with (IZR (Zpos my)); [lra|].
      unfold Rdiv. rewrite Rmult_assoc, Rinv_l by lra. nra. }
  assert (Hq52 : (2 ^ 52 <= q)%Z).
  { destruct Hmx as [Hx _], Hmy as [_ Hy]. unfold m' in Heq.
    destruct (Z_lt_le_dec q (2 ^ 52)) as [Hlt|Hge]; [|exact Hge].
    exfalso.
    assert (Zpos my * q + r < Zpos my * 2 ^ 52 + Zpos my)%Z by nia.
    assert (Zpos my * (2 ^ 52 + 1) <= 2 ^ 52 * 2 ^ 53)%Z by nia.
    nia. }
  assert (Hqpos : (0 < q)%Z) by lia.
  assert (Hd53 : (53 <= Zdigits2 q)%Z).
  { assert (52 < Zdigits2 q)%Z; [|lia]. apply Zdigits2_ge; lia. }
  pose proof (bpow_pos (ex - ey - 53)) as Hpe'.
  assert (Hbetween : IZR q * bpow (ex - ey - 53) <= X
                     < (IZR q + 1) * bpow (ex - ey - 53)).
  { rewrite HXq. destruct Hquot as [Hq1 Hq2]. split.
    - apply Rmult_le_compat_r; lra.
    - apply Rmult_lt_compat_r; lra. }
  assert (Hqrange : bpow (-1022) <= IZR q * bpow (ex - ey - 53) < bpow 1023).
  { split.
    - apply Rle_trans with (bpow 52 * bpow (ex - ey - 53)).
      + rewrite <- bpow_add. apply bpow_le. lia.
      + apply Rmult_le_compat_r; [lra|].
        rewrite <- IZR_pow2 by lia. now apply IZR_le.
    - destruct HX as [_ HX2]. lra. }
  pose proof (exponent_range q _ _ _ Hqpos Hqrange) as Hrange.
  apply binary_round_aux_error;
    [lia | lia | lia | lia | now left | exact Hbetween |].
  intros Hl. apply new_location_exact in Hl. subst r.
  rewrite HXq. f_equal.
  rewrite Heq, Z.add_0_r, mult_IZR. field. lra.
Qed.

(** ** Square root *)

Lemma sqrt_bpow_double (e : Z) : sqrt (bpow (2 * e)) = bpow e.
Proof.
  replace (2 * e)%Z with (e + e)%Z by lia. rewrite bpow_add.
  apply sqrt_square. pose proof (bpow_pos e). lra.
Qed.

Lemma SFsqrt_error (mx : positive) (ex : Z) :
  normal_mantissa mx ->
  (-1074 <= ex <= 971)%Z ->
  exists (m3 : positive) (e3 : Z),
    SFsqrt prec emax (S754_finite false mx ex) = S754_finite false m3 e3 /\
    Rabs (IZR (Zpos m3) * bpow e3 - sqrt (IZR (Zpos mx) * bpow ex))
      <= eta * sqrt (IZR (Zpos mx) * bpow ex).
Proof.
  intros Hmx Hex. cbn [SFsqrt].
  assert (Hdx : Zdigits2 (Zpos mx) = 53%Z)
    by (apply Zdigits2_unique; [exact Hmx | lia]).
  unfold SFsqrt_core_binary. rewrite Hdx.
  unfold fexp. change (SpecFloat.emin prec emax) with (-1074)%Z.
  change prec with 53%Z.
  rewrite !Z.div2_div.
  assert (Hhalf : ((53 + ex + 1) / 2 = ex / 2 + 27)%Z).
  { replace (53 + ex + 1)%Z with (ex + 27 * 2)%Z by lia.
    now rewrite Z.div_add by lia. }
  rewrite Hhalf.
  pose proof (Z.div_mod ex 2 ltac:(lia)) as Hdm.
  pose proof (Z.mod_pos_bound ex 2 ltac:(lia)) as Hmod.
  set (h := (ex / 2)%Z) in *.
  replace (Z.min (Z.max (h + 27 - 53) (-1074)) h) with (h - 26)%Z by lia.
  set (s := (ex - 2 * (h - 26))%Z).
  assert (Hs : (52 <= s <= 53)%Z) by (unfold s; lia).
  destruct s as [|ps|ps] eqn:Es; try lia.
  rewrite <- Es. rewrite Z.shiftl_mul_pow2 by lia.
  set (m' := (Zpos mx * 2 ^ s)%Z).
  assert (Hm'pos : (0 <= m')%Z) by (unfold m'; nia).
  pose proof (Z.sqrtrem_spec m' Hm'pos) as Hsq.
  destruct (Z.sqrtrem m') as [q r]. destruct Hsq as [Hm' Hr].
  (* the size of the root *)
  assert (Hm'range : (2 ^ 104 <= m' < 2 ^ 106)%Z).
  { destruct Hmx as [Hlo Hhi]. unfold m'.
    assert (2 ^ 52 <= 2 ^ s <= 2 ^ 53)%Z.
    { split; apply Z.pow_le_mono_r; lia. }
    change (2 ^ 104)%Z with (2 ^ 52 * 2 ^ 52)%Z.
    change (2 ^ 106)%Z with (2 ^ 53 * 2 ^ 53)%Z. nia. }
  assert (Hq0 : (0 <= q)%Z) by nia.
  assert (Hqrange : (2 ^ 52 <= q < 2 ^ 53)%Z).
  { change (2 ^ 104)%Z with (2 ^ 52 * 2 ^ 52)%Z in Hm'range.
    change (2 ^ 106)%Z with (2 ^ 53 * 2 ^ 53)%Z in Hm'range.
    split; nia. }
  assert (Hdq : Zdigits2 q = 53%Z)
    by (apply Zdigits2_unique; [exact Hqrange | lia]).
  (* the real root *)
  set (X := IZR (Zpos mx) * bpow ex).
  assert (HX : sqrt X = sqrt (IZR m') * bpow (h - 26)).
  { unfold X. rewrite <- (sqrt_bpow_double (h - 26)).
    rewrite <- sqrt_mult.
    - f_equal. unfold m'. rewrite mult_IZR, IZR_pow2 by lia.
      rewrite Rmult_assoc, <- bpow_add. f_equal. f_equal. unfold s. lia.
    - now apply IZR_le.
    - pose proof (bpow_pos (2 * (h - 26))). lra. }
  assert (Hroot : IZR q <= sqrt (IZR m') < IZR q + 1).
  { assert (HqR : 0 <= IZR q) by now apply IZR_le.
    assert (Hm'R : IZR m' = IZR q * IZR q + IZR r).
    { now rewrite Hm', plus_IZR, mult_IZR. }
    destruct Hr as [Hr0 Hr1]. apply IZR_le in Hr0, Hr1.
    rewrite mult_IZR in Hr1. split.
    - rewrite <- (sqrt_square (IZR q)) at 1 by exact HqR.
      apply sqrt_le_1_alt. lra.
    - rewrite <- (sqrt_square (IZR q + 1)) by lra.
      apply sqrt_lt_1_alt. split; [nra|]. nra. }
  pose proof (bpow_pos (h - 26)) as Hph.
  rewrite HX.
  apply binary_round_aux_error; [lia | lia | lia | lia | left; lia | |].
  - destruct Hroot as [Hq1 Hq2]. split.
    + apply Rmult_le_compat_r; lra.
    + apply Rmult_lt_compat_r; lra.
  - intros Hl. destruct (Z.eqb_spec r 0) as [Hr0|Hr0]; [|discriminate].
    f_equal. rewrite Hm', Hr0, Z.add_0_r, mult_IZR.
    apply sqrt_square. now apply IZR_le.
Qed.

End QuotientAndRoot.

(** *** The operations on doubles *)

Section OnDoubles.

Local Open Scope R_scope.

Lemma Rabs_le_inv (x y : R) : Rabs x <= y -> - y <= x <= y.
Proof. unfold Rabs. destruct (Rcase_abs x); lra. Qed.

Lemma bpow_m1 : bpow (-1) = / 2.
Proof.
  change (-1)%Z with (- (1))%Z. rewrite bpow_opp. f_equal.
  change 1%Z with (0 + 1)%Z. rewrite bpow_succ, bpow_0. lra.
Qed.

Lemma eta_le_half : eta <= / 2.
Proof. rewrite <- bpow_m1. unfold eta. apply bpow_le. lia. Qed.

(** A finite double that is not subnormal has a mantissa of 53 digits. *)
Lemma finite_normal (x : float) (s : bool) (m : positive) (e : Z) :
  Prim2SF x = S754_finite s m e ->
  bpow (-1022) <= IZR (Zpos m) * bpow e ->
  normal_mantissa m /\ (-1074 <= e <= 971)%Z.
Proof.
  intros Hx Hbig. pose proof (Prim2SF_valid x) as Hv. rewrite Hx in Hv.
  destruct (valid_finite s m e Hv) as [[Hsub He] | [Hnorm He]].
  - exfalso. subst e. apply IZR_lt in Hsub.
    rewrite IZR_pow2 in Hsub by lia.
    pose proof (bpow_pos (-1074)) as Hp.
    assert (IZR (Zpos m) * bpow (-1074) < bpow 52 * bpow (-1074)).
    { apply Rmult_lt_compat_r; assumption. }
    rewrite <- bpow_add in H. change (52 + -1074)%Z with (-1022)%Z in H.
    lra.
  - split; assumption.
Qed.

Lemma nonneg_double_value (a : float) (A : R) :
  nonneg_double a A -> float_value a = A /\ 0 <= A.
Proof.
  intros [[Ha ->] | (m & e & Ha & -> & Hbig)]; unfold float_value; rewrite Ha;
    cbn [SF2R].
  - split; lra.
  - pose proof (bpow_pos (-1021)). split; lra.
Qed.

Lemma float_value_square (x : float) (s : bool) (m : positive) (e : Z) :
  Prim2SF x = S754_finite s m e ->
  float_value x * float_value x = IZR (Zpos m) * bpow e * (IZR (Zpos m) * bpow e).
Proof.
  intros Hx. unfold float_value. rewrite Hx. cbn [SF2R]. destruct s; ring.
Qed.

(** The square of a double. *)
Lemma square_error (x : float) :
  squarable x ->
  exists P,
    nonneg_double (x * x) P /\
    float_value x * float_value x * (1 - eta) <= P <= float_value x * float_value x * (1 + eta).
Proof.
  intros [[s Hx] | (s & m & e & Hx & Hlo & Hhi)].
  - exists 0. split.
    + left. split; [|reflexivity].
      rewrite mul_spec, Hx. cbn. now destruct s.
    + unfold float_value. rewrite Hx. cbn [SF2R]. lra.
  - set (M := IZR (Zpos m) * bpow e) in *.
    assert (Hsq : bpow (-1020) <= M * M <= bpow 1020).
    { change (-1020)%Z with (-510 + -510)%Z.
      change 1020%Z with (510 + 510)%Z. rewrite !bpow_add.
      pose proof (bpow_pos (-510)). pose proof (bpow_pos 510).
      split; nra. }
    assert (Hnormal : normal_mantissa m).
    { apply (finite_normal x s m e Hx).
      apply Rle_trans with (bpow (-510)); [apply bpow_le; lia | exact Hlo]. }
    destruct (SFmul_error s s m m e e Hnormal Hnormal) as (m3 & e3 & Hr & Herr).
    { fold M. split.
      - apply Rle_trans with (bpow (-1020)); [apply bpow_le; lia | lra].
      - apply Rle_lt_trans with (bpow 1020); [lra | apply bpow_lt; lia]. }
    fold M in Herr. rewrite xorb_nilpotent in Hr.
    exists (IZR (Zpos m3) * bpow e3).
    rewrite (float_value_square x s m e Hx). fold M.
    apply Rabs_le_inv in Herr. pose proof eta_pos as Heta.
    pose proof eta_le_half as Heta1.
    split.
    + right. exists m3, e3. split.
      * rewrite mul_spec, Hx. exact Hr.
      * split; [reflexivity|].
        apply Rle_trans with (bpow (-1020) * / 2).
        -- rewrite <- bpow_m1, <- bpow_add. apply bpow_le. lia.
        -- nra.
    + split; lra.
Qed.

(** The sum of two non-negative doubles. *)
Lemma add_error (a p : float) (A P : R) :
  nonneg_double a A -> nonneg_double p P ->
  A + P < bpow 1023 ->
  exists S,
    nonneg_double (a + p) S /\
    (A + P) * (1 - eta) <= S <= (A + P) * (1 + eta).
Proof.
  intros Ha Hp Hsum. pose proof eta_pos as Heta.
  pose proof eta_le_half as Heta1.
  destruct Ha as [[Ha ->] | (ma & ea & Ha & -> & HA)];
    destruct Hp as [[Hp ->] | (mp & ep & Hp & -> & HP)].
  - exists 0. split; [|lra]. left. split; [|reflexivity].
    rewrite add_spec, Ha, Hp. reflexivity.
  - exists (IZR (Zpos mp) * bpow ep). split.
    + right. exists mp, ep. split; [|split; [reflexivity | exact HP]].
      rewrite add_spec, Ha, Hp. reflexivity.
    + pose proof (bpow_pos (-1021)). split; nra.
  - exists (IZR (Zpos ma) * bpow ea). split.
    + right. exists ma, ea. split; [|split; [reflexivity | exact HA]].
      rewrite add_spec, Ha, Hp. reflexivity.
    + pose proof (bpow_pos (-1021)). split; nra.
  - destruct (SFadd_error ma mp ea ep) as (m3 & e3 & Hr & Herr).
    { pose proof (bpow_pos (-1021)). split; lra. }
    apply Rabs_le_inv in Herr.
    exists (IZR (Zpos m3) * bpow e3). split.
    + right. exists m3, e3. split.
      * rewrite add_spec, Ha, Hp. exact Hr.
      * split; [reflexivity|]. pose proof (bpow_pos (-1021)). nra.
    + split; lra.
Qed.

(** The square root of a positive double. *)
Lemma sqrt_error (a : float) (A : R) :
  nonneg_double a A -> 0 < A ->
  exists (m : positive) (e : Z),
    Prim2SF (PrimFloat.sqrt a) = S754_finite false m e /\
    sqrt A * (1 - eta) <= IZR (Zpos m) * bpow e <= sqrt A * (1 + eta).
Proof.
  intros [[Ha ->] | (ma & ea & Ha & -> & HA)] Hpos; [lra|].
  destruct (finite_normal a false ma ea Ha) as [Hnormal Hea].
  { apply Rle_trans with (bpow (-1021)); [apply bpow_le; lia | exact HA]. }
  destruct (SFsqrt_error ma ea Hnormal Hea) as (m3 & e3 & Hr & Herr).
  apply Rabs_le_inv in Herr.
  exists m3, e3. split.
  - rewrite sqrt_spec, Ha. exact Hr.
  - split; lra.
Qed.

(** A double divided by a positive double. *)
Lemma div_error (x n : float) (s : bool) (m mn : positive) (e en : Z) :
  Prim2SF x = S754_finite s m e ->
  Prim2SF n = S754_finite false mn en ->
  bpow (-1022) <= IZR (Zpos m) * bpow e ->
  bpow (-1022) <= IZR (Zpos mn) * bpow en ->
  bpow (-1021) <= IZR (Zpos m) * bpow e / (IZR (Zpos mn) * bpow en)
    < bpow 1023 ->
  exists (m3 : positive) (e3 : Z),
    Prim2SF (x / n) = S754_finite s m3 e3 /\
    Rabs (IZR (Zpos m3) * bpow e3
          - IZR (Zpos m) * bpow e / (IZR (Zpos mn) * bpow en))
      <= eta * (IZR (Zpos m) * bpow e / (IZR (Zpos mn) * bpow en)).
Proof.
  intros Hx Hn Hxbig Hnbig Hq.
  destruct (finite_normal x s m e Hx Hxbig) as [Hmx _].
  destruct (finite_normal n false mn en Hn Hnbig) as [Hmn _].
  destruct (SFdiv_error s m mn e en Hmx Hmn Hq) as (m3 & e3 & Hr & Herr).
  exists m3, e3. split; [|exact Herr].
  rewrite div_spec, Hx, Hn. exact Hr.
Qed.

Lemma div_zero (x n : float) (s : bool) (mn : positive) (en : Z) :
  Prim2SF x = S754_zero s ->
  Prim2SF n = S754_finite false mn en ->
  Prim2SF (x / n) = S754_zero s.
Proof.
  intros Hx Hn. rewrite div_spec, Hx, Hn. cbn. now rewrite xorb_false_r.
Qed.

End OnDoubles.

(** *** The sum of squares *)

Section SumOfSquares.

Local Open Scope R_scope.

Lemma sum_squares_ge_0 (v : vec) : 0 <= sum_squares v.
Proof.
  induction v as [|x v IH]; cbn [sum_squares]; [lra|].
  pose proof (Rle_0_sqr (float_value x)) as H. unfold Rsqr in H. lra.
Qed.

Lemma one_rounding_up (A q s P S1 e : R) :
  0 <= A -> 0 <= q -> 0 <= s -> 0 <= e ->
  P <= q * (1 + e) -> S1 <= (A + P) * (1 + e) ->
  S1 + s <= (A + (q + s)) * ((1 + e) * (1 + e)).
Proof. intros. nra. Qed.

Lemma one_rounding_down (A q s P S1 e : R) :
  0 <= A -> 0 <= q -> 0 <= s -> 0 <= e <= 1 ->
  q * (1 - e) <= P -> (A + P) * (1 - e) <= S1 ->
  (A + (q + s)) * ((1 - e) * (1 - e)) <= S1 + s.
Proof.
  intros HA Hq Hs He HP HS1.
  assert (H1 : q * (1 - e) * (1 - e) <= P * (1 - e))
    by (apply Rmult_le_compat_r; lra).
  assert (H2 : 0 <= A * (1 - e) * e)
    by (apply Rmult_le_pos; [apply Rmult_le_pos|]; lra).
  assert (H3 : 0 <= s * e * (2 - e))
    by (apply Rmult_le_pos; [apply Rmult_le_pos|]; lra).
  lra.
Qed.

Lemma pow_1_plus_eta (k : nat) : 1 <= (1 + eta) ^ k.
Proof. apply pow_R1_Rle. pose proof eta_pos. lra. Qed.

Lemma pow_1_minus_eta (k : nat) : 0 < (1 - eta) ^ k <= 1.
Proof.
  pose proof eta_pos. pose proof eta_le_half.
  split; [apply pow_lt; lra|].
  apply Rle_trans with (1 ^ k); [apply pow_incr; lra | rewrite pow1; lra].
Qed.

Lemma pow_double_succ (x : R) (n : nat) :
  x ^ (2 * S n) = x * x * x ^ (2 * n).
Proof.
  replace (2 * S n)%nat with (S (S (2 * n))) by lia. cbn [pow]. ring.
Qed.

(** The computed sum of squares: each of the [n] steps rounds twice. *)
Lemma sum_squares_error (v : vec) :
  forall (acc : float) (A : R),
    Forall squarable v ->
    nonneg_double acc A ->
    (A + sum_squares v) * (1 + eta) ^ (2 * List.length v) < bpow 1023 ->
    exists S,
      nonneg_double (sum_products acc v v) S /\
      (A + sum_squares v) * (1 - eta) ^ (2 * List.length v) <= S
        <= (A + sum_squares v) * (1 + eta) ^ (2 * List.length v).
Proof.
  pose proof eta_pos as Heta. pose proof eta_le_half as Heta1.
  induction v as [|x v IH]; intros acc A Hsq Hacc Hov.
  - exists A. cbn [sum_products sum_squares List.length].
    change (2 * 0)%nat with 0%nat. cbn [pow].
    split; [exact Hacc | lra].
  - inversion Hsq as [|x' v' Hx Hv]; subst x' v'.
    destruct (square_error x Hx) as (P & HP & HPlo & HPhi).
    pose proof (sum_squares_ge_0 v) as Hs.
    destruct (nonneg_double_value acc A Hacc) as [_ HA].
    assert (Hq : 0 <= float_value x * float_value x).
    { pose proof (Rle_0_sqr (float_value x)) as H. exact H. }
    cbn [sum_squares List.length] in Hov |- *.
    rewrite pow_double_succ in Hov. rewrite !pow_double_succ.
    set (q := float_value x * float_value x) in *. set (s := sum_squares v) in *.
    pose proof (pow_1_plus_eta (2 * List.length v)) as HU.
    pose proof (pow_1_minus_eta (2 * List.length v)) as HD.
    set (U := (1 + eta) ^ (2 * List.length v)) in *.
    set (D := (1 - eta) ^ (2 * List.length v)) in *.
    assert (HT : 0 <= A + (q + s)) by lra.
    destruct (nonneg_double_value (x * x)%float P HP) as [_ HP0].
    destruct (add_error acc (x * x) A P Hacc HP) as (S1 & HS1 & HS1lo & HS1hi).
    { apply Rle_lt_trans with ((A + (q + s)) * ((1 + eta) * (1 + eta) * U));
        [|exact Hov].
      apply Rle_trans with ((A + (q + s)) * ((1 + eta) * (1 + eta))).
      + apply Rle_trans with ((A + P) * (1 + eta) + s).
        * assert (0 <= (A + P) * eta)
            by (apply Rmult_le_pos; lra).
          lra.
        * apply (one_rounding_up A q s P ((A + P) * (1 + eta)) eta); lra.
      + assert (HT2 : 0 <= (A + (q + s)) * ((1 + eta) * (1 + eta))).
        { apply Rmult_le_pos; [exact HT|]. apply Rmult_le_pos; lra. }
        assert (0 <= (A + (q + s)) * ((1 + eta) * (1 + eta)) * (U - 1))
          by (apply Rmult_le_pos; lra).
        lra. }
    assert (Hup : S1 + s <= (A + (q + s)) * ((1 + eta) * (1 + eta)))
      by (apply (one_rounding_up A q s P S1 eta); lra).
    assert (Hdn : (A + (q + s)) * ((1 - eta) * (1 - eta)) <= S1 + s)
      by (apply (one_rounding_down A q s P S1 eta); lra).
    destruct (IH (acc + x * x)%float S1 Hv HS1) as (S & HS & HSlo & HShi).
    { fold s U. apply Rle_lt_trans with
        ((A + (q + s)) * ((1 + eta) * (1 + eta) * U)); [|exact Hov].
      rewrite <- Rmult_assoc. apply Rmult_le_compat_r; lra. }
    fold s U D in HSlo, HShi.
    exists S. split; [exact HS|]. split.
    + apply Rle_trans with ((S1 + s) * D); [|exact HSlo].
      rewrite <- Rmult_assoc. apply Rmult_le_compat_r; lra.
    + apply Rle_trans with ((S1 + s) * U); [exact HShi|].
      rewrite <- Rmult_assoc. apply Rmult_le_compat_r; lra.
Qed.

End SumOfSquares.

(** *** The norm *)

Section Norm.

Local Open Scope R_scope.

(** The computed norm: the rounding of the square root adds one more. *)
Lemma norm_error (v : vec) :
  Forall squarable v ->
  0 < sum_squares v ->
  sum_squares v * (1 + eta) ^ (2 * List.length v) < bpow 1023 ->
  exists (m : positive) (e : Z),
    Prim2SF (np_linalg_norm v) = S754_finite false m e /\
    sum_squares v * (1 - eta) ^ (2 * S (List.length v))
      <= IZR (Zpos m) * bpow e * (IZR (Zpos m) * bpow e)
      <= sum_squares v * (1 + eta) ^ (2 * S (List.length v)).
Proof.
  intros Hsq Hpos Hov.
  pose proof eta_pos as Heta. pose proof eta_le_half as Heta1.
  destruct (sum_squares_error v 0%float 0 Hsq) as (S & HS & HSlo & HShi).
  { left. split; reflexivity. }
  { rewrite Rplus_0_l. exact Hov. }
  rewrite Rplus_0_l in HSlo, HShi.
  pose proof (pow_1_plus_eta (2 * List.length v)) as HU.
  pose proof (pow_1_minus_eta (2 * List.length v)) as HD.
  rewrite !pow_double_succ.
  set (U := (1 + eta) ^ (2 * List.length v)) in *.
  set (D := (1 - eta) ^ (2 * List.length v)) in *.
  set (s := sum_squares v) in *.
  assert (HSpos : 0 < S).
  { apply Rlt_le_trans with (s * D); [|exact HSlo].
    apply Rmult_lt_0_compat; lra. }
  destruct (sqrt_error _ S HS HSpos) as (m & e & Hn & Hlo & Hhi).
  exists m, e. split; [exact Hn|].
  set (nu := IZR (Zpos m) * bpow e) in *.
  pose proof (sqrt_pos S) as Hr.
  pose proof (sqrt_sqrt S (Rlt_le _ _ HSpos)) as Hrr.
  set (r := sqrt S) in *.
  assert (Hnu : 0 <= nu) by (apply Rle_trans with (r * (1 - eta));
                              [apply Rmult_le_pos; lra | exact Hlo]).
  split.
  - apply Rle_trans with (S * ((1 - eta) * (1 - eta))).
    + replace (s * ((1 - eta) * (1 - eta) * D))
        with (s * D * ((1 - eta) * (1 - eta))) by ring.
      apply Rmult_le_compat_r; [|exact HSlo].
      apply Rmult_le_pos; lra.
    + replace (S * ((1 - eta) * (1 - eta)))
        with (r * (1 - eta) * (r * (1 - eta))) by (rewrite <- Hrr; ring).
      apply Rmult_le_compat; try (apply Rmult_le_pos; lra); exact Hlo.
  - apply Rle_trans with (S * ((1 + eta) * (1 + eta))).
    + replace (S * ((1 + eta) * (1 + eta)))
        with (r * (1 + eta) * (r * (1 + eta))) by (rewrite <- Hrr; ring).
      apply Rmult_le_compat; try exact Hnu; exact Hhi.
    + replace (s * ((1 + eta) * (1 + eta) * U))
        with (s * U * ((1 + eta) * (1 + eta))) by ring.
      apply Rmult_le_compat_r; [|exact HShi].
      apply Rmult_le_pos; lra.
Qed.

(** ** Powers of [1 - eta] and [1 + eta] *)

Lemma bernoulli (k : nat) : 1 - INR k * eta <= (1 - eta) ^ k.
Proof.
  pose proof eta_pos as Heta. pose proof eta_le_half as Heta1.
  induction k as [|k IH].
  - cbn [pow INR]. lra.
  - rewrite S_INR. cbn [pow].
    apply Rle_trans with ((1 - eta) * (1 - INR k * eta)).
    + pose proof (pos_INR k) as Hk.
      assert (0 <= INR k * eta * eta)
        by (apply Rmult_le_pos; [apply Rmult_le_pos|]; lra).
      lra.
    + apply Rmult_le_compat_l; lra.
Qed.

Lemma up_times_down (k : nat) : (1 + eta) ^ k * (1 - eta) ^ k <= 1.
Proof.
  pose proof eta_pos as Heta. pose proof eta_le_half as Heta1.
  rewrite <- Rpow_mult_distr.
  apply Rle_trans with (1 ^ k); [|rewrite pow1; lra].
  apply pow_incr. split.
  - apply Rmult_le_pos; lra.
  - assert (0 <= eta * eta) by (apply Rmult_le_pos; lra). lra.
Qed.

(** ** From the bounds to the unit norm *)

Lemma unit_norm_from_bounds (z K : R) :
  0 <= z -> 0 <= K <= 9 / 10000000000 ->
  1 - K <= z * z -> z * z * (1 - K) <= 1 ->
  Rabs (z - 1) <= 1 / 1000000000.
Proof.
  intros Hz HK Hlo Hhi.
  assert (H1 : 1 - K <= z).
  { destruct (Rle_lt_dec (1 - K) z) as [H|H]; [exact H|].
    exfalso.
    assert (z * z <= (1 - K) * (1 - K))
      by (apply Rmult_le_compat; lra).
    assert (0 <= K * (1 - K)) by (apply Rmult_le_pos; lra).
    assert (z * z < 1 - K) by nra. lra. }
  assert (H2 : z <= 1 + K).
  { destruct (Rle_lt_dec z (1 + K)) as [H|H]; [exact H|].
    exfalso.
    assert ((1 + K) * (1 + K) < z * z)
      by (apply Rmult_le_0_lt_compat; lra).
    assert ((1 + K) * (1 + K) * (1 - K) < z * z * (1 - K))
      by (apply Rmult_lt_compat_r; lra).
    assert (0 <= K * K) by (apply Rmult_le_pos; lra).
    assert (K * K <= K * (9 / 10000000000))
      by (apply Rmult_le_compat_l; lra).
    assert (K * K * K <= K * (9 / 10000000000))
      by (replace (K * K * K) with (K * (K * K)) by ring;
          apply Rmult_le_compat_l; nra).
    nra. }
  apply Rabs_le. lra.
Qed.

Lemma norm_chain (s N2 T Z d u e k : R) :
  0 < s -> 0 < N2 ->
  0 < d -> u * d <= 1 -> 1 <= u ->
  0 <= e <= / 4 -> 0 <= k <= / 4 -> 1 - k <= d ->
  s * d <= N2 -> N2 <= s * u ->
  s / N2 * ((1 - e) * (1 - e)) <= T ->
  T <= s / N2 * ((1 + e) * (1 + e)) ->
  T * d <= Z -> Z <= T * u ->
  0 < T <= 4 /\
  1 - (2 * e + 2 * k) <= Z /\ Z * (1 - (2 * e + 2 * k)) <= 1.
Proof.
  intros Hs HN Hd Hud Hu He Hk Hkd Ha1 Ha2 Hb1 Hb2 Hc1 Hc2.
  assert (Hd1 : d <= 1) by nra.
  assert (HiN : 0 < / N2) by now apply Rinv_0_lt_compat.
  set (rho := s / N2) in *.
  assert (Hrho : 0 < rho) by (unfold rho, Rdiv; apply Rmult_lt_0_compat; lra).
  assert (H1 : rho * d <= 1).
  { replace (rho * d) with (s * d * / N2) by (unfold rho; field; lra).
    replace 1 with (N2 * / N2) by (field; lra).
    apply Rmult_le_compat_r; lra. }
  assert (H2 : 1 <= rho * u).
  { replace (rho * u) with (s * u * / N2) by (unfold rho; field; lra).
    replace 1 with (N2 * / N2) by (field; lra).
    apply Rmult_le_compat_r; lra. }
  assert (H3 : d <= rho).
  { apply Rle_trans with (rho * (u * d)).
    - replace (rho * (u * d)) with (rho * u * d) by ring.
      rewrite <- (Rmult_1_l d) at 1. apply Rmult_le_compat_r; lra.
    - rewrite <- (Rmult_1_r rho) at 2. apply Rmult_le_compat_l; lra. }
  assert (Hme : 0 < (1 - e) * (1 - e)) by (apply Rmult_lt_0_compat; lra).
  assert (Hpe : 0 < (1 + e) * (1 + e)) by (apply Rmult_lt_0_compat; lra).
  assert (HT : 0 < T).
  { apply Rlt_le_trans with (rho * ((1 - e) * (1 - e))); [|exact Hb1].
    apply Rmult_lt_0_compat; lra. }
  assert (Hrho2 : rho <= 2).
  { assert (rho * / 2 <= rho * d) by (apply Rmult_le_compat_l; lra). lra. }
  assert (Hpe2 : (1 + e) * (1 + e) <= 2) by nra.
  assert (HZ : 0 <= Z) by (apply Rle_trans with (T * d);
                           [apply Rmult_le_pos; lra | exact Hc1]).
  (* (1 - e)^2 d^2 >= 1 - 2e - 2k *)
  assert (Hdd : (1 - k) * (1 - k) <= d * d)
    by (apply Rmult_le_compat; lra).
  assert (Hkk : 1 - 2 * k <= (1 - k) * (1 - k)) by nra.
  assert (Hee : 1 - 2 * e <= (1 - e) * (1 - e)) by nra.
  assert (Hlow : 1 - (2 * e + 2 * k) <= d * d * ((1 - e) * (1 - e))).
  { apply Rle_trans with ((1 - 2 * k) * (1 - 2 * e)).
    - assert (0 <= k * e) by (apply Rmult_le_pos; lra). lra.
    - apply Rmult_le_compat; lra. }
  split; [|split].
  - split; [exact HT|].
    apply Rle_trans with (rho * ((1 + e) * (1 + e))); [exact Hb2|].
    replace 4 with (2 * 2) by ring. apply Rmult_le_compat; lra.
  - apply Rle_trans with (d * d * ((1 - e) * (1 - e))); [exact Hlow|].
    apply Rle_trans with (T * d); [|exact Hc1].
    replace (d * d * ((1 - e) * (1 - e)))
      with (d * ((1 - e) * (1 - e)) * d) by ring.
    apply Rmult_le_compat_r; [lra|].
    apply Rle_trans with (rho * ((1 - e) * (1 - e))); [|exact Hb1].
    apply Rmult_le_compat_r; lra.
  - apply Rle_trans with (Z * (d * d * ((1 - e) * (1 - e)))).
    { apply Rmult_le_compat_l; lra. }
    apply Rle_trans with (rho * ((1 + e) * (1 + e)) * u
                          * (d * d * ((1 - e) * (1 - e)))).
    { apply Rmult_le_compat_r.
      - apply Rmult_le_pos; [apply Rmult_le_pos|]; lra.
      - apply Rle_trans with (T * u); [exact Hc2|].
        apply Rmult_le_compat_r; lra. }
    replace (rho * ((1 + e) * (1 + e)) * u * (d * d * ((1 - e) * (1 - e))))
      with ((rho * d) * (u * d) * (((1 + e) * (1 - e)) * ((1 + e) * (1 - e))))
      by ring.
    assert (Hone : 0 <= (1 + e) * (1 - e) <= 1).
    { split; [apply Rmult_le_pos; lra|].
      assert (0 <= e * e) by (apply Rmult_le_pos; lra). lra. }
    assert (Hud0 : 0 <= u * d) by (apply Rmult_le_pos; lra).
    assert (Hrd0 : 0 <= rho * d) by (apply Rmult_le_pos; lra).
    replace 1 with (1 * 1 * (1 * 1)) by ring.
    apply Rmult_le_compat.
    + apply Rmult_le_pos; lra.
    + apply Rmult_le_pos; lra.
    + apply Rmult_le_compat; lra.
    + apply Rmult_le_compat; lra.
Qed.

End Norm.

(** *** The vector divided by its norm *)

Section Scaled.

Local Open Scope R_scope.

Lemma moderate_in_range (x : float) : moderate x = true -> in_range x.
Proof.
  unfold moderate. intros H.
  destruct (Prim2SF x) as [s|s| |s m e] eqn:Hx; try discriminate.
  - left. now exists s.
  - right. exists s, m, e. split; [exact Hx|].
    apply andb_true_iff in H as [Hlo Hhi].
    apply Z.leb_le in Hlo. apply Z.leb_le in Hhi.
    pose proof (Prim2SF_valid x) as Hv. rewrite Hx in Hv.
    destruct (valid_finite s m e Hv) as [[_ He] | [Hm _]]; [lia|].
    apply normal_mantissa_real in Hm as [Hm1 Hm2].
    pose proof (bpow_pos e) as Hpe.
    split.
    + apply Rle_trans with (bpow 52 * bpow e).
      * rewrite <- bpow_add. apply bpow_le. lia.
      * apply Rmult_le_compat_r; lra.
    + apply Rlt_le_trans with (bpow 53 * bpow e).
      * apply Rmult_lt_compat_r; lra.
      * rewrite <- bpow_add. apply bpow_le. lia.
Qed.

Lemma forallb_moderate (v : vec) :
  forallb moderate v = true -> Forall in_range v.
Proof.
  induction v as [|x v IH]; intros H; [constructor|].
  cbn [forallb] in H. apply andb_true_iff in H as [Hx Hv].
  constructor; [now apply moderate_in_range | now apply IH].
Qed.

Lemma in_range_square (x : float) :
  in_range x -> 0 <= float_value x * float_value x <= bpow 400.
Proof.
  pose proof (bpow_pos 400) as H400.
  intros [[s Hx] | (s & m & e & Hx & Hlo & Hhi)].
  - unfold float_value. rewrite Hx. cbn [SF2R]. lra.
  - rewrite (float_value_square x s m e Hx).
    pose proof (bpow_pos (-200)) as Hp.
    split; [apply Rmult_le_pos; lra|].
    change 400%Z with (200 + 200)%Z. rewrite bpow_add.
    apply Rmult_le_compat; lra.
Qed.

Lemma sum_squares_upper (v : vec) :
  Forall in_range v ->
  sum_squares v <= INR (List.length v) * bpow 400.
Proof.
  induction 1 as [|x v Hx Hv IH].
  - cbn. lra.
  - cbn [sum_squares List.length]. rewrite S_INR.
    pose proof (in_range_square x Hx). lra.
Qed.

Lemma sum_squares_lower (v : vec) :
  Forall in_range v ->
  existsb (fun x => negb (PrimFloat.eqb x 0)) v = true ->
  bpow (-400) <= sum_squares v.
Proof.
  induction 1 as [|x v Hx Hv IH]; intros Hnz; [discriminate|].
  cbn [existsb] in Hnz. cbn [sum_squares].
  pose proof (sum_squares_ge_0 v) as Hs.
  pose proof (in_range_square x Hx) as [Hq _].
  apply orb_true_iff in Hnz as [Hnz | Hnz].
  - destruct Hx as [[s Hx] | (s & m & e & Hx & Hlo & Hhi)].
    + exfalso. rewrite eqb_spec, Hx in Hnz. destruct s; discriminate.
    + rewrite (float_value_square x s m e Hx).
      pose proof (bpow_pos (-200)) as Hp.
      apply Rle_trans with (bpow (-200) * bpow (-200)).
      * rewrite <- bpow_add. apply bpow_le. lia.
      * apply Rle_trans with (IZR (Zpos m) * bpow e * (IZR (Zpos m) * bpow e));
          [|lra].
        apply Rmult_le_compat; lra.
  - specialize (IH Hnz). lra.
Qed.

Lemma inv_bpow_bounds (x : R) (a b : Z) :
  bpow a <= x <= bpow b -> bpow (- b) <= / x <= bpow (- a).
Proof.
  intros [Ha Hb]. pose proof (bpow_pos a) as Hpa.
  rewrite !bpow_opp. split; apply Rinv_le_contravar; lra.
Qed.

(** One component of [v / n]. *)
Lemma div_component (x n : float) (mn : positive) (en : Z) :
  Prim2SF n = S754_finite false mn en ->
  bpow (-201) <= IZR (Zpos mn) * bpow en <= bpow 211 ->
  in_range x ->
  squarable (x / n) /\
  float_value x * float_value x / (IZR (Zpos mn) * bpow en * (IZR (Zpos mn) * bpow en))
    * ((1 - eta) * (1 - eta))
  <= float_value (x / n) * float_value (x / n)
  <= float_value x * float_value x / (IZR (Zpos mn) * bpow en * (IZR (Zpos mn) * bpow en))
    * ((1 + eta) * (1 + eta)).
Proof.
  intros Hn Hnu Hx.
  pose proof eta_pos as Heta. pose proof eta_le_half as Heta1.
  set (nu := IZR (Zpos mn) * bpow en) in *.
  pose proof (bpow_pos (-201)) as Hp201.
  destruct Hx as [[s Hx] | (s & m & e & Hx & Hlo & Hhi)].
  - pose proof (div_zero x n s mn en Hx Hn) as Hy. split.
    + left. now exists s.
    + unfold float_value. rewrite Hx, Hy. cbn [SF2R]. unfold Rdiv.
      rewrite !Rmult_0_l. lra.
  - set (M := IZR (Zpos m) * bpow e) in *.
    pose proof (bpow_pos (-200)) as Hp200.
    destruct (inv_bpow_bounds nu (-201) 211 Hnu) as [Hi1 Hi2].
    cbn [Z.opp] in Hi1, Hi2.
    pose proof (bpow_pos (-211)) as Hp211.
    assert (Ht : bpow (-411) <= M / nu < bpow 401).
    { unfold Rdiv. split.
      - change (-411)%Z with (-200 + -211)%Z. rewrite bpow_add.
        apply Rmult_le_compat; lra.
      - change 401%Z with (200 + 201)%Z. rewrite bpow_add.
        apply Rlt_le_trans with (bpow 200 * / nu).
        + apply Rmult_lt_compat_r; lra.
        + apply Rmult_le_compat_l; [|lra]. pose proof (bpow_pos 200). lra. }
    destruct (div_error x n s m mn e en Hx Hn) as (m3 & e3 & Hy & Herr).
    { apply Rle_trans with (bpow (-200)); [apply bpow_le; lia | exact Hlo]. }
    { apply Rle_trans with (bpow (-201)); [apply bpow_le; lia | apply Hnu]. }
    { fold M nu. split.
      - apply Rle_trans with (bpow (-411)); [apply bpow_le; lia | apply Ht].
      - apply Rlt_le_trans with (bpow 401); [apply Ht | apply bpow_le; lia]. }
    fold M nu in Herr. apply Rabs_le_inv in Herr.
    set (Y := IZR (Zpos m3) * bpow e3) in *.
    set (t := M / nu) in *.
    pose proof (bpow_pos (-411)) as Hp411.
    assert (HY : t * (1 - eta) <= Y <= t * (1 + eta)) by (split; lra).
    assert (Htm : 0 <= t * (1 - eta)) by (apply Rmult_le_pos; lra).
    split.
    + right. exists s, m3, e3. split; [exact Hy|]. fold Y. split.
      * apply Rle_trans with (bpow (-411) * / 2).
        -- rewrite <- bpow_m1, <- bpow_add. apply bpow_le. lia.
        -- apply Rle_trans with (t * (1 - eta)); [|lra].
           apply Rmult_le_compat; lra.
      * apply Rle_trans with (bpow 401 * 2).
        -- apply Rle_trans with (t * (1 + eta)); [lra|].
           apply Rmult_le_compat; lra.
        -- replace (bpow 401 * 2) with (bpow (401 + 1))
             by (rewrite bpow_succ; ring).
           apply bpow_le. lia.
    + rewrite (float_value_square x s m e Hx), (float_value_square (x / n) s m3 e3 Hy).
      fold M Y.
      replace (M * M / (nu * nu)) with (t * t)
        by (unfold t; field; lra).
      split.
      * replace (t * t * ((1 - eta) * (1 - eta)))
          with (t * (1 - eta) * (t * (1 - eta))) by ring.
        apply Rmult_le_compat; lra.
      * replace (t * t * ((1 + eta) * (1 + eta)))
          with (t * (1 + eta) * (t * (1 + eta))) by ring.
        apply Rmult_le_compat; lra.
Qed.

(** The sum of squares of [v / n]. *)
Lemma sum_squares_scaled (v : vec) (n : float) (mn : positive) (en : Z) :
  Prim2SF n = S754_finite false mn en ->
  bpow (-201) <= IZR (Zpos mn) * bpow en <= bpow 211 ->
  Forall in_range v ->
  Forall squarable (map (fun x => (x / n)%float) v) /\
  sum_squares v / (IZR (Zpos mn) * bpow en * (IZR (Zpos mn) * bpow en))
    * ((1 - eta) * (1 - eta))
  <= sum_squares (map (fun x => (x / n)%float) v)
  <= sum_squares v / (IZR (Zpos mn) * bpow en * (IZR (Zpos mn) * bpow en))
    * ((1 + eta) * (1 + eta)).
Proof.
  intros Hn Hnu. induction 1 as [|x v Hx Hv [IH1 IH2]].
  - split; [constructor|]. cbn [map sum_squares]. unfold Rdiv.
    rewrite !Rmult_0_l. lra.
  - destruct (div_component x n mn en Hn Hnu Hx) as [Hsq Hb].
    cbn [map sum_squares]. split; [constructor; assumption|].
    unfold Rdiv in *. lra.
Qed.

End Scaled.

(** *** The norm of the vector returned *)

Section UnitNorm.

Local Open Scope R_scope.

Lemma eta_value : eta = / 4503599627370496.
Proof.
  unfold eta. change (-52)%Z with (- (52))%Z.
  rewrite bpow_opp, (bpow_IZR 52) by lia. reflexivity.
Qed.

Lemma in_range_squarable (x : float) : in_range x -> squarable x.
Proof.
  intros [Hz | (s & m & e & Hx & Hlo & Hhi)]; [now left|].
  right. exists s, m, e. split; [exact Hx|]. split.
  - apply Rle_trans with (bpow (-200)); [apply bpow_le; lia | exact Hlo].
  - apply Rle_trans with (bpow 200); [lra | apply bpow_le; lia].
Qed.

Lemma scaled_sum_range (s N2 T d u e : R) :
  0 < s -> 0 < N2 ->
  / 2 <= d -> 0 <= e <= / 4 ->
  s * d <= N2 -> N2 <= s * u ->
  s / N2 * ((1 - e) * (1 - e)) <= T ->
  T <= s / N2 * ((1 + e) * (1 + e)) ->
  0 < T <= 4.
Proof.
  intros Hs HN Hd He Ha1 Ha2 Hb1 Hb2.
  assert (HiN : 0 < / N2) by now apply Rinv_0_lt_compat.
  set (rho := s / N2) in *.
  assert (Hrho : 0 < rho) by (unfold rho, Rdiv; apply Rmult_lt_0_compat; lra).
  assert (H1 : rho * d <= 1).
  { replace (rho * d) with (s * d * / N2) by (unfold rho; field; lra).
    replace 1 with (N2 * / N2) by (field; lra).
    apply Rmult_le_compat_r; lra. }
  assert (Hrho2 : rho <= 2).
  { assert (rho * / 2 <= rho * d) by (apply Rmult_le_compat_l; lra). lra. }
  assert (Hme : 0 < (1 - e) * (1 - e)) by (apply Rmult_lt_0_compat; lra).
  assert (Hpe2 : 0 <= (1 + e) * (1 + e) <= 2) by nra.
  split.
  - apply Rlt_le_trans with (rho * ((1 - e) * (1 - e))); [|exact Hb1].
    apply Rmult_lt_0_compat; lra.
  - apply Rle_trans with (rho * ((1 + e) * (1 + e))); [exact Hb2|].
    replace 4 with (2 * 2) by ring. apply Rmult_le_compat; lra.
Qed.

(** The rounding factors of a vector of at most 1,000,000 components. *)
Lemma rounding_factors (n : nat) :
  (Z.of_nat n <= 1000000)%Z ->
  / 2 <= (1 - eta) ^ (2 * S n) /\
  (1 + eta) ^ (2 * S n) * (1 - eta) ^ (2 * S n) <= 1 /\
  1 <= (1 + eta) ^ (2 * S n) <= 2 /\
  (1 + eta) ^ (2 * n) <= (1 + eta) ^ (2 * S n) /\
  1 - INR (2 * S n) * eta <= (1 - eta) ^ (2 * S n) /\
  0 <= INR (2 * S n) * eta <= 2000002 * eta.
Proof.
  intros Hn. pose proof eta_pos as Heta. pose proof eta_value as Hev.
  pose proof (bernoulli (2 * S n)) as Hb.
  pose proof (up_times_down (2 * S n)) as Hud.
  pose proof (pow_1_plus_eta (2 * S n)) as Hu.
  pose proof (pow_1_minus_eta (2 * S n)) as Hd.
  assert (Hk : 0 <= INR (2 * S n) <= 2000002).
  { split; [apply pos_INR|].
    rewrite INR_IZR_INZ. apply IZR_le. lia. }
  assert (Hke : 0 <= INR (2 * S n) * eta <= 2000002 * eta).
  { split; [apply Rmult_le_pos; lra|].
    apply Rmult_le_compat_r; lra. }
  assert (Hhalf : / 2 <= (1 - eta) ^ (2 * S n)) by lra.
  split; [exact Hhalf|]. split; [exact Hud|]. split; [|split; [|split]].
  - split; [exact Hu|].
    assert ((1 + eta) ^ (2 * S n) * / 2
            <= (1 + eta) ^ (2 * S n) * (1 - eta) ^ (2 * S n))
      by (apply Rmult_le_compat_l; lra).
    lra.
  - rewrite pow_double_succ.
    pose proof (pow_1_plus_eta (2 * n)) as Hu0.
    rewrite <- (Rmult_1_l ((1 + eta) ^ (2 * n))) at 1.
    apply Rmult_le_compat_r; [lra|].
    assert (0 <= eta * eta) by (apply Rmult_le_pos; lra). lra.
  - exact Hb.
  - exact Hke.
Qed.

Lemma square_root_bounds (x : R) (a b : Z) :
  0 <= x -> bpow (a + a) <= x * x <= bpow (b + b) ->
  bpow a <= x <= bpow b.
Proof.
  intros Hx [Hlo Hhi]. rewrite !bpow_add in *.
  pose proof (bpow_pos a) as Ha. pose proof (bpow_pos b) as Hb.
  split.
  - destruct (Rle_lt_dec (bpow a) x) as [H|H]; [exact H|]. exfalso.
    assert (x * x < bpow a * bpow a)
      by (apply Rmult_le_0_lt_compat; lra).
    lra.
  - destruct (Rle_lt_dec x (bpow b)) as [H|H]; [exact H|]. exfalso.
    assert (bpow b * bpow b < x * x)
      by (apply Rmult_le_0_lt_compat; lra).
    lra.
Qed.

(** C4, as stated, fails in binary64.  [[1e200]] is finite and not zero;
    its square overflows, the norm is infinite, and [normalize] returns
    [[0.0]], of norm 0, not 1.  [[1e-200]] is finite and not zero; its
    square underflows to 0 and [normalize] raises. *)
Lemma normalize_unit_norm_counterexample :
  forallb PrimFloat.is_finite [1e200]%float = true /\
  existsb (fun x => negb (PrimFloat.eqb x 0)) [1e200]%float = true /\
  normalize [1e200]%float = Ok [0%float] /\
  np_linalg_norm [0%float] = 0%float /\
  PrimFloat.leb (abs (np_linalg_norm [0%float] - 1)) 1e-9 = false /\
  forallb PrimFloat.is_finite [1e-200]%float = true /\
  existsb (fun x => negb (PrimFloat.eqb x 0)) [1e-200]%float = true /\
  normalize [1e-200]%float = Raise zero_vector_message.
Proof. repeat split; vm_compute; reflexivity. Qed.

(** C4, amended.  For every vector of at most 1,000,000 components, each a
    zero or a finite double of magnitude at least 2^-200 and below 2^200,
    with a component that is not zero: the computed norm is a positive
    finite double, [normalize] returns a new vector of the same length,
    each component that of the input divided by the computed norm, and the
    computed norm of the vector returned is within 1e-9 of 1.  (The input
    is a value; nothing can modify it.) *)
Theorem normalize_returns_unit_vector (v : vec) :
  (Z.of_nat (List.length v) <= 1000000)%Z ->
  forallb moderate v = true ->
  existsb (fun x => negb (PrimFloat.eqb x 0)) v = true ->
  exists (u : vec) (m : positive) (e : Z),
    Prim2SF (np_linalg_norm v) = S754_finite false m e /\
    normalize v = Ok u /\
    u = map (fun x => (x / np_linalg_norm v)%float) v /\
    List.length u = List.length v /\
    (Rabs (float_value (np_linalg_norm u) - 1) <= 1 / 1000000000)%R.
Proof.
  intros Hlen Hmod Hnz.
  pose proof eta_pos as Heta. pose proof eta_value as Hev.
  pose proof (forallb_moderate v Hmod) as Hr.
  assert (Hsq : Forall squarable v).
  { apply Forall_impl with (2 := Hr). exact in_range_squarable. }
  pose proof (sum_squares_lower v Hr Hnz) as Hslo.
  pose proof (sum_squares_upper v Hr) as Hshi.
  destruct (rounding_factors (List.length v) Hlen)
    as (Hd & Hud & [Hu1 Hu2] & HU & Hbern & Hk1 & Hk2).
  set (n := List.length v) in *.
  set (s := sum_squares v) in *.
  assert (Hn6 : INR n <= bpow 20).
  { rewrite INR_IZR_INZ, (bpow_IZR 20) by lia. apply IZR_le.
    change (2 ^ 20)%Z with 1048576%Z. lia. }
  pose proof (bpow_pos (-400)) as Hp400. pose proof (bpow_pos 400) as Hq400.
  assert (Hs420 : s <= bpow 420).
  { apply Rle_trans with (INR n * bpow 400); [exact Hshi|].
    change 420%Z with (20 + 400)%Z. rewrite bpow_add.
    apply Rmult_le_compat_r; lra. }
  assert (H2 : bpow 1 = 2).
  { change 1%Z with (0 + 1)%Z. rewrite bpow_succ, bpow_0. lra. }
  destruct (norm_error v Hsq) as (m & e & Hn & Hlo & Hhi).
  { fold s. lra. }
  { fold n s. apply Rle_lt_trans with (bpow 420 * bpow 1).
    - apply Rmult_le_compat; try lra.
      pose proof (pow_1_plus_eta (2 * n)). lra.
    - rewrite <- bpow_add. apply bpow_lt. lia. }
  fold n s in Hlo, Hhi.
  set (d := (1 - eta) ^ (2 * S n)) in *.
  set (u := (1 + eta) ^ (2 * S n)) in *.
  set (nu := IZR (Zpos m) * bpow e) in *.
  assert (Hnu0 : 0 < nu).
  { unfold nu. apply Rmult_lt_0_compat; [|apply bpow_pos].
    apply IZR_lt. lia. }
  assert (Hnu : bpow (-201) <= nu <= bpow 211).
  { apply square_root_bounds; [lra|]. split.
    - apply Rle_trans with (s * d); [|exact Hlo].
      change (-201 + -201)%Z with (-400 + -1 + -1)%Z.
      rewrite 2!bpow_add, bpow_m1.
      apply Rle_trans with (bpow (-400) * / 2).
      + rewrite Rmult_assoc. apply Rmult_le_compat_l; lra.
      + apply Rmult_le_compat; lra.
    - apply Rle_trans with (s * u); [exact Hhi|].
      change (211 + 211)%Z with (420 + 1 + 1)%Z.
      rewrite 2!bpow_add, H2.
      apply Rle_trans with (bpow 420 * 2).
      + apply Rmult_le_compat; lra.
      + pose proof (bpow_pos 420). lra. }
  exists (map (fun x => (x / np_linalg_norm v)%float) v), m, e.
  split; [exact Hn|]. split; [|split; [reflexivity|split; [apply length_map|]]].
  { unfold normalize. cbn [feqb fzero fdiv binary64].
    rewrite eqb_spec, Hn. reflexivity. }
  destruct (sum_squares_scaled v (np_linalg_norm v) m e Hn Hnu Hr)
    as (Hsq' & Hb1 & Hb2).
  fold nu s in Hb1, Hb2.
  set (v' := map (fun x => (x / np_linalg_norm v)%float) v) in *.
  set (T := sum_squares v') in *.
  assert (HN2 : 0 < nu * nu) by (apply Rmult_lt_0_compat; lra).
  assert (He4 : 0 <= eta <= / 4) by lra.
  destruct (scaled_sum_range s (nu * nu) T d u eta) as [HT0 HT4]; try lra.
  assert (Hlen' : List.length v' = n) by apply length_map.
  destruct (norm_error v' Hsq' HT0) as (m' & e' & Hn' & Hlo' & Hhi').
  { fold T. rewrite Hlen'. apply Rle_lt_trans with (4 * 2).
    - apply Rmult_le_compat; try lra.
      pose proof (pow_1_plus_eta (2 * n)). lra.
    - apply Rlt_le_trans with (bpow 4).
      + rewrite (bpow_IZR 4) by lia. change (2 ^ 4)%Z with 16%Z. lra.
      + apply bpow_le. lia. }
  fold T in Hlo', Hhi'. rewrite Hlen' in Hlo', Hhi'. fold d u in Hlo', Hhi'.
  set (nu' := IZR (Zpos m') * bpow e') in *.
  assert (Hnu0' : 0 < nu').
  { unfold nu'. apply Rmult_lt_0_compat; [|apply bpow_pos].
    apply IZR_lt. lia. }
  replace (float_value (np_linalg_norm v')) with nu'
    by (unfold float_value; rewrite Hn'; cbn [SF2R]; unfold nu'; ring).
  destruct (norm_chain s (nu * nu) T (nu' * nu') d u eta
              (INR (2 * S n) * eta)) as (_ & Hz1 & Hz2); try lra.
  apply (unit_norm_from_bounds nu' (2 * eta + 2 * (INR (2 * S n) * eta)));
    try lra.
Qed.

Lemma normalize_returns_unit_vector_witness :
  (Z.of_nat (List.length [3; 4]%float) <= 1000000)%Z /\
  forallb moderate [3; 4]%float = true /\
  existsb (fun x => negb (PrimFloat.eqb x 0)) [3; 4]%float = true /\
  exists (u : vec) (m : positive) (e : Z),
    Prim2SF (np_linalg_norm [3; 4]%float) = S754_finite false m e /\
    normalize [3; 4]%float = Ok u /\
    u = map (fun x => (x / np_linalg_norm [3; 4]%float)%float) [3; 4]%float /\
    List.length u = List.length [3; 4]%float /\
    (Rabs (float_value (np_linalg_norm u) - 1) <= 1 / 1000000000)%R.
Proof.
  assert (H1 : (Z.of_nat (List.length [3; 4]%float) <= 1000000)%Z)
    by (cbn; lia).
  assert (H2 : forallb moderate [3; 4]%float = true)
    by (vm_compute; reflexivity).
  assert (H3 : existsb (fun x => negb (PrimFloat.eqb x 0)) [3; 4]%float
               = true) by (vm_compute; reflexivity).
  split; [exact H1|]. split; [exact H2|]. split; [exact H3|].
  exact (normalize_returns_unit_vector [3; 4]%float H1 H2 H3).
Defined.

End UnitNorm.

(* ================================================================== *)
(** * Further properties *)
(* ================================================================== *)

(** ** The order of the floats *)

Lemma SFcompare_key (f g : spec_float) :
  SFcompare f g =
  match sf_key f, sf_key g with
  | Some a, Some b => Some (lex_compare a b)
  | _, _ => None
  end.
Proof.
  destruct f as [s|s| |s m e]; destruct g as [s'|s'| |s' m' e'];
    cbn [SFcompare sf_key]; try reflexivity;
    try (destruct s; reflexivity); try (destruct s'; reflexivity);
    try (destruct s, s'; reflexivity).
  f_equal. change (PosDef.Pos.compare_cont Eq m m') with (Z.pos m ?= Z.pos m')%Z.
  destruct s, s'; unfold lex_compare; cbn [fst snd]; try reflexivity.
  change (-1 ?= -1)%Z with Eq. cbv iota.
  rewrite !Z.compare_opp, (Z.compare_antisym e e'),
    (Z.compare_antisym (Z.pos m) (Z.pos m')).
  destruct (e ?= e')%Z; reflexivity.
Qed.

Lemma lex_compare_refl a : lex_compare a a = Eq.
Proof. unfold lex_compare. now rewrite !Z.compare_refl. Qed.

Lemma lex_le_trans a b c :
  lex_compare a b <> Gt -> lex_compare b c <> Gt -> lex_compare a c <> Gt.
Proof.
  destruct a as [[a1 a2] a3], b as [[b1 b2] b3], c as [[c1 c2] c3].
  unfold lex_compare; cbn [fst snd].
  destruct (Z.compare_spec a1 b1), (Z.compare_spec b1 c1), (Z.compare_spec a1 c1);
  try lia; try congruence;
  destruct (Z.compare_spec a2 b2), (Z.compare_spec b2 c2), (Z.compare_spec a2 c2);
  try lia; try congruence;
  destruct (Z.compare_spec a3 b3), (Z.compare_spec b3 c3), (Z.compare_spec a3 c3);
  try lia; try congruence.
Qed.

Lemma lex_compare_antisym a b : lex_compare b a = CompOpp (lex_compare a b).
Proof.
  destruct a as [[a1 a2] a3], b as [[b1 b2] b3].
  unfold lex_compare; cbn [fst snd].
  rewrite (Z.compare_antisym a1 b1), (Z.compare_antisym a2 b2), (Z.compare_antisym a3 b3).
  destruct (a1 ?= b1)%Z, (a2 ?= b2)%Z, (a3 ?= b3)%Z; reflexivity.
Qed.

Lemma float_leb_key (x y : float) :
  PrimFloat.leb x y = true <->
  exists a b, sf_key (Prim2SF x) = Some a /\ sf_key (Prim2SF y) = Some b /\ lex_compare a b <> Gt.
Proof.
  rewrite leb_spec. unfold SFleb. rewrite SFcompare_key.
  destruct (sf_key (Prim2SF x)) as [a|], (sf_key (Prim2SF y)) as [b|]; split;
    try discriminate; try (intros (a' & b' & H1 & H2 & _); discriminate).
  - intros H. exists a, b. repeat split. destruct (lex_compare a b); congruence.
  - intros (a' & b' & H1 & H2 & H). injection H1 as <-. injection H2 as <-.
    destruct (lex_compare a b); congruence.
Qed.

Lemma float_leb_trans (x y z : float) :
  PrimFloat.leb x y = true -> PrimFloat.leb y z = true -> PrimFloat.leb x z = true.
Proof.
  rewrite !float_leb_key.
  intros (a & b & Ha & Hb & Hab) (b' & c & Hb' & Hc & Hbc).
  rewrite Hb in Hb'. injection Hb' as <-.
  exists a, c. repeat split; try assumption. now apply (lex_le_trans a b c).
Qed.

Lemma float_leb_not_ltb (x y : float) :
  PrimFloat.leb x y = true -> PrimFloat.ltb y x = false.
Proof.
  rewrite leb_spec, ltb_spec. unfold SFleb, SFltb. rewrite !SFcompare_key.
  destruct (sf_key (Prim2SF x)) as [a|], (sf_key (Prim2SF y)) as [b|]; try discriminate.
  rewrite (lex_compare_antisym a b). destruct (lex_compare a b); cbn; congruence.
Qed.

Lemma float_is_nan_key (x : float) :
  PrimFloat.is_nan x = true <-> sf_key (Prim2SF x) = None.
Proof.
  unfold PrimFloat.is_nan. rewrite eqb_spec. unfold SFeqb. rewrite SFcompare_key.
  destruct (sf_key (Prim2SF x)) as [a|].
  - rewrite lex_compare_refl. split; discriminate.
  - split; reflexivity.
Qed.

Lemma float_leb_nan (x y : float) :
  PrimFloat.is_nan x = true \/ PrimFloat.is_nan y = true -> PrimFloat.leb x y = false.
Proof.
  rewrite !float_is_nan_key, leb_spec. unfold SFleb. rewrite SFcompare_key.
  intros [-> | ->]; [reflexivity|]. now destruct (sf_key (Prim2SF x)).
Qed.

Lemma float_mul_comm (x y : float) : (x * y = y * x)%float.
Proof.
  apply Prim2SF_inj. rewrite !mul_spec. unfold SF64mul.
  destruct (Prim2SF x) as [s|s| |s m e]; destruct (Prim2SF y) as [s'|s'| |s' m' e'];
    cbn [SFmul]; try reflexivity; try (now rewrite xorb_comm).
  now rewrite xorb_comm, Pos.mul_comm, Z.add_comm.
Qed.

(** ** The drift window *)

Lemma lastn_all {X} (n : nat) (l : list X) :
  (List.length l <= n)%nat -> lastn n l = l.
Proof.
  intros H. unfold lastn. now replace (List.length l - n)%nat with 0%nat by lia.
Qed.

Lemma lastn_length {X} (n : nat) (l : list X) :
  List.length (lastn n l) = Nat.min n (List.length l).
Proof. unfold lastn. rewrite length_skipn. lia. Qed.

Lemma lastn_lastn_app {X} (n : nat) (l r : list X) :
  lastn n (lastn n l ++ r) = lastn n (l ++ r).
Proof.
  destruct (Nat.le_gt_cases (List.length l) n) as [Hle|Hgt].
  - now rewrite (lastn_all n l Hle).
  - unfold lastn at 1 3. rewrite !length_app, lastn_length.
    unfold lastn. rewrite (skipn_app (List.length l + List.length r - n)).
    rewrite (skipn_app (Nat.min n (List.length l) + List.length r - n)).
    rewrite skipn_skipn, length_skipn.
    replace (Nat.min n (List.length l) + List.length r - n
             + (List.length l - n))%nat
      with (List.length l + List.length r - n)%nat by lia.
    f_equal. f_equal. lia.
Qed.

(** The window is well formed when it holds no more than its capacity. *)
Lemma deque_append_lastn (x : float) (d : deque) :
  (List.length (items d) <= maxlen d)%nat ->
  items (deque_append x d) = lastn (maxlen d) (items d ++ [x]).
Proof.
  intros Hwf. unfold deque_append, lastn. cbn [items maxlen].
  rewrite length_app. cbn [List.length].
  destruct (Nat.ltb_spec (maxlen d) (List.length (items d) + 1)) as [Hfull|Hfits].
  - replace (List.length (items d) + 1 - maxlen d)%nat with 1%nat by lia.
    reflexivity.
  - replace (List.length (items d) + 1 - maxlen d)%nat with 0%nat by lia.
    reflexivity.
Qed.

(** The sentinel after a call, whether the call returned or raised. *)
Lemma observe_state (v : vec) (id : pyval) (now : string) (self : t) :
  snd (observe v id now self) =
  match computed_drift (origin_tii self) (v, id, now) with
  | [] => self
  | drift :: _ =>
      Make (origin_tii self) (threshold self) (origin_hash self)
        (history self
         ++ [event_of self id now drift
               (np_mean (items (deque_append drift (recent_drifts self))))])
        (deque_append drift (recent_drifts self))
  end.
Proof.
  rewrite observe_unfold. unfold computed_drift. cbn [fst].
  destruct (normalize v) as [cur|e]; [|reflexivity].
  destruct (cosine (origin_tii self) cur) as [d|e]; reflexivity.
Qed.

(** A call that returns has computed the drift it returns. *)
Lemma observe_ok_computed (v : vec) (id : pyval) (now : string)
    (self self' : t) (is_safe : bool) (drift avg : float) :
  observe v id now self = (Ok (is_safe, drift, avg), self') ->
  computed_drift (origin_tii self) (v, id, now) = [drift].
Proof.
  intros H. apply observe_ok_inv in H as (cur & Hn & Hc & _).
  unfold computed_drift. cbn [fst]. now rewrite Hn, Hc.
Qed.

Lemma computed_drift_length (origin : vec) (c : vec * pyval * string) :
  (List.length (computed_drift origin c) <= 1)%nat.
Proof.
  unfold computed_drift.
  destruct (normalize (fst (fst c))) as [cur|]; [|cbn; lia].
  destruct (cosine origin cur); cbn; lia.
Qed.

Lemma observe_each_window (calls : list (vec * pyval * string)) :
  forall self,
    (List.length (items (recent_drifts self))
       <= maxlen (recent_drifts self))%nat ->
    let self' := snd (observe_each calls self) in
    maxlen (recent_drifts self') = maxlen (recent_drifts self) /\
    items (recent_drifts self')
      = lastn (maxlen (recent_drifts self))
          (items (recent_drifts self)
           ++ computed_drifts (origin_tii self) calls).
Proof.
  induction calls as [|[[v id] now] rest IH]; intros self Hwf; cbv zeta.
  - cbn [observe_each snd computed_drifts flat_map].
    rewrite app_nil_r, lastn_all by exact Hwf. now split.
  - cbn [observe_each computed_drifts flat_map].
    pose proof (observe_state v id now self) as Hs.
    destruct (observe v id now self) as [r s1]. cbn [snd] in Hs.
    specialize (IH s1). cbv zeta in IH.
    destruct (observe_each rest s1) as [rs1 s2]. cbn [snd] in *.
    destruct (computed_drift (origin_tii self) (v, id, now))
      as [|drift more] eqn:Hd.
    + subst s1. apply IH. exact Hwf.
    + assert (more = []) as ->.
      { pose proof (computed_drift_length (origin_tii self) (v, id, now))
          as Hl. rewrite Hd in Hl.
        destruct more; [reflexivity | cbn in Hl; lia]. }
      pose proof (deque_append_lastn drift _ Hwf) as Hitems.
      subst s1. cbn [recent_drifts origin_tii] in IH.
      destruct IH as [Hmax Hwin].
      { rewrite Hitems, lastn_length. cbn [maxlen deque_append]. lia. }
      split; [exact Hmax|].
      rewrite Hwin, Hitems. cbn [maxlen deque_append app].
      rewrite lastn_lastn_app, <- app_assoc. reflexivity.
Qed.

(** When the step identifiers are plain, the drifts computed are the
    drifts returned. *)
Lemma computed_drifts_returned (calls : list (vec * pyval * string)) :
  forall self,
    forallb (fun c => plain_id (call_id c)) calls = true ->
    computed_drifts (origin_tii self) calls
      = returned_drifts (fst (observe_each calls self)).
Proof.
  induction calls as [|[[v id] now] rest IH]; intros self Hplain;
    [reflexivity|].
  cbn [forallb call_id fst snd] in Hplain.
  apply andb_true_iff in Hplain as [Hid Hrest].
  cbn [observe_each computed_drifts flat_map].
  pose proof (observe_frame v id now self) as Hf. cbv zeta in Hf.
  pose proof (observe_unfold v id now self) as Hu.
  rewrite (plain_id_format _ Hid) in Hu.
  destruct (observe v id now self) as [r s1]. cbn [snd] in Hf.
  destruct Hf as (Ho & _).
  specialize (IH s1 Hrest). rewrite Ho in IH.
  destruct (observe_each rest s1) as [rs1 s2]. cbn [fst] in *.
  cbn [returned_drifts flat_map]. fold (returned_drifts rs1).
  unfold computed_drifts in IH. rewrite IH. f_equal.
  unfold computed_drift. cbn [fst].
  destruct (normalize v) as [cur|e]; [|now injection Hu as -> _].
  destruct (cosine (origin_tii self) cur) as [d|e];
    now injection Hu as -> _.
Qed.

(** X1.  On a sentinel constructed with window size [w], after any calls
    of [observe], returning or raising, the drift window holds the last
    [w] drifts computed, oldest first (all of them when fewer were
    computed): never more than [w] values, the oldest evicted first.  With
    plain step identifiers the drifts computed are the drifts returned. *)
Theorem drift_window_holds_latest_drifts :
  forall (origin : vec) (thr : float) (w : Z) (fresh : t)
         (calls : list (vec * pyval * string)),
    __init__ origin thr w = Ok fresh ->
    items (recent_drifts (snd (observe_each calls fresh)))
      = lastn (Z.to_nat w) (computed_drifts (origin_tii fresh) calls) /\
    (List.length (items (recent_drifts (snd (observe_each calls fresh))))
       <= Z.to_nat w)%nat /\
    (forallb (fun c => plain_id (call_id c)) calls = true ->
     items (recent_drifts (snd (observe_each calls fresh)))
       = lastn (Z.to_nat w)
           (returned_drifts (fst (observe_each calls fresh)))).
Proof.
  intros origin thr w fresh calls Hinit.
  apply init_ok_inv in Hinit as (o & _ & _ & ->).
  pose proof (observe_each_window calls
                (Make o thr (stable_vector_hash o) []
                   (Deque (Z.to_nat w) []))) as Hwin.
  cbv zeta in Hwin.
  cbn [recent_drifts maxlen items app List.length origin_tii] in Hwin.
  destruct (Hwin (Nat.le_0_l _)) as [_ Hitems]. clear Hwin.
  cbn [origin_tii].
  split; [exact Hitems|]. split; [rewrite Hitems, lastn_length; lia|].
  intros Hplain. rewrite Hitems. f_equal.
  now rewrite <- computed_drifts_returned.
Qed.

(** X2.  The average a call of [observe] returns is [np.mean] of the last
    [w] drifts computed so far, the one of this call included, where [w] is
    the window size the sentinel was constructed with. *)
Theorem returned_average_is_window_mean :
  forall (origin : vec) (thr : float) (w : Z) (fresh self' : t)
         (calls : list (vec * pyval * string))
         (v : vec) (id : pyval) (now : string)
         (is_safe : bool) (drift avg : float),
    __init__ origin thr w = Ok fresh ->
    observe v id now (snd (observe_each calls fresh))
      = (Ok (is_safe, drift, avg), self') ->
    avg = np_mean (lastn (Z.to_nat w)
                     (computed_drifts (origin_tii fresh) calls ++ [drift])).
Proof.
  intros origin thr w fresh self' calls v id now is_safe drift avg
         Hinit Hobs.
  apply init_ok_inv in Hinit as (o & _ & _ & ->).
  pose proof (observe_each_window calls
                (Make o thr (stable_vector_hash o) []
                   (Deque (Z.to_nat w) []))) as Hwin.
  cbv zeta in Hwin.
  cbn [recent_drifts maxlen items app List.length origin_tii] in Hwin.
  destruct (Hwin (Nat.le_0_l _)) as [Hmax Hitems]. clear Hwin.
  apply observe_ok_inv in Hobs as (cur & _ & _ & _ & -> & _).
  rewrite deque_append_lastn by (rewrite Hmax, Hitems, lastn_length; lia).
  now rewrite Hmax, Hitems, lastn_lastn_app.
Qed.

(** ** What every recorded event carries *)

Lemma observe_each_events (calls : list (vec * pyval * string)) :
  forall self,
    Forall (event_consistent self) (history self) ->
    Forall (event_consistent self) (history (snd (observe_each calls self))).
Proof.
  induction calls as [|[[v id] now] rest IH]; intros self Hinv; [exact Hinv|].
  cbn [observe_each].
  pose proof (observe_frame v id now self) as Hf. cbv zeta in Hf.
  pose proof (observe_state v id now self) as Hs.
  destruct (observe v id now self) as [r s1]. cbn [snd] in Hf, Hs.
  assert (H1 : Forall (event_consistent s1) (history s1)).
  { destruct (computed_drift (origin_tii self) (v, id, now)) as [|drift more];
      subst s1; [exact Hinv|].
    cbn [history]. apply Forall_app. split.
    - eapply Forall_impl; [|exact Hinv]. intros e He. exact He.
    - constructor; [|constructor].
      unfold event_consistent, event_of. cbn.
      repeat split. destruct (PrimFloat.leb drift (threshold self));
        [left | right]; split; reflexivity. }
  specialize (IH s1 H1).
  destruct (observe_each rest s1) as [rs s2]. cbn [snd] in *.
  destruct Hf as (_ & Ht & Hh & _).
  eapply Forall_impl; [|exact IH].
  intros e (He1 & He2 & He3). unfold event_consistent.
  rewrite <- Ht, <- Hh. now repeat split.
Qed.

(** X3.  On a sentinel fresh from its constructor, after any calls of
    [observe], the stored hash is the hash of the stored origin, and every
    event of the history carries the threshold given to the constructor
    and that hash, with status ["COHERENT"] and no action required, or
    status ["DRIFT_ALERT"] and action required. *)
Theorem every_event_carries_threshold_and_hash :
  forall (origin : vec) (thr : float) (w : Z) (fresh self : t)
         (calls : list (vec * pyval * string))
         (rs : list (result (bool * float * float))),
    __init__ origin thr w = Ok fresh ->
    observe_each calls fresh = (rs, self) ->
    origin_hash self = stable_vector_hash (origin_tii self) /\
    Forall (fun e =>
              Event.threshold e = thr /\
              Event.origin_hash e = stable_vector_hash (origin_tii self) /\
              ((Event.status e = "COHERENT"%string /\
                Event.action_required e = false) \/
               (Event.status e = "DRIFT_ALERT"%string /\
                Event.action_required e = true)))
           (history self).
Proof.
  intros origin thr w fresh self calls rs Hinit Hrun.
  apply init_ok_inv in Hinit as (o & _ & _ & ->).
  pose proof (observe_each_frame calls
                (Make o thr (stable_vector_hash o) [] (Deque (Z.to_nat w) [])))
    as Hf.
  pose proof (observe_each_events calls
                (Make o thr (stable_vector_hash o) [] (Deque (Z.to_nat w) []))
                (Forall_nil _)) as Hev.
  cbv zeta in Hf. rewrite Hrun in Hf, Hev. cbn [snd] in Hf, Hev.
  cbn [origin_tii threshold origin_hash] in Hf.
  destruct Hf as (Ho & Ht & Hh & _).
  split; [now rewrite Hh, Ho|].
  eapply Forall_impl; [|exact Hev].
  intros e (He1 & He2 & He3). cbn [threshold origin_hash] in He1, He2.
  rewrite Ho. now repeat split.
Qed.

(** ** When the constructor and [observe] raise *)

Lemma normalize_cases (v : vec) :
  normalize v =
  if zero_magnitude v then Raise zero_vector_message
  else Ok (map (fun x => (x / np_linalg_norm v)%float) v).
Proof. reflexivity. Qed.

Lemma outside_ssize_t (w : Z) :
  ((w <? - 2 ^ 63) || (2 ^ 63 <=? w))%Z = true
  <-> (w < - 2 ^ 63 \/ 2 ^ 63 <= w)%Z.
Proof. rewrite orb_true_iff, Z.ltb_lt, Z.leb_le. reflexivity. Qed.

(** X4.  The constructor raises the error of [normalize] when the computed
    norm of the origin is 0.0, whatever the window size; otherwise it
    raises the [OverflowError] of [deque] when the window size is no
    signed 64-bit number, and its [ValueError] when the window size is
    negative; otherwise it returns a sentinel with the threshold as given,
    an origin of the length given, the hash of that origin, an empty
    history and an empty window of the capacity asked for. *)
Theorem constructor_accepts :
  forall (origin : vec) (thr : float) (w : Z),
    (zero_magnitude origin = true ->
     __init__ origin thr w = Raise zero_vector_message) /\
    (zero_magnitude origin = false -> (w < - 2 ^ 63 \/ 2 ^ 63 <= w)%Z ->
     __init__ origin thr w
       = Raise (OverflowError
                  "Python int too large to convert to C ssize_t")) /\
    (zero_magnitude origin = false -> (- 2 ^ 63 <= w < 0)%Z ->
     __init__ origin thr w
       = Raise (ValueError "maxlen must be non-negative")) /\
    (zero_magnitude origin = false -> (0 <= w < 2 ^ 63)%Z ->
     exists self,
       __init__ origin thr w = Ok self /\
       List.length (origin_tii self) = List.length origin /\
       threshold self = thr /\
       origin_hash self = stable_vector_hash (origin_tii self) /\
       history self = [] /\
       items (recent_drifts self) = [] /\
       maxlen (recent_drifts self) = Z.to_nat w).
Proof.
  intros origin thr w. unfold __init__. rewrite normalize_cases.
  split; [|split; [|split]].
  - intros ->. reflexivity.
  - intros -> Hw. cbn [result_bind]. unfold deque_new.
    apply outside_ssize_t in Hw. now rewrite Hw.
  - intros -> Hw. cbn [result_bind]. unfold deque_new.
    destruct ((w <? - 2 ^ 63) || (2 ^ 63 <=? w))%Z eqn:Hr.
    + apply outside_ssize_t in Hr. lia.
    + destruct (Z.ltb_spec w 0); [reflexivity | lia].
  - intros -> Hw. cbn [result_bind]. unfold deque_new.
    destruct ((w <? - 2 ^ 63) || (2 ^ 63 <=? w))%Z eqn:Hr.
    + apply outside_ssize_t in Hr. lia.
    + destruct (Z.ltb_spec w 0); [lia|]. cbn [result_bind].
      eexists. split; [reflexivity|]. cbn. rewrite length_map.
      now repeat split.
Qed.

(** X5.  [observe] raises the error of [normalize] when the computed norm
    of the vector is 0.0; otherwise it raises the [ValueError] of the dot
    product when the vector has not the length of the origin; in both
    cases the sentinel is as it was.  In every other case the window and
    the history are updated, and with a plain step identifier the call
    returns. *)
Theorem observe_raises_when :
  forall (v : vec) (id : pyval) (now : string) (self : t),
    (zero_magnitude v = true ->
     observe v id now self = (Raise zero_vector_message, self)) /\
    (zero_magnitude v = false ->
     List.length v <> List.length (origin_tii self) ->
     observe v id now self
       = (Raise (ValueError "shapes not aligned"), self)) /\
    (zero_magnitude v = false ->
     List.length v = List.length (origin_tii self) ->
     exists drift e,
       computed_drift (origin_tii self) (v, id, now) = [drift] /\
       history (snd (observe v id now self)) = history self ++ [e] /\
       recent_drifts (snd (observe v id now self))
         = deque_append drift (recent_drifts self) /\
       (plain_id id = true ->
        exists avg,
          fst (observe v id now self)
            = Ok (PrimFloat.leb drift (threshold self), drift, avg))).
Proof.
  intros v id now self.
  split; [|split].
  - rewrite observe_unfold, normalize_cases. intros ->. reflexivity.
  - rewrite observe_unfold, normalize_cases.
    intros -> Hlen. unfold cosine, np_dot. rewrite length_map.
    destruct (Nat.eqb_spec (List.length (origin_tii self)) (List.length v));
      [congruence | reflexivity].
  - intros Hz Hlen.
    assert (Hd : exists drift,
               computed_drift (origin_tii self) (v, id, now) = [drift]).
    { unfold computed_drift. cbn [fst]. rewrite normalize_cases, Hz.
      unfold cosine, np_dot. rewrite length_map, Hlen, !Nat.eqb_refl.
      cbn [result_bind]. eexists. reflexivity. }
    destruct Hd as [drift Hd]. exists drift.
    rewrite observe_state, Hd. cbn [history recent_drifts].
    eexists. split; [reflexivity|]. split; [reflexivity|].
    split; [reflexivity|].
    intros Hplain. rewrite observe_unfold.
    unfold computed_drift in Hd. cbn [fst] in Hd.
    destruct (normalize v) as [cur|]; [|discriminate].
    destruct (cosine (origin_tii self) cur) as [d|]; [|discriminate].
    injection Hd as ->. rewrite (plain_id_format _ Hplain).
    eexists. reflexivity.
Qed.

(** ** The decision and the order of the floats *)

Lemma observe_drift_range (v : vec) (id : pyval) (now : string)
    (self self' : t) (is_safe : bool) (drift avg : float) :
  observe v id now self = (Ok (is_safe, drift, avg), self') ->
  PrimFloat.is_nan drift = true \/
  (PrimFloat.leb 0 drift = true /\ PrimFloat.leb drift 2 = true).
Proof.
  intros H. apply observe_ok_inv in H as (cur & _ & Hc & _).
  apply cosine_ok_inv in Hc as [_ ->]. apply np_clip_range.
Qed.

(** X6.  When [observe] answers safe, the drift is no NaN, lies in
    [0, 2], and neither is the threshold NaN nor negative.  A NaN drift or
    a NaN threshold always gives the answer unsafe. *)
Theorem safe_means_a_real_drift_within_threshold :
  forall (v : vec) (id : pyval) (now : string) (self self' : t)
         (is_safe : bool) (drift avg : float),
    observe v id now self = (Ok (is_safe, drift, avg), self') ->
    (is_safe = true ->
     PrimFloat.is_nan drift = false /\
     PrimFloat.is_nan (threshold self) = false /\
     PrimFloat.leb 0 drift = true /\
     PrimFloat.leb drift 2 = true /\
     PrimFloat.leb 0 (threshold self) = true) /\
    (PrimFloat.is_nan drift = true \/
     PrimFloat.is_nan (threshold self) = true ->
     is_safe = false).
Proof.
  intros v id now self self' is_safe drift avg H.
  pose proof (observe_drift_range _ _ _ _ _ _ _ _ H) as Hrange.
  apply observe_ok_inv in H as (cur & _ & _ & -> & _).
  split.
  - intros Hsafe.
    destruct (PrimFloat.is_nan drift) eqn:Hd.
    { rewrite float_leb_nan in Hsafe by now left. discriminate. }
    destruct (PrimFloat.is_nan (threshold self)) eqn:Ht.
    { rewrite float_leb_nan in Hsafe by now right. discriminate. }
    destruct Hrange as [Hnan | [Hlo Hhi]]; [discriminate|].
    repeat split; try assumption.
    exact (float_leb_trans _ _ _ Hlo Hsafe).
  - intros Hnan. now apply float_leb_nan.
Qed.

(** X7.  Of two sentinels with the same origin, the one with the larger
    threshold is the more permissive: observing the same vector they
    compute the same drift, and what the first finds safe the second finds
    safe. *)
Theorem larger_threshold_is_more_permissive :
  forall (v : vec) (id id' : pyval) (now now' : string) (s1 s2 s1' s2' : t)
         (safe1 safe2 : bool) (drift1 drift2 avg1 avg2 : float),
    origin_tii s1 = origin_tii s2 ->
    PrimFloat.leb (threshold s1) (threshold s2) = true ->
    observe v id now s1 = (Ok (safe1, drift1, avg1), s1') ->
    observe v id' now' s2 = (Ok (safe2, drift2, avg2), s2') ->
    drift1 = drift2 /\ (safe1 = true -> safe2 = true).
Proof.
  intros v id id' now now' s1 s2 s1' s2' safe1 safe2 drift1 drift2 avg1 avg2
         Ho Hthr H1 H2.
  apply observe_ok_inv in H1 as (cur1 & Hn1 & Hc1 & -> & _).
  apply observe_ok_inv in H2 as (cur2 & Hn2 & Hc2 & -> & _).
  rewrite Hn1 in Hn2. injection Hn2 as <-.
  rewrite Ho, Hc2 in Hc1. injection Hc1 as <-.
  split; [reflexivity|]. intros Hsafe.
  exact (float_leb_trans _ _ _ Hsafe Hthr).
Qed.

(** X8.  With a negative threshold no observation is safe.  With a
    threshold of 2 or more, an observation is unsafe only when its drift is
    NaN. *)
Theorem extreme_thresholds :
  forall (v : vec) (id : pyval) (now : string) (self self' : t)
         (is_safe : bool) (drift avg : float),
    observe v id now self = (Ok (is_safe, drift, avg), self') ->
    (PrimFloat.ltb (threshold self) 0 = true -> is_safe = false) /\
    (PrimFloat.leb 2 (threshold self) = true ->
     is_safe = negb (PrimFloat.is_nan drift)).
Proof.
  intros v id now self self' is_safe drift avg H.
  pose proof (observe_drift_range _ _ _ _ _ _ _ _ H) as Hrange.
  apply observe_ok_inv in H as (cur & _ & _ & -> & _).
  split.
  - intros Hneg.
    destruct (PrimFloat.leb drift (threshold self)) eqn:Hsafe; [|reflexivity].
    destruct Hrange as [Hnan | [Hlo _]].
    + rewrite float_leb_nan in Hsafe by now left. discriminate.
    + pose proof (float_leb_trans _ _ _ Hlo Hsafe) as H0.
      apply float_leb_not_ltb in H0. congruence.
  - intros Hbig. destruct Hrange as [Hnan | [_ Hhi]].
    + rewrite Hnan. now apply float_leb_nan; left.
    + rewrite (float_leb_trans _ _ _ Hhi Hbig).
      destruct (PrimFloat.is_nan drift) eqn:Hnan; [|reflexivity].
      rewrite float_leb_nan in Hhi by now left. discriminate.
Qed.

(** ** The roles of origin and observation *)

Lemma sum_products_comm (u v : vec) (acc : float) :
  sum_products acc u v = sum_products acc v u.
Proof.
  revert v acc. induction u as [|x u IH]; intros [|y v] acc; try reflexivity.
  cbn [sum_products fadd fmul binary64]. rewrite (float_mul_comm x y). apply IH.
Qed.

Lemma cosine_symmetric (u v : vec) : cosine u v = cosine v u.
Proof.
  unfold cosine, np_dot. rewrite !Nat.eqb_refl, (Nat.eqb_sym (List.length v)).
  destruct (Nat.eqb (List.length u) (List.length v)); [|reflexivity].
  cbn [result_bind fmul fdiv fsub fsqrt fzero binary64].
  now rewrite (sum_products_comm u v), float_mul_comm.
Qed.

(** X9.  Origin and observation can change places: a sentinel of origin
    [a] observing [b] and a sentinel of origin [b] observing [a], with the
    same threshold and the same step identifier, return the same drift
    and the same answer, bit for bit, or raise the same exception. *)
Theorem origin_and_observation_exchange :
  forall (a b : vec) (thr : float) (wa wb : Z) (sa sb : t)
         (id : pyval) (now now' : string),
    __init__ a thr wa = Ok sa ->
    __init__ b thr wb = Ok sb ->
    decision (fst (observe b id now sa))
      = decision (fst (observe a id now' sb)).
Proof.
  intros a b thr wa wb sa sb id now now' Ha Hb.
  apply init_ok_inv in Ha as (na & Hna & _ & ->).
  apply init_ok_inv in Hb as (nb & Hnb & _ & ->).
  rewrite !observe_unfold, Hna, Hnb. cbn [origin_tii threshold].
  rewrite (cosine_symmetric nb na).
  destruct (cosine na nb); [|reflexivity].
  cbv zeta. cbn [fst]. destruct (py_format id) as [[]|]; reflexivity.
Qed.

(** ** What [json] writes and reads back *)

(** [json.dump] of a value: it is written exactly when it holds no object
    of another type and no int too long, and what is read back is the
    value with its tuples turned into lists. *)
Lemma json_encode_cases (v : pyval) :
  (serialisable v = true /\
   exists j, json_encode v = Ok j /\ json_decode j = tuples_to_lists v) \/
  (serialisable v = false /\ exists e, json_encode v = Raise e).
Proof.
  induction v as [ |b|z|x|s|l IHl|l IHl|items IHl|id on_format on_repr]
    using pyval_nested_ind;
    try (left; split; [reflexivity|]; eexists; split; reflexivity);
    try (right; split; [reflexivity|]; eexists; reflexivity).
  - cbn [serialisable json_encode]. unfold int_repr.
    destruct (Z.ltb_spec (Z.abs z) (10 ^ int_max_str_digits)) as [Hlt|Hge].
    + left. split; [reflexivity|].
      destruct (Z.leb_spec (10 ^ int_max_str_digits) (Z.abs z)) as [Hle|_].
      * exfalso. apply (Z.lt_irrefl (Z.abs z)).
        exact (Z.lt_le_trans _ _ _ Hlt Hle).
      * eexists. split; reflexivity.
    + right. split; [reflexivity|].
      destruct (Z.leb_spec (10 ^ int_max_str_digits) (Z.abs z)) as [_|Hlt].
      * eexists. reflexivity.
      * exfalso. apply (Z.lt_irrefl (Z.abs z)).
        exact (Z.lt_le_trans _ _ _ Hlt Hge).
  - assert (Hl : (forallb serialisable l = true /\
                  exists js, result_all json_encode l = Ok js /\
                             map json_decode js = map tuples_to_lists l) \/
                 (forallb serialisable l = false /\
                  exists e, result_all json_encode l = Raise e)).
    { induction l as [|y l IH]; [left; split; [reflexivity|]; exists [];
                                 split; reflexivity|].
      inversion IHl as [|? ? Py Pl]; subst. cbn [forallb result_all map].
      destruct Py as [(Hy & j & -> & Hd) | (Hy & e & ->)]; rewrite Hy;
        [|right; split; [reflexivity|]; eexists; reflexivity].
      destruct (IH Pl) as [(Hs & js & -> & Hds) | (Hs & e & ->)]; rewrite Hs;
        [|right; split; [reflexivity|]; eexists; reflexivity].
      left. split; [reflexivity|]. exists (j :: js). cbn [map].
      now rewrite Hd, Hds. }
    cbn [serialisable json_encode tuples_to_lists].
    destruct Hl as [(Hs & js & -> & Hd) | (Hs & e & ->)]; rewrite Hs;
      [left | right]; split; try reflexivity.
    + exists (JArray js). cbn. now rewrite Hd.
    + eexists. reflexivity.
  - assert (Hl : (forallb serialisable l = true /\
                  exists js, result_all json_encode l = Ok js /\
                             map json_decode js = map tuples_to_lists l) \/
                 (forallb serialisable l = false /\
                  exists e, result_all json_encode l = Raise e)).
    { induction l as [|y l IH]; [left; split; [reflexivity|]; exists [];
                                 split; reflexivity|].
      inversion IHl as [|? ? Py Pl]; subst. cbn [forallb result_all map].
      destruct Py as [(Hy & j & -> & Hd) | (Hy & e & ->)]; rewrite Hy;
        [|right; split; [reflexivity|]; eexists; reflexivity].
      destruct (IH Pl) as [(Hs & js & -> & Hds) | (Hs & e & ->)]; rewrite Hs;
        [|right; split; [reflexivity|]; eexists; reflexivity].
      left. split; [reflexivity|]. exists (j :: js). cbn [map].
      now rewrite Hd, Hds. }
    cbn [serialisable json_encode tuples_to_lists].
    destruct Hl as [(Hs & js & -> & Hd) | (Hs & e & ->)]; rewrite Hs;
      [left | right]; split; try reflexivity.
    + exists (JArray js). cbn. now rewrite Hd.
    + eexists. reflexivity.
  - assert (Hl : (forallb (fun kv => serialisable (snd kv)) items = true /\
                  exists ms,
                    result_all
                      (fun kv : string * pyval =>
                         let (k, x) := kv in
                         result_map (pair k) (json_encode x)) items = Ok ms /\
                    map (fun kv : string * json =>
                           let (k, x) := kv in (k, json_decode x)) ms
                    = map (fun kv : string * pyval =>
                             let (k, x) := kv in (k, tuples_to_lists x)) items)
                 \/
                 (forallb (fun kv => serialisable (snd kv)) items = false /\
                  exists e,
                    result_all
                      (fun kv : string * pyval =>
                         let (k, x) := kv in
                         result_map (pair k) (json_encode x)) items
                    = Raise e)).
    { induction items as [|[k y] items IH];
        [left; split; [reflexivity|]; exists []; split; reflexivity|].
      inversion IHl as [|? ? Py Pl]; subst. cbn [snd] in Py.
      cbn [forallb result_all map snd].
      destruct Py as [(Hy & j & -> & Hd) | (Hy & e & ->)]; rewrite Hy;
        [|right; split; [reflexivity|]; eexists; reflexivity].
      cbn [result_map result_bind].
      destruct (IH Pl) as [(Hs & ms & -> & Hds) | (Hs & e & ->)]; rewrite Hs;
        [|right; split; [reflexivity|]; eexists; reflexivity].
      left. split; [reflexivity|]. exists ((k, j) :: ms). cbn [map].
      now rewrite Hd, Hds. }
    cbn [serialisable json_encode tuples_to_lists].
    destruct Hl as [(Hs & ms & -> & Hd) | (Hs & e & ->)]; rewrite Hs;
      [left | right]; split; try reflexivity.
    + exists (JObject ms). cbn. now rewrite Hd.
    + eexists. reflexivity.
Qed.

(** The events of a history, written: every step identifier is turned into
    JSON or the first that cannot be raises. *)
Lemma audit_trail_encode_cases (h : list Event.t) :
  (forallb (fun e => serialisable (Event.step_id e)) h = true /\
   exists js,
     result_all json_encode (map Event.to_dict h) = Ok js /\
     List.length js = List.length h /\
     Forall (fun j => json_keys j = event_keys) js /\
     map (fun j => getitem (json_decode j) "step_id") js
       = map (fun e => Some (tuples_to_lists (Event.step_id e))) h /\
     map (fun j => getitem (json_decode j) "action_required") js
       = map (fun e => Some (PyBool (Event.action_required e))) h) \/
  (forallb (fun e => serialisable (Event.step_id e)) h = false /\
   exists e, result_all json_encode (map Event.to_dict h) = Raise e).
Proof.
  induction h as [|e h IH].
  - left. split; [reflexivity|]. exists []. repeat split. constructor.
  - cbn [forallb map result_all]. rewrite json_encode_event.
    destruct (json_encode_cases (Event.step_id e))
      as [(Hs & j & -> & Hd) | (Hs & e1 & ->)]; rewrite Hs;
      [|right; split; [reflexivity|]; eexists; reflexivity].
    cbn [result_map result_bind].
    destruct IH
      as [(Hh & js & -> & Hlen & Hkeys & Hids & Hflags) | (Hh & e1 & ->)];
      rewrite Hh; [|right; split; [reflexivity|]; eexists; reflexivity].
    left. split; [reflexivity|]. exists (event_json e j :: js).
    split; [reflexivity|]. cbn [List.length map].
    rewrite Hlen, Hids, Hflags. repeat split.
    + constructor; [reflexivity | exact Hkeys].
    + f_equal. cbn. now rewrite Hd.
Qed.

(** X10.  [export_report] raises what [open] raises when the file cannot
    be opened for writing.  It does not return either when a step
    identifier of the history holds a value [json.dump] does not write,
    an object of another type or an int too long.  ([observe] records any
    step identifier, so this shows at export only.) *)
Theorem export_report_raises_when :
  forall (self : t) (filename now : string)
         (open_w : string -> result unit),
    (forall e, open_w filename = Raise e ->
               export_report self filename now open_w = Raise e) /\
    (forallb (fun e => serialisable (Event.step_id e)) (history self) = false ->
     is_ok (export_report self filename now open_w) = false).
Proof.
  intros self filename now open_w. rewrite export_report_unfold. split.
  - intros e ->. reflexivity.
  - intros Hs. destruct (open_w filename) as [[]|]; [|reflexivity].
    destruct (audit_trail_encode_cases (history self))
      as [(Hs' & _) | (_ & e & ->)]; [congruence | reflexivity].
Qed.

(** X12.  Whenever [export_report] returns, the document is an object of
    the two keys [meta] and [audit_trail]: [meta] holds the module name,
    the version "1.2", the clock reading, the origin hash and the
    threshold, in this order; [audit_trail] is an array of one object per
    event of the history, each with the eight keys of an event in the
    order written. *)
Theorem report_schema :
  forall (self : t) (filename now : string)
         (open_w : string -> result unit) (doc : json),
    export_report self filename now open_w = Ok doc ->
    exists events,
      doc = JObject
              [ ("meta"%string,
                 JObject
                   [ ("module"%string, JString "Liora Identity Observer");
                     ("version"%string, JString "1.2");
                     ("generated_at"%string, JString now);
                     ("origin_hash"%string, JString (origin_hash self));
                     ("threshold"%string, JReal (threshold self)) ]);
                ("audit_trail"%string, JArray events) ] /\
      List.length events = List.length (history self) /\
      Forall (fun ev => json_keys ev = event_keys) events.
Proof.
  intros self filename now open_w doc. rewrite export_report_unfold.
  destruct (open_w filename) as [[]|]; [|discriminate].
  destruct (audit_trail_encode_cases (history self))
    as [(_ & js & -> & Hlen & Hkeys & _) | (_ & e & ->)]; [|discriminate].
  intros H. injection H as <-. exists js. now repeat split.
Qed.

(** ** The demonstration loop *)

Lemma normalize_ok_length (v u : vec) :
  normalize v = Ok u -> List.length u = List.length v.
Proof.
  unfold normalize. destruct (feqb _ _); [discriminate|].
  intros H. injection H as <-. apply length_map.
Qed.

Lemma perturb_length (g : nat -> float) (pos : nat) (factor : float)
    (current : vec) :
  List.length
    (perturb current factor (rng_normal g pos (List.length current)))
  = List.length current.
Proof.
  unfold perturb, rng_normal.
  rewrite length_map, length_combine, length_map, length_seq. lia.
Qed.

Lemma step_ids_cons (step n : nat) :
  step_ids step (S n) = PyInt (Z.of_nat step) :: step_ids (S step) n.
Proof. reflexivity. Qed.

(** The loop only adds to the lines printed; when it ends without an
    exception it has recorded one event per iteration. *)
Lemma observation_loop_spec (g : nat -> float) (clock : nat -> string)
    (n : nat) :
  forall (step pos : nat) (current : vec) (out : list string) (self : t),
    match observation_loop g clock n step pos current out self with
    | (Raise e, out') => exists printed, out' = out ++ printed
    | (Ok self', out') =>
        threshold self' = threshold self /\
        origin_hash self' = origin_hash self /\
        exists es,
          history self' = history self ++ es /\
          List.length es = n /\
          map Event.step_id es = step_ids step n /\
          out' = out ++ repeat drift_notice
                          (List.length (filter Event.action_required es))
    end.
Proof.
  induction n as [|n IH]; intros step pos current out self.
  - cbn [observation_loop]. repeat split. exists [].
    cbn. now rewrite !app_nil_r.
  - cbn [observation_loop]. cbv zeta.
    destruct (normalize (perturb current _ _)) as [current'|e] eqn:Hn.
    2:{ exists []. now rewrite app_nil_r. }
    destruct (observe current' (PyInt (Z.of_nat step)) (clock (step - 1)%nat)
                self) as [[[[ok drift] avg]|e] s1] eqn:Hobs.
    2:{ exists []. now rewrite app_nil_r. }
    apply observe_ok_inv in Hobs as (cur & _ & _ & Hok & _ & ->).
    specialize (IH (S step) (pos + List.length current)%nat current'
                   (if ok then out else out ++ [drift_notice])
                   (Make (origin_tii self) (threshold self) (origin_hash self)
                      (history self
                       ++ [event_of self (PyInt (Z.of_nat step))
                             (clock (step - 1)%nat) drift avg])
                      (deque_append drift (recent_drifts self)))).
    destruct (observation_loop g clock n (S step) _ current' _ _)
      as [[s2|e] out'].
    + cbn [threshold origin_hash history] in IH.
      destruct IH as (Ht & Hh & es & Hes & Hn' & Hids & Hout).
      split; [exact Ht|]. split; [exact Hh|].
      exists (event_of self (PyInt (Z.of_nat step)) (clock (step - 1)%nat)
                drift avg :: es).
      split; [rewrite Hes, <- app_assoc; reflexivity|].
      split; [cbn [List.length]; now rewrite Hn'|].
      split; [cbn [map]; now rewrite Hids, step_ids_cons|].
      rewrite Hout. cbn [filter]. unfold event_of at 1.
      cbn [Event.action_required]. rewrite <- Hok.
      destruct ok; cbn [negb]; [reflexivity|].
      cbn [List.length repeat]. now rewrite <- app_assoc.
    + destruct IH as (printed & Hout).
      destruct ok; [now exists printed|].
      exists (drift_notice :: printed). now rewrite Hout, <- app_assoc.
Qed.

Lemma count_through_maps {X Y Z} (p : Z -> bool) (f : X -> Z) (g : Y -> Z)
    (l : list X) (l' : list Y) :
  map f l = map g l' ->
  List.length (filter (fun x => p (f x)) l)
  = List.length (filter (fun y => p (g y)) l').
Proof.
  revert l'. induction l as [|x l IH]; intros [|y l'] H; try discriminate.
  - reflexivity.
  - cbn [map] in H. injection H as Hxy Hrest. cbn [filter]. rewrite Hxy.
    destruct (p (g y)); cbn [List.length]; now rewrite (IH l' Hrest).
Qed.

(** An int is read back as it was written. *)
Lemma step_ids_read_back (es : list Event.t) (step n : nat) :
  map Event.step_id es = step_ids step n ->
  map (fun e => Some (tuples_to_lists (Event.step_id e))) es
    = map (fun id => Some id) (step_ids step n).
Proof.
  revert step n. induction es as [|e es IH]; intros step [|n] H;
    try discriminate.
  - reflexivity.
  - rewrite step_ids_cons in H. cbn [map] in H. injection H as He Hes.
    cbn [map]. now rewrite He, (IH (S step) n Hes), step_ids_cons.
Qed.

(** What [simulate_semantic_entropy] has done when it returns. *)
Lemma simulate_returns (tii_origin : vec) (steps : Z) (g : nat -> float)
    (clock : nat -> string) (open_w : string -> result unit)
    (doc : json) (out : list string) :
  simulate_semantic_entropy tii_origin steps g clock open_w = (Ok doc, out) ->
  exists evs,
    getitem (json_load doc) "audit_trail" = Some (PyList evs) /\
    List.length evs = Z.to_nat steps /\
    map (fun ev => getitem ev "step_id") evs
      = map (fun id => Some id) (step_ids 1 (Z.to_nat steps)) /\
    out = start_banner :: repeat drift_notice (alert_events evs)
          ++ [end_banner].
Proof.
  unfold simulate_semantic_entropy.
  destruct (__init__ tii_origin 0.15%float 5) as [fresh|e0] eqn:Hinit;
    [|discriminate].
  apply init_ok_inv in Hinit as (o & Hn & _ & ->). rewrite Hn.
  pose proof (observation_loop_spec g clock (Z.to_nat steps) 1 0 o
                [start_banner]
                (Make o 0.15%float (stable_vector_hash o) []
                   (Deque (Z.to_nat 5) []))) as Hloop.
  destruct (observation_loop g clock (Z.to_nat steps) 1 0 o _ _)
    as [[s'|e] out']; [|discriminate].
  destruct Hloop as (_ & _ & es & Hes & Hlen & Hids & Hout).
  cbn [history app] in Hes.
  rewrite export_report_unfold.
  destruct (open_w "liora_report.json"%string) as [[]|]; [|discriminate].
  destruct (audit_trail_encode_cases (history s'))
    as [(_ & js & -> & Hjs & _ & Hjids & Hflags) | (_ & e & ->)];
    [|discriminate].
  intros H. injection H as <- <-.
  exists (map json_decode js). split; [reflexivity|].
  split; [now rewrite length_map, Hjs, Hes|].
  split; [rewrite map_map, Hjids, Hes; now apply step_ids_read_back|].
  rewrite Hout. cbn [app]. f_equal. f_equal. f_equal.
  unfold alert_events. rewrite Hes in Hflags.
  rewrite <- (map_map json_decode
                (fun ev => getitem ev "action_required")) in Hflags.
  rewrite (count_through_maps alert_flag
             (fun ev => getitem ev "action_required")
             (fun e => Some (PyBool (Event.action_required e)))
             (map json_decode js) es Hflags).
  f_equal. apply filter_ext. intros e. cbn.
  now destruct (Event.action_required e).
Qed.

(** X13.  Whenever [simulate_semantic_entropy] returns, whatever the
    generator draws, the report read back holds one event per iteration,
    with step identifiers 1, 2, ... in order, and the lines [print] writes
    are the start banner, one notice per event that asks for action, and
    the end banner. *)
Theorem simulation_report :
  forall (tii_origin : vec) (steps : Z) (g : nat -> float)
         (clock : nat -> string) (open_w : string -> result unit)
         (doc : json) (out : list string),
    simulate_semantic_entropy tii_origin steps g clock open_w
      = (Ok doc, out) ->
    exists evs,
      getitem (json_load doc) "audit_trail" = Some (PyList evs) /\
      List.length evs = Z.to_nat steps /\
      map (fun ev => getitem ev "step_id") evs
        = map (fun id => Some id) (step_ids 1 (Z.to_nat steps)) /\
      out = start_banner :: repeat drift_notice (alert_events evs)
            ++ [end_banner].
Proof.
  intros tii_origin steps g clock open_w doc out H.
  exact (simulate_returns _ _ _ _ _ _ _ H).
Qed.

(** X15.  Without the flag [main] prints the guidance and does nothing
    else.  With the flag the sentinel is always constructed (the start
    banner is printed), and when the run returns the report read back
    holds the step identifiers 1 to 12 in order. *)
Theorem main_runs_the_demo_only_on_request :
  forall (g : nat -> float) (clock : nat -> string)
         (open_w : string -> result unit),
    main false g clock open_w = (Ok None, [guidance]) /\
    (exists printed,
        snd (main true g clock open_w) = start_banner :: printed) /\
    (forall r, fst (main true g clock open_w) = Ok r ->
     exists doc evs,
       r = Some doc /\
       getitem (json_load doc) "audit_trail" = Some (PyList evs) /\
       map (fun ev => getitem ev "step_id") evs
         = map (fun id => Some id) (step_ids 1 12)).
Proof.
  intros g clock open_w. split; [reflexivity|].
  unfold main.
  destruct (simulate_semantic_entropy TII_ORIGIN 12 g clock open_w)
    as [r out] eqn:Hsim.
  cbn [fst snd]. split.
  - unfold simulate_semantic_entropy in Hsim.
    destruct (__init__ TII_ORIGIN 0.15%float 5) as [fresh|e] eqn:Hinit;
      [|vm_compute in Hinit; discriminate].
    apply init_ok_inv in Hinit as (o & Hn & _ & ->). rewrite Hn in Hsim.
    pose proof (observation_loop_spec g clock (Z.to_nat 12) 1 0 o
                  [start_banner]
                  (Make o 0.15%float (stable_vector_hash o) []
                     (Deque (Z.to_nat 5) []))) as Hloop.
    destruct (observation_loop g clock (Z.to_nat 12) 1 0 o _ _)
      as [[s'|e1] out'].
    + destruct Hloop as (_ & _ & es & _ & _ & _ & Hout).
      destruct (export_report s' _ _ _); injection Hsim as <- <-;
        rewrite Hout; cbn [app]; eexists; reflexivity.
    + destruct Hloop as (printed & Hout). injection Hsim as <- <-.
      rewrite Hout. cbn [app]. eexists; reflexivity.
  - intros r' Hr. destruct r as [doc|e']; [|discriminate].
    cbn in Hr. injection Hr as <-.
    destruct (simulate_returns _ _ _ _ _ _ _ Hsim)
      as (evs & Hevs & _ & Hids & _).
    exists doc, evs. now repeat split.
Qed.

(** ** Decisions have no memory *)

(** X17.  What [observe] answers for a vector and a step identifier does
    not depend on the calls made before: after any calls, returning or
    raising, the drift and the answer are those the sentinel gave before
    them, and so is the exception. *)
Theorem decisions_have_no_memory :
  forall (self : t) (calls : list (vec * pyval * string))
         (v : vec) (id : pyval) (now now' : string),
    decision (fst (observe v id now (snd (observe_each calls self))))
      = decision (fst (observe v id now' self)).
Proof.
  intros self calls v id now now'.
  pose proof (observe_each_frame calls self) as Hf. cbv zeta in Hf.
  destruct Hf as (Ho & Ht & _).
  rewrite !observe_unfold, Ho, Ht.
  destruct (normalize v) as [cur|e]; [|reflexivity].
  destruct (cosine (origin_tii self) cur); [|reflexivity].
  cbv zeta. cbn [fst]. destruct (py_format id) as [[]|]; reflexivity.
Qed.

(** X18.  A window of size 0 is accepted by the constructor; it stays
    empty, and the average every call returns is NaN. *)
Theorem window_of_size_zero :
  forall (origin : vec) (thr : float) (fresh self self' : t)
         (calls : list (vec * pyval * string))
         (rs : list (result (bool * float * float)))
         (v : vec) (id : pyval) (now : string)
         (is_safe : bool) (drift avg : float),
    __init__ origin thr 0 = Ok fresh ->
    observe_each calls fresh = (rs, self) ->
    observe v id now self = (Ok (is_safe, drift, avg), self') ->
    PrimFloat.is_nan avg = true /\
    items (recent_drifts self') = [].
Proof.
  intros origin thr fresh self self' calls rs v id now is_safe drift avg
         Hinit Hrun Hobs.
  apply init_ok_inv in Hinit as (o & _ & _ & ->).
  pose proof (observe_each_window calls
                (Make o thr (stable_vector_hash o) []
                   (Deque (Z.to_nat 0) []))) as Hwin.
  cbv zeta in Hwin. rewrite Hrun in Hwin.
  cbn [recent_drifts maxlen items app List.length origin_tii snd] in Hwin.
  destruct (Hwin (Nat.le_0_l _)) as [Hmax Hitems]. clear Hwin.
  apply observe_ok_inv in Hobs as (cur & _ & _ & _ & -> & ->).
  cbn [recent_drifts].
  assert (Hempty : items (deque_append drift (recent_drifts self)) = []).
  { rewrite deque_append_lastn by (rewrite Hmax, Hitems, lastn_length; cbn; lia).
    rewrite Hmax. change (Z.to_nat 0) with 0%nat.
    apply length_zero_iff_nil. rewrite lastn_length. reflexivity. }
  rewrite Hempty. split; reflexivity.
Qed.

(** ** The shape of a digest *)

(** X19.  Whatever the vector, also the empty one or one with NaN or
    infinite components, [stable_vector_hash] returns a string of 64
    characters, each a lowercase hexadecimal digit. *)
Theorem stable_vector_hash_is_64_hex_digits :
  forall v : vec,
    String.length (stable_vector_hash v) = 64%nat /\
    Forall (fun c => In c (list_ascii_of_string "0123456789abcdef"))
      (list_ascii_of_string (stable_vector_hash v)).
Proof.
  intros v. unfold stable_vector_hash.
  destruct (hexdigest_shape (SHA256.digest (tobytes v))) as [Hlen Hhex].
  split; [now rewrite Hlen, digest_length|].
  eapply Forall_impl; [|exact Hhex].
  intros c Hc. exact Hc.
Qed.

(** ** The further properties on concrete runs *)

Lemma run_pair (calls : list (vec * pyval * string)) (self : t) :
  observe_each calls self
    = (fst (observe_each calls self), snd (observe_each calls self)).
Proof. apply surjective_pairing. Qed.

Lemma drift_window_holds_latest_drifts_witness :
  __init__ [1; 0]%float 0.01%float 2 = Ok (demo_window 2) /\
  items (recent_drifts (snd (observe_each demo_calls (demo_window 2))))
    = [1; 2]%float.
Proof.
  assert (Hinit : __init__ [1; 0]%float 0.01%float 2 = Ok (demo_window 2))
    by (vm_compute; reflexivity).
  split; [exact Hinit|].
  destruct (drift_window_holds_latest_drifts _ _ _ _ demo_calls Hinit)
    as (Hwin & _).
  rewrite Hwin. vm_compute. reflexivity.
Defined.

Lemma returned_average_is_window_mean_witness :
  __init__ [1; 0]%float 0.01%float 2 = Ok (demo_window 2) /\
  observe [0; 1]%float PyNone "t4"
    (snd (observe_each demo_calls (demo_window 2)))
    = (Ok (false, 1%float, 1.5%float),
       snd (observe [0; 1]%float PyNone "t4"
              (snd (observe_each demo_calls (demo_window 2))))) /\
  1.5%float
    = np_mean (lastn (Z.to_nat 2)
                 (computed_drifts (origin_tii (demo_window 2)) demo_calls
                  ++ [1%float])).
Proof.
  assert (Hinit : __init__ [1; 0]%float 0.01%float 2 = Ok (demo_window 2))
    by (vm_compute; reflexivity).
  assert (Hobs : observe [0; 1]%float PyNone "t4"
                   (snd (observe_each demo_calls (demo_window 2)))
                 = (Ok (false, 1%float, 1.5%float),
                    snd (observe [0; 1]%float PyNone "t4"
                           (snd (observe_each demo_calls (demo_window 2))))))
    by (vm_compute; reflexivity).
  split; [exact Hinit|]. split; [exact Hobs|].
  exact (returned_average_is_window_mean _ _ _ _ _ _ _ _ _ _ _ _
           Hinit Hobs).
Defined.

Lemma every_event_carries_threshold_and_hash_witness :
  __init__ [1; 0]%float 0.01%float 5 = Ok demo_sentinel /\
  Forall (fun e => Event.threshold e = 0.01%float)
    (history (snd (observe_each demo_calls demo_sentinel))).
Proof.
  split; [exact demo_sentinel_init|].
  destruct (every_event_carries_threshold_and_hash _ _ _ _ _ _ _
              demo_sentinel_init (run_pair demo_calls demo_sentinel))
    as [_ Hall].
  eapply Forall_impl; [|exact Hall]. intros e He. exact (proj1 He).
Defined.

Lemma constructor_accepts_witness :
  (zero_magnitude [0; 0]%float = true /\
   __init__ [0; 0]%float 0.15%float (-1) = Raise zero_vector_message) /\
  (zero_magnitude [1; 0]%float = false /\
   __init__ [1; 0]%float 0.15%float (2 ^ 63)
     = Raise (OverflowError
                "Python int too large to convert to C ssize_t")) /\
  __init__ [1; 0]%float 0.15%float (-1)
    = Raise (ValueError "maxlen must be non-negative") /\
  exists self, __init__ [1; 0]%float 0.15%float 0 = Ok self /\
               history self = [].
Proof.
  split; [split; [reflexivity|]|split; [split; [reflexivity|]|split]].
  - exact (proj1 (constructor_accepts [0; 0]%float 0.15%float (-1))
             eq_refl).
  - exact (proj1 (proj2 (constructor_accepts [1; 0]%float 0.15%float
                           (2 ^ 63)))
             eq_refl ltac:(right; lia)).
  - exact (proj1 (proj2 (proj2 (constructor_accepts [1; 0]%float 0.15%float
                                  (-1))))
             eq_refl ltac:(lia)).
  - destruct (proj2 (proj2 (proj2 (constructor_accepts [1; 0]%float
                                     0.15%float 0)))
                eq_refl ltac:(lia))
      as (self & Hinit & _ & _ & _ & Hh & _).
    exists self. split; [exact Hinit | exact Hh].
Defined.

Lemma observe_raises_when_witness :
  observe [0; 0; 0]%float PyNone "t" demo_sentinel
    = (Raise zero_vector_message, demo_sentinel) /\
  observe [1; 0; 0]%float PyNone "t" demo_sentinel
    = (Raise (ValueError "shapes not aligned"), demo_sentinel) /\
  exists drift e,
    history (snd (observe [0; 1]%float unprintable "t" demo_sentinel))
      = history demo_sentinel ++ [e] /\
    recent_drifts (snd (observe [0; 1]%float unprintable "t" demo_sentinel))
      = deque_append drift (recent_drifts demo_sentinel).
Proof.
  split; [|split].
  - exact (proj1 (observe_raises_when [0; 0; 0]%float PyNone "t"
                    demo_sentinel) eq_refl).
  - exact (proj1 (proj2 (observe_raises_when [1; 0; 0]%float PyNone
                           "t" demo_sentinel))
             eq_refl ltac:(cbn; lia)).
  - destruct (proj2 (proj2 (observe_raises_when [0; 1]%float
                              unprintable "t" demo_sentinel))
                eq_refl eq_refl) as (drift & e & _ & Hh & Hw & _).
    exists drift, e. split; [exact Hh | exact Hw].
Defined.

Lemma demo_first_call :
  observe [1; 0]%float (PyInt 1) "t1" demo_sentinel
    = (Ok (true, 0%float, 0%float),
       snd (observe [1; 0]%float (PyInt 1) "t1" demo_sentinel)).
Proof. vm_compute. reflexivity. Qed.

Lemma safe_means_a_real_drift_within_threshold_witness :
  observe [1; 0]%float (PyInt 1) "t1" demo_sentinel
    = (Ok (true, 0%float, 0%float),
       snd (observe [1; 0]%float (PyInt 1) "t1" demo_sentinel)) /\
  PrimFloat.is_nan 0 = false /\
  PrimFloat.leb 0 (threshold demo_sentinel) = true.
Proof.
  split; [exact demo_first_call|].
  destruct (proj1 (safe_means_a_real_drift_within_threshold _ _ _ _ _ _ _ _
                     demo_first_call) eq_refl)
    as (Hd & _ & _ & _ & Ht).
  split; [exact Hd | exact Ht].
Defined.

Lemma larger_threshold_is_more_permissive_witness :
  (origin_tii demo_sentinel = origin_tii (demo_threshold 0.5) /\
   PrimFloat.leb (threshold demo_sentinel) (threshold (demo_threshold 0.5))
     = true) /\
  0%float = 0%float /\ (true = true -> true = true).
Proof.
  split; [split; reflexivity|].
  exact (larger_threshold_is_more_permissive
                  [1; 0]%float (PyInt 1) (PyInt 1) "t1" "t1"
                  demo_sentinel (demo_threshold 0.5)
                  (snd (observe [1; 0]%float (PyInt 1) "t1" demo_sentinel))
                  (snd (observe [1; 0]%float (PyInt 1) "t1"
                          (demo_threshold 0.5)))
                  true true 0%float 0%float 0%float 0%float
                  eq_refl eq_refl demo_first_call
                  ltac:(vm_compute; reflexivity)).
Defined.

Lemma extreme_thresholds_witness :
  PrimFloat.ltb (threshold (demo_threshold (-0.5))) 0 = true /\
  fst (observe [1; 0]%float PyNone "t" (demo_threshold (-0.5)))
    = Ok (false, 0%float, 0%float) /\
  PrimFloat.leb 2 (threshold (demo_threshold 2)) = true /\
  fst (observe [-1; 0]%float PyNone "t" (demo_threshold 2))
    = Ok (true, 2%float, 2%float).
Proof.
  assert (H1 : observe [1; 0]%float PyNone "t" (demo_threshold (-0.5))
               = (Ok (false, 0%float, 0%float),
                  snd (observe [1; 0]%float PyNone "t"
                         (demo_threshold (-0.5)))))
    by (vm_compute; reflexivity).
  assert (H2 : observe [-1; 0]%float PyNone "t" (demo_threshold 2)
               = (Ok (true, 2%float, 2%float),
                  snd (observe [-1; 0]%float PyNone "t" (demo_threshold 2))))
    by (vm_compute; reflexivity).
  pose proof (proj1 (extreme_thresholds _ _ _ _ _ _ _ _ H1) eq_refl) as E1.
  pose proof (proj2 (extreme_thresholds _ _ _ _ _ _ _ _ H2) eq_refl) as E2.
  split; [reflexivity|]. split; [now rewrite H1|].
  split; [reflexivity | now rewrite H2].
Defined.

Lemma origin_and_observation_exchange_witness :
  __init__ [1; 0]%float 0.01%float 5 = Ok demo_sentinel /\
  __init__ [3; 4]%float 0.01%float 5
    = Ok (Make [0.6; 0.8]%float 0.01%float
            (stable_vector_hash [0.6; 0.8]%float) [] (Deque 5 [])) /\
  decision (fst (observe [3; 4]%float PyNone "t" demo_sentinel))
    = decision
        (fst (observe [1; 0]%float PyNone "t"
                (Make [0.6; 0.8]%float 0.01%float
                   (stable_vector_hash [0.6; 0.8]%float) [] (Deque 5 [])))).
Proof.
  assert (Hb : __init__ [3; 4]%float 0.01%float 5
               = Ok (Make [0.6; 0.8]%float 0.01%float
                       (stable_vector_hash [0.6; 0.8]%float) []
                       (Deque 5 [])))
    by (vm_compute; reflexivity).
  split; [exact demo_sentinel_init|]. split; [exact Hb|].
  exact (origin_and_observation_exchange _ _ _ _ _ _ _ PyNone "t" "t"
           demo_sentinel_init Hb).
Defined.

Lemma export_report_raises_when_witness :
  export_report demo_sentinel "/liora_report.json" "t2" read_only
    = Raise (OSError "Read-only file system") /\
  is_ok (export_report
           (snd (observe [1; 0]%float unprintable "t1" demo_sentinel))
           "liora_report.json" "t2" writable) = false.
Proof.
  split.
  - exact (proj1 (export_report_raises_when demo_sentinel
                    "/liora_report.json" "t2" read_only)
             (OSError "Read-only file system") eq_refl).
  - exact (proj2 (export_report_raises_when
                    (snd (observe [1; 0]%float unprintable "t1"
                            demo_sentinel))
                    "liora_report.json" "t2" writable) eq_refl).
Defined.

Lemma report_schema_witness :
  exists doc events,
    export_report (snd (observe_each demo_calls demo_sentinel))
      "liora_report.json" "t4" writable = Ok doc /\
    List.length events = 3%nat /\
    Forall (fun ev => json_keys ev = event_keys) events.
Proof.
  destruct (export_report (snd (observe_each demo_calls demo_sentinel))
              "liora_report.json" "t4" writable) as [doc|e] eqn:Hdoc;
    [|vm_compute in Hdoc; discriminate].
  destruct (report_schema _ _ _ _ _ Hdoc) as (events & _ & Hlen & Hkeys).
  exists doc, events. split; [reflexivity|].
  split; [exact Hlen | exact Hkeys].
Defined.

Lemma simulation_report_witness :
  exists doc out evs,
    simulate_semantic_entropy [1; 0]%float 3 demo_generator demo_clock
      writable = (Ok doc, out) /\
    getitem (json_load doc) "audit_trail" = Some (PyList evs) /\
    map (fun ev => getitem ev "step_id") evs
      = [Some (PyInt 1); Some (PyInt 2); Some (PyInt 3)].
Proof.
  destruct (simulate_semantic_entropy [1; 0]%float 3 demo_generator
              demo_clock writable) as [[doc|e] out] eqn:Hsim;
    [|vm_compute in Hsim; discriminate].
  destruct (simulation_report _ _ _ _ _ _ _ Hsim)
    as (evs & Hevs & _ & Hids & _).
  exists doc, out, evs. split; [reflexivity|].
  split; [exact Hevs | exact Hids].
Defined.

Lemma main_runs_the_demo_only_on_request_witness :
  main false demo_generator demo_clock writable = (Ok None, [guidance]) /\
  exists r doc evs,
    fst (main true demo_generator demo_clock writable) = Ok r /\
    r = Some doc /\
    List.length evs = 12%nat /\
    map (fun ev => getitem ev "step_id") evs
      = map (fun id => Some id) (step_ids 1 12).
Proof.
  destruct (main_runs_the_demo_only_on_request demo_generator demo_clock
              writable) as (Hoff & _ & Hon).
  split; [exact Hoff|].
  destruct (fst (main true demo_generator demo_clock writable))
    as [r|e] eqn:Hr; [|vm_compute in Hr; discriminate].
  destruct (Hon r eq_refl) as (doc & evs & Hdoc & _ & Hids).
  exists r, doc, evs. split; [reflexivity|]. split; [exact Hdoc|].
  split; [|exact Hids].
  apply (f_equal (@List.length _)) in Hids. now rewrite !length_map in Hids.
Defined.

Lemma window_of_size_zero_witness :
  __init__ [1; 0]%float 0.01%float 0 = Ok (demo_window 0) /\
  exists avg,
    fst (observe [0; 1]%float PyNone "t4"
           (snd (observe_each demo_calls (demo_window 0))))
      = Ok (false, 1%float, avg) /\
    PrimFloat.is_nan avg = true.
Proof.
  assert (Hinit : __init__ [1; 0]%float 0.01%float 0 = Ok (demo_window 0))
    by (vm_compute; reflexivity).
  assert (Hobs : observe [0; 1]%float PyNone "t4"
                   (snd (observe_each demo_calls (demo_window 0)))
                 = (Ok (false, 1%float, nan),
                    snd (observe [0; 1]%float PyNone "t4"
                           (snd (observe_each demo_calls (demo_window 0))))))
    by (vm_compute; reflexivity).
  split; [exact Hinit|]. exists nan. split; [now rewrite Hobs|].
  exact (proj1 (window_of_size_zero _ _ _ _ _ _ _ _ _ _ _ _ _
                  Hinit (run_pair demo_calls (demo_window 0)) Hobs)).
Defined.
